(** * GROMACS topology reader (grotopplugin.c): a shallow embedding

    The development follows [src/GromacsTopReader/grotopplugin.c].

    Conventions of the embedding.
    - A C string is a [string]; buffers are large enough for what the
      code copies into them except where the code itself truncates
      ([%15s], [%31s], [%7s], [%.4s]), and those truncations are written out.
    - [int] values are integers of [Z].  Signed overflow is undefined in C,
      so the model describes the executions in which no [int] computation
      leaves the range of the type.  The section on the range of [int]
      lists those computations function by function ([totals_fit],
      [structure_fits], [bonds_fit], [angles_fit]), and every theorem
      whose statement depends on the value of an [int] assumes that they
      stay in range.
    - The path [parse_include] builds is the one the code builds when
      it fits its 512-byte buffer.
    - [float] values are IEEE-754 values of [spec_float]; the only float
      operation the reader performs is the comparison [x > 0.0f].
    - A [FILE*] opened for reading is the list of records that successive
      [fgets(line, 512, fp)] calls return; [ftell]/[fseek] to the position
      before a record put that record back in front of the list.
    - [malloc], [calloc] and [realloc] succeed. *)

From Stdlib Require Import ZArith List Bool Ascii String Lia Permutation.
From Stdlib Require Import Floats.SpecFloat.
Import ListNotations.

Local Open Scope string_scope.
Local Open Scope Z_scope.

(** ** Constants *)

Definition GROTOP_RECORD_LENGTH : nat := 512.
Definition MAX_INCLUDES : nat := 100.
Definition MAX_MOLTYPES : nat := 500.
Definition MAX_MOLECULES : nat := 1000.
Definition MAX_ATOMTYPES : nat := 1000.
Definition MAX_DEFINES : nat := 100.
Definition MAX_IFDEF_DEPTH : nat := 20.

(** ** Characters and C string helpers *)

Definition float := spec_float.
Definition fzero : float := S754_zero false.

(** [x > 0.0f] *)
Definition fpositive (x : float) : bool := SFltb fzero x.

(** [isspace] in the C locale: space, \t, \n, \v, \f, \r. *)
Definition isspace (c : ascii) : bool :=
  let n := nat_of_ascii c in
  (Nat.eqb n 32 || (Nat.leb 9 n && Nat.leb n 13))%bool.

Definition isdigit (c : ascii) : bool :=
  let n := nat_of_ascii c in (Nat.leb 48 n && Nat.leb n 57)%bool.

Definition toupper (c : ascii) : ascii :=
  let n := nat_of_ascii c in
  if (Nat.leb 97 n && Nat.leb n 122)%bool then ascii_of_nat (n - 32) else c.

Definition newline : ascii := "010"%char.

(** Skip leading blanks: the [while] loops that advance [p] over [isspace]. *)
Fixpoint skip_ws (s : string) : string :=
  match s with
  | String c s' => if isspace c then skip_ws s' else s
  | EmptyString => EmptyString
  end.

(** Trailing-whitespace trim: [while (len > 0 && isspace(line[len-1])) line[--len] = 0]. *)
Fixpoint rtrim (s : string) : string :=
  match s with
  | EmptyString => EmptyString
  | String c s' =>
      match rtrim s' with
      | EmptyString => if isspace c then EmptyString else String c EmptyString
      | r => String c r
      end
  end.

(** The part of [s] before the first occurrence of [d] ([strchr] then cut). *)
Fixpoint cut_at (d : ascii) (s : string) : string :=
  match s with
  | EmptyString => EmptyString
  | String c s' => if Ascii.eqb c d then EmptyString else String c (cut_at d s')
  end.

(** The maximal run of non-blank characters at the front, and what follows. *)
Fixpoint span_nonspace (s : string) : string * string :=
  match s with
  | EmptyString => (EmptyString, EmptyString)
  | String c s' =>
      if isspace c then (EmptyString, s)
      else let '(t, r) := span_nonspace s' in (String c t, r)
  end.

Fixpoint take (n : nat) (s : string) : string :=
  match n, s with
  | S n', String c s' => String c (take n' s')
  | _, _ => EmptyString
  end.

Fixpoint drop (n : nat) (s : string) : string :=
  match n, s with
  | S n', String _ s' => drop n' s'
  | _, _ => s
  end.

Definition strempty (s : string) : bool :=
  match s with EmptyString => true | _ => false end.

(** [strncmp(p, lit, strlen(lit)) == 0] *)
Definition starts_with (lit p : string) : bool := String.prefix lit p.

Definition strmap (f : ascii -> ascii) : string -> string :=
  fix go s := match s with
              | EmptyString => EmptyString
              | String c s' => String (f c) (go s')
              end.

(** ** Lexical helpers *)

Definition strip_comments (line : string) : string :=
  skip_ws (rtrim (cut_at ";"%char line)).

(** The text before the first closing bracket. *)
Fixpoint until_bracket (s : string) : option string :=
  match s with
  | EmptyString => None
  | String c s' =>
      if Ascii.eqb c "]"%char then Some EmptyString
      else option_map (String c) (until_bracket s')
  end.

Definition is_section_header (line : string) : option string :=
  match skip_ws line with
  | String "["%char p =>
      match until_bracket p with
      | None => None
      | Some raw =>
          let len := String.length raw in
          if (Nat.eqb len 0 || Nat.leb 64 len)%bool then None
          else Some (rtrim (skip_ws raw))
      end
  | _ => None
  end.

Definition is_preprocessor_directive (line : string) : bool :=
  match skip_ws line with
  | String "#"%char _ => true
  | _ => false
  end.

Definition is_else_directive (line : string) : bool :=
  starts_with "#else" (skip_ws line).

Definition is_endif_directive (line : string) : bool :=
  starts_with "#endif" (skip_ws line).

(** The symbol after a directive keyword: blanks skipped, then the
    non-blank run, accepted when its length is in 1..63. *)
Definition directive_symbol (p : string) : option string :=
  let '(sym, _) := span_nonspace (skip_ws p) in
  let len := String.length sym in
  if (Nat.eqb len 0 || Nat.leb 64 len)%bool then None else Some sym.

(** [parse_ifdef]: the symbol and the [is_ifndef] flag. *)
Definition parse_ifdef (line : string) : option (string * bool) :=
  let p := skip_ws line in
  if starts_with "#ifdef" p then
    option_map (fun s => (s, false)) (directive_symbol (drop 6 p))
  else if starts_with "#ifndef" p then
    option_map (fun s => (s, true)) (directive_symbol (drop 7 p))
  else None.

(** Text up to the closing quote [q]. *)
Fixpoint until_quote (q : ascii) (s : string) : option string :=
  match s with
  | EmptyString => None
  | String c s' =>
      if Ascii.eqb c q then Some EmptyString
      else option_map (String c) (until_quote q s')
  end.

(** [strrchr(base_path, '/')]: the directory part, slash included. *)
Fixpoint dir_part (path : string) : option string :=
  match path with
  | EmptyString => None
  | String c rest =>
      match dir_part rest with
      | Some d => Some (String c d)
      | None => if Ascii.eqb c "/"%char then Some (String c EmptyString) else None
      end
  end.

(** [parse_include]: [Some] of the path when the function returns 1.
    The code builds the path in [char include_path[512]] with [strncpy]
    and [strcat] and no length test; this is the path it writes when
    directory and name fit the buffer. *)
Definition parse_include (line base_path : string) : option string :=
  let p := skip_ws line in
  if starts_with "#include" p then
    match skip_ws (drop 8 p) with
    | String quote p' =>
        if (Ascii.eqb quote "034"%char || Ascii.eqb quote "'"%char)%bool then
          match until_quote quote p' with
          | None => None
          | Some filename =>
              let len := String.length filename in
              if (Nat.eqb len 0 || Nat.leb 256 len)%bool then None
              else match dir_part base_path with
                   | Some d => Some (d ++ filename)
                   | None => Some filename
                   end
          end
        else None
    | EmptyString => None
    end
  else None.

(** ** The records [fgets] returns

    [fgets(line, 512, fp)] stores at most 511 characters and stops after
    a newline; an over-long physical line comes back in several records. *)

Fixpoint records_aux (room : nat) (s : string) : list string :=
  match s with
  | EmptyString => [EmptyString]
  | String c s' =>
      if (Ascii.eqb c newline || Nat.eqb room 0)%bool
      then String c EmptyString :: records_aux (GROTOP_RECORD_LENGTH - 2) s'
      else match records_aux (room - 1) s' with
           | r :: rs => String c r :: rs
           | [] => [String c EmptyString]
           end
  end.

Definition fgets_records (content : string) : list string :=
  filter (fun r => negb (strempty r))
         (records_aux (GROTOP_RECORD_LENGTH - 2) content).

(** ** [sscanf] conversions

    Each conversion takes the unread input and returns the converted
    value with the input left unread, or [None] when it fails. *)

(** [%Ns]: blanks skipped, then at most [width] non-blank characters. *)
Definition scan_s (width : nat) (s : string) : option (string * string) :=
  let '(tok, rest) := span_nonspace (skip_ws s) in
  if strempty tok then None
  else Some (take width tok, drop width tok ++ rest).

(** [%*s]: a whole blank-delimited token is read and discarded. *)
Definition scan_skip (s : string) : option string :=
  let '(tok, rest) := span_nonspace (skip_ws s) in
  if strempty tok then None else Some rest.

Definition digit_val (c : ascii) : Z := Z.of_nat (nat_of_ascii c - 48).

(** The decimal digits at the front, accumulated onto [acc]. *)
Fixpoint scan_digits (acc : Z) (s : string) : Z * string :=
  match s with
  | String c s' =>
      if isdigit c then scan_digits (10 * acc + digit_val c) s' else (acc, s)
  | EmptyString => (acc, s)
  end.

Definition starts_with_digit (s : string) : bool :=
  match s with String c _ => isdigit c | EmptyString => false end.

(** [%d]: blanks skipped, an optional sign, then at least one digit.
    The value is the integer that is written; it is what the code
    stores when that integer fits an [int]. *)
Definition scan_d (s : string) : option (Z * string) :=
  let p := skip_ws s in
  let '(neg, q) :=
    match p with
    | String "-"%char q => (true, q)
    | String "+"%char q => (false, q)
    | _ => (false, p)
    end in
  if starts_with_digit q then
    let '(v, rest) := scan_digits 0 q in
    Some (if neg then - v else v, rest)
  else None.

(** ** Data model *)

Record atom_data_t := mk_atom {
  id : Z;
  atom_type : string;
  resnr : Z;
  residue : string;
  atom_name : string;
  cgnr : Z;
  charge : float;
  mass : float
}.

Record bond_data_t := mk_bond { bond_ai : Z; bond_aj : Z }.

Record angle_data_t := mk_angle { angle_ai : Z; angle_aj : Z; angle_ak : Z }.

Record dihedral_data_t := mk_dihedral {
  dih_ai : Z; dih_aj : Z; dih_ak : Z; dih_al : Z;
  funct : Z
}.

Record atomtype_t := mk_atomtype { at_name : string; at_mass : float }.

(** [natoms], [nbonds], [nangles] and [ndihedrals] are the lengths of the
    four arrays. *)
Record moltype_t := mk_moltype {
  name : string;
  nrexcl : Z;
  atoms : list atom_data_t;
  bonds : list bond_data_t;
  angles : list angle_data_t;
  dihedrals : list dihedral_data_t
}.

Definition natoms (mt : moltype_t) : Z := Z.of_nat (List.length (atoms mt)).
Definition nbonds (mt : moltype_t) : Z := Z.of_nat (List.length (bonds mt)).
Definition nangles (mt : moltype_t) : Z := Z.of_nat (List.length (angles mt)).
Definition ndihedrals (mt : moltype_t) : Z := Z.of_nat (List.length (dihedrals mt)).

(** [grotop_data].  [molecules] pairs [molnames[i]] with [molcounts[i]];
    the [num_*] counters are the lengths of the lists. *)
Record grotop_data := mk_data {
  moltypes : list moltype_t;
  atomtypes : list atomtype_t;
  molecules : list (string * Z);
  defines : list string;
  total_atoms : Z;
  total_bonds : Z;
  total_angles : Z;
  total_dihedrals : Z;
  total_impropers : Z
}.

(** [calloc(1, sizeof(grotop_data))] *)
Definition empty_data : grotop_data := mk_data [] [] [] [] 0 0 0 0 0.

Definition set_moltypes (d : grotop_data) (l : list moltype_t) : grotop_data :=
  mk_data l (atomtypes d) (molecules d) (defines d)
          (total_atoms d) (total_bonds d) (total_angles d)
          (total_dihedrals d) (total_impropers d).

Definition set_atomtypes (d : grotop_data) (l : list atomtype_t) : grotop_data :=
  mk_data (moltypes d) l (molecules d) (defines d)
          (total_atoms d) (total_bonds d) (total_angles d)
          (total_dihedrals d) (total_impropers d).

Definition set_molecules (d : grotop_data) (l : list (string * Z)) : grotop_data :=
  mk_data (moltypes d) (atomtypes d) l (defines d)
          (total_atoms d) (total_bonds d) (total_angles d)
          (total_dihedrals d) (total_impropers d).

Definition set_defines (d : grotop_data) (l : list string) : grotop_data :=
  mk_data (moltypes d) (atomtypes d) (molecules d) l
          (total_atoms d) (total_bonds d) (total_angles d)
          (total_dihedrals d) (total_impropers d).

(** [calloc]'d molecule type of [create_moltype]. *)
Definition create_moltype : moltype_t := mk_moltype "" 0 [] [] [] [].

(** ** Symbol tables *)

Definition is_defined (data : grotop_data) (symbol : string) : bool :=
  existsb (String.eqb symbol) (defines data).

Definition add_define (data : grotop_data) (symbol : string) : grotop_data :=
  if Nat.leb MAX_DEFINES (List.length (defines data)) then data
  else if is_defined data symbol then data
  else set_defines data (defines data ++ [take 63 symbol]).

(** [parse_define]: [Some] of the updated data when the line is a
    [#define] with a symbol, [None] when the function returns 0. *)
Definition parse_define (line : string) (data : grotop_data) : option grotop_data :=
  let p := skip_ws line in
  if starts_with "#define" p then
    option_map (add_define data) (directive_symbol (drop 7 p))
  else None.

Definition find_moltype (data : grotop_data) (nm : string) : option moltype_t :=
  find (fun mt => String.eqb (name mt) nm) (moltypes data).

Definition find_atomtype_mass (data : grotop_data) (type : string) : float :=
  match find (fun a => String.eqb (at_name a) type) (atomtypes data) with
  | Some a => at_mass a
  | None => fzero
  end.

(** Outcome of [parse_topology_file]. *)
Inductive result (A : Type) : Type :=
| Done (a : A)      (* the function returned 1 *)
| Fatal             (* the function returned 0 *)
| OutOfFuel.        (* the model's step budget ran out *)
Arguments Done {A} a.
Arguments Fatal {A}.
Arguments OutOfFuel {A}.

(** ** Section parsers *)

Section Parser.

(** The [%f] conversion of the C library on one blank-free token: the
    value read and the unread tail of the token.  The parsers are
    generic in it. *)
Variable scan_float : string -> option (float * string).

(** [%f]: blanks skipped, then a float at the front of the next token. *)
Definition scan_f (s : string) : option (float * string) :=
  let '(tok, rest) := span_nonspace (skip_ws s) in
  if strempty tok then None
  else match scan_float tok with
       | Some (v, tokrest) => Some (v, tokrest ++ rest)
       | None => None
       end.

(** The loop every record parser runs ([parse_atomtypes_section],
    [parse_atoms_section], [parse_bonds_section], ...): read a record;
    a directive or a section header is put back and ends the loop, a
    line empty after comment stripping is passed over, anything else is
    handed to [record].  The loop returns the file position it stopped at. *)
Fixpoint section_loop {S : Type} (record : string -> S -> S)
         (fp : list string) (st : S) : list string * S :=
  match fp with
  | [] => ([], st)
  | raw :: rest =>
      if is_preprocessor_directive raw then (fp, st)
      else
        let line := strip_comments raw in
        if strempty line then section_loop record rest st
        else match is_section_header line with
             | Some _ => (fp, st)
             | None => section_loop record rest (record line st)
             end
  end.

(** [sscanf(line, "%15s %f", name, &mass) == 2] *)
Definition sscanf_name_mass (line : string) : option (string * float) :=
  match scan_s 15 line with
  | Some (nm, r1) =>
      match scan_f r1 with
      | Some (m, _) => Some (nm, m)
      | None => None
      end
  | None => None
  end.

(** [sscanf(line, "%15s %*s %*s %f", name, &mass) == 2] *)
Definition sscanf_name_skip2_mass (line : string) : option (string * float) :=
  match scan_s 15 line with
  | Some (nm, r1) =>
      match scan_skip r1 with
      | Some r2 =>
          match scan_skip r2 with
          | Some r3 =>
              match scan_f r3 with
              | Some (m, _) => Some (nm, m)
              | None => None
              end
          | None => None
          end
      | None => None
      end
  | None => None
  end.

(** The MARTINI form is tried first, the full GROMACS form second. *)
Definition parse_atomtype_line (line : string) : option (string * float) :=
  match sscanf_name_mass line with
  | Some r => Some r
  | None => sscanf_name_skip2_mass line
  end.

Definition atomtype_record (line : string) (data : grotop_data) : grotop_data :=
  match parse_atomtype_line line with
  | Some (nm, m) =>
      if Nat.ltb (List.length (atomtypes data)) MAX_ATOMTYPES
      then set_atomtypes data (atomtypes data ++ [mk_atomtype (take 15 nm) m])
      else data
  | None => data
  end.

Definition parse_atomtypes_section (fp : list string) (data : grotop_data)
  : list string * grotop_data :=
  section_loop atomtype_record fp data.

(** [parse_moleculetype_header]: the flag is the return value.  This
    loop neither looks for directives nor puts a section header back. *)
Fixpoint parse_moleculetype_header (fp : list string) (mt : moltype_t)
  : bool * list string * moltype_t :=
  match fp with
  | [] => (false, [], mt)
  | raw :: rest =>
      let line := strip_comments raw in
      if strempty line then parse_moleculetype_header rest mt
      else match is_section_header line with
           | Some _ => (false, rest, mt)
           | None =>
               match scan_s 31 line with
               | Some (nm, r) =>
                   let nr := match scan_d r with Some (v, _) => v | None => 3 end in
                   (true, rest,
                    mk_moltype (take 31 nm) nr
                               (atoms mt) (bonds mt) (angles mt) (dihedrals mt))
               | None => parse_moleculetype_header rest mt
               end
           end
  end.

(** [sscanf(line, "%d %15s %d %7s %15s %d %f %f", ...)] with [n >= 7];
    [atom] starts zeroed, so a missing eighth field leaves [mass] at 0. *)
Definition sscanf_atom (line : string) : option atom_data_t :=
  match scan_d line with
  | Some (i, r1) =>
  match scan_s 15 r1 with
  | Some (ty, r2) =>
  match scan_d r2 with
  | Some (rn, r3) =>
  match scan_s 7 r3 with
  | Some (res, r4) =>
  match scan_s 15 r4 with
  | Some (an, r5) =>
  match scan_d r5 with
  | Some (cg, r6) =>
  match scan_f r6 with
  | Some (q, r7) =>
      let m := match scan_f r7 with Some (m, _) => m | None => fzero end in
      Some (mk_atom i ty rn res an cg q m)
  | None => None end
  | None => None end
  | None => None end
  | None => None end
  | None => None end
  | None => None end
  | None => None end.

Definition set_atoms (mt : moltype_t) (l : list atom_data_t) : moltype_t :=
  mk_moltype (name mt) (nrexcl mt) l (bonds mt) (angles mt) (dihedrals mt).
Definition set_bonds (mt : moltype_t) (l : list bond_data_t) : moltype_t :=
  mk_moltype (name mt) (nrexcl mt) (atoms mt) l (angles mt) (dihedrals mt).
Definition set_angles (mt : moltype_t) (l : list angle_data_t) : moltype_t :=
  mk_moltype (name mt) (nrexcl mt) (atoms mt) (bonds mt) l (dihedrals mt).
Definition set_dihedrals (mt : moltype_t) (l : list dihedral_data_t) : moltype_t :=
  mk_moltype (name mt) (nrexcl mt) (atoms mt) (bonds mt) (angles mt) l.

Definition atom_record (line : string) (mt : moltype_t) : moltype_t :=
  match sscanf_atom line with
  | Some a => set_atoms mt (atoms mt ++ [a])
  | None => mt
  end.

Definition parse_atoms_section (fp : list string) (mt : moltype_t) :=
  section_loop atom_record fp mt.

(** [sscanf(line, "%d %d", &ai, &aj) == 2] *)
Definition sscanf_pair (line : string) : option (Z * Z) :=
  match scan_d line with
  | Some (ai, r1) =>
      match scan_d r1 with
      | Some (aj, _) => Some (ai, aj)
      | None => None
      end
  | None => None
  end.

Definition bond_record (line : string) (mt : moltype_t) : moltype_t :=
  match sscanf_pair line with
  | Some (ai, aj) => set_bonds mt (bonds mt ++ [mk_bond ai aj])
  | None => mt
  end.

Definition parse_bonds_section (fp : list string) (mt : moltype_t) :=
  section_loop bond_record fp mt.

(** Constraints are appended to the bond array. *)
Definition parse_constraints_section (fp : list string) (mt : moltype_t) :=
  section_loop bond_record fp mt.

(** [sscanf(line, "%d %d %d", &ai, &aj, &ak) == 3] *)
Definition sscanf_triple (line : string) : option (Z * Z * Z) :=
  match scan_d line with
  | Some (ai, r1) =>
      match scan_d r1 with
      | Some (aj, r2) =>
          match scan_d r2 with
          | Some (ak, _) => Some (ai, aj, ak)
          | None => None
          end
      | None => None
      end
  | None => None
  end.

Definition angle_record (line : string) (mt : moltype_t) : moltype_t :=
  match sscanf_triple line with
  | Some (ai, aj, ak) => set_angles mt (angles mt ++ [mk_angle ai aj ak])
  | None => mt
  end.

Definition parse_angles_section (fp : list string) (mt : moltype_t) :=
  section_loop angle_record fp mt.

(** [sscanf(line, "%d %d %d %d %d", ...)] with [n >= 4]; [funct] is 0
    unless all five conversions succeeded. *)
Definition sscanf_dihedral (line : string) : option dihedral_data_t :=
  match scan_d line with
  | Some (ai, r1) =>
  match scan_d r1 with
  | Some (aj, r2) =>
  match scan_d r2 with
  | Some (ak, r3) =>
  match scan_d r3 with
  | Some (al, r4) =>
      let f := match scan_d r4 with Some (f, _) => f | None => 0 end in
      Some (mk_dihedral ai aj ak al f)
  | None => None end
  | None => None end
  | None => None end
  | None => None end.

Definition dihedral_record (line : string) (mt : moltype_t) : moltype_t :=
  match sscanf_dihedral line with
  | Some d => set_dihedrals mt (dihedrals mt ++ [d])
  | None => mt
  end.

Definition parse_dihedrals_section (fp : list string) (mt : moltype_t) :=
  section_loop dihedral_record fp mt.

(** [sscanf(line, "%31s %d", molname, &count) == 2] *)
Definition sscanf_molecule (line : string) : option (string * Z) :=
  match scan_s 31 line with
  | Some (nm, r1) =>
      match scan_d r1 with
      | Some (cnt, _) => Some (nm, cnt)
      | None => None
      end
  | None => None
  end.

Definition molecule_record (line : string) (data : grotop_data) : grotop_data :=
  match sscanf_molecule line with
  | Some (nm, cnt) =>
      if Nat.ltb (List.length (molecules data)) MAX_MOLECULES
      then set_molecules data (molecules data ++ [(take 31 nm, cnt)])
      else data
  | None => data
  end.

Definition parse_molecules_section (fp : list string) (data : grotop_data) :=
  section_loop molecule_record fp data.

(** The sections that are read and thrown away. *)
Definition is_skipped_section (section : string) : bool :=
  existsb (String.eqb section)
          ["system"; "defaults"; "pairs"; "exclusions"; "settles";
           "position_restraints"].

Definition skip_section (fp : list string) : list string :=
  fst (section_loop (fun _ (u : unit) => u) fp tt).

(** ** Section dispatch *)

Fixpoint set_nth {A : Type} (i : nat) (x : A) (l : list A) : list A :=
  match l, i with
  | [], _ => []
  | _ :: t, O => x :: t
  | h :: t, S i' => h :: set_nth i' x t
  end.

(** [current_mt] points into [data->moltypes]; it is the index of the
    molecule type it points to, and writes through it update the table. *)
Definition on_current_mt
           (parse : list string -> moltype_t -> list string * moltype_t)
           (fp : list string) (data : grotop_data) (i : nat)
  : list string * grotop_data :=
  match nth_error (moltypes data) i with
  | Some mt =>
      let '(fp', mt') := parse fp mt in
      (fp', set_moltypes data (set_nth i mt' (moltypes data)))
  | None => (fp, data)
  end.

(** [process_section]: return value, file position, data, [*current_mt]. *)
Definition process_section (fp : list string) (section : string)
           (data : grotop_data) (current_mt : option nat)
  : bool * list string * grotop_data * option nat :=
  let in_mt parse :=
    match current_mt with
    | Some i =>
        let '(fp', data') := on_current_mt parse fp data i in
        Some (true, fp', data', current_mt)
    | None => None
    end in
  let others :=
    if String.eqb section "molecules" then
      let '(fp', data') := parse_molecules_section fp data in
      (true, fp', data', current_mt)
    else if is_skipped_section section then
      (true, skip_section fp, data, current_mt)
    else (true, fp, data, current_mt) in
  let or_others (r : option (bool * list string * grotop_data * option nat)) :=
    match r with Some x => x | None => others end in
  if String.eqb section "atomtypes" then
    let '(fp', data') := parse_atomtypes_section fp data in
    (true, fp', data', current_mt)
  else if String.eqb section "moleculetype" then
    let '(ok, fp', mt) := parse_moleculetype_header fp create_moltype in
    if negb ok then (false, fp', data, current_mt)
    else if Nat.ltb (List.length (moltypes data)) MAX_MOLTYPES then
      (true, fp', set_moltypes data (moltypes data ++ [mt]),
       Some (List.length (moltypes data)))
    else (false, fp', data, current_mt)
  else if String.eqb section "atoms" then or_others (in_mt parse_atoms_section)
  else if String.eqb section "bonds" then or_others (in_mt parse_bonds_section)
  else if String.eqb section "constraints" then
    or_others (in_mt parse_constraints_section)
  else if String.eqb section "angles" then or_others (in_mt parse_angles_section)
  else if String.eqb section "dihedrals" then
    or_others (in_mt parse_dihedrals_section)
  else others.

(** ** The file loop *)

(** The locals of [parse_topology_file] together with the shared data.
    The top of the conditional stack is the head of [ifdef_stack]. *)
Record frame := mk_frame {
  fr_data : grotop_data;
  current_mt : option nat;
  current_section : string;
  ifdef_stack : list bool
}.

(** [should_process]: no frame of the conditional stack is false. *)
Definition should_process (stack : list bool) : bool := forallb (fun b => b) stack.

Section FileLoop.

(** The recursive call for [#include], one level deeper. *)
Variable parse_include_file : string -> grotop_data -> result grotop_data.
Variable filepath : string.

Fixpoint parse_loop (fuel : nat) (fp : list string) (st : frame)
  : result grotop_data :=
  match fuel with
  | O => OutOfFuel
  | S fuel' =>
    match fp with
    | [] => Done (fr_data st)
    | line :: rest =>
      (* after a directive: re-enter the current section, if any *)
      let reenter (data : grotop_data) (stack : list bool) :=
        if negb (strempty (current_section st)) then
          match process_section rest (current_section st) data (current_mt st) with
          | (true, fp', data', mt') =>
              parse_loop fuel' fp' (mk_frame data' mt' (current_section st) stack)
          | (false, _, _, _) => Fatal
          end
        else parse_loop fuel' rest
                        (mk_frame data (current_mt st) (current_section st) stack) in
      match parse_define line (fr_data st) with
      | Some data' => reenter data' (ifdef_stack st)
      | None =>
        match parse_ifdef line with
        | Some (symbol, is_ifndef) =>
            if Nat.leb MAX_IFDEF_DEPTH (List.length (ifdef_stack st)) then Fatal
            else
              let condition := is_defined (fr_data st) symbol in
              let condition := if is_ifndef then negb condition else condition in
              reenter (fr_data st) (condition :: ifdef_stack st)
        | None =>
          if is_else_directive line then
            match ifdef_stack st with
            | [] => Fatal
            | top :: below => reenter (fr_data st) (negb top :: below)
            end
          else if is_endif_directive line then
            match ifdef_stack st with
            | [] => Fatal
            | _ :: below => reenter (fr_data st) below
            end
          else if negb (should_process (ifdef_stack st)) then
            parse_loop fuel' rest st
          else
            match parse_include line filepath with
            | Some include_path =>
                match parse_include_file include_path (fr_data st) with
                | Done data' =>
                    parse_loop fuel' rest
                               (mk_frame data' (current_mt st)
                                         (current_section st) (ifdef_stack st))
                | Fatal => Fatal
                | OutOfFuel => OutOfFuel
                end
            | None =>
                let stripped := strip_comments line in
                if strempty stripped then parse_loop fuel' rest st
                else
                  match is_section_header stripped with
                  | Some section =>
                      match process_section rest section (fr_data st)
                                            (current_mt st) with
                      | (true, fp', data', mt') =>
                          parse_loop fuel' fp'
                                     (mk_frame data' mt' (take 63 section)
                                               (ifdef_stack st))
                      | (false, _, _, _) => Fatal
                      end
                  | None => parse_loop fuel' rest st
                  end
            end
        end
      end
    end
  end.

End FileLoop.

(** The file system: the content of the file at a path, if it opens. *)
Definition filesystem := string -> option string.

(** [parse_topology_file] at include depth [MAX_INCLUDES + 1 - levels];
    no level left means [depth > MAX_INCLUDES].  Each turn of the file
    loop reads a record, so one step per record (and one for the end of
    file) is budget enough. *)
Fixpoint parse_topology_file (fs : filesystem) (levels : nat)
         (filepath : string) (data : grotop_data) : result grotop_data :=
  match levels with
  | O => Fatal
  | S levels' =>
      match fs filepath with
      | None => Fatal
      | Some content =>
          let fp := fgets_records content in
          parse_loop (parse_topology_file fs levels') filepath
                     (S (List.length fp)) fp
                     (mk_frame data None "" [])
      end
  end.

(** ** Totals *)

(** [calculate_total_atoms]: -1 at the first roster entry whose
    molecule type is unknown.  The products and the running total are
    those of the code as long as they fit an [int] ([totals_fit]). *)
Fixpoint total_atoms_loop (data : grotop_data) (roster : list (string * Z))
         (total : Z) : Z :=
  match roster with
  | [] => total
  | (nm, cnt) :: rest =>
      match find_moltype data nm with
      | None => -1
      | Some mt => total_atoms_loop data rest (total + natoms mt * cnt)
      end
  end.

Definition calculate_total_atoms (data : grotop_data) : Z :=
  total_atoms_loop data (molecules data) 0.

(** The other totals pass over unknown molecule types; their products
    and running totals are subject to the same range ([totals_fit]). *)
Definition total_loop (per_copy : moltype_t -> Z) (data : grotop_data) : Z :=
  fold_left (fun total '(nm, cnt) =>
               match find_moltype data nm with
               | Some mt => total + per_copy mt * cnt
               | None => total
               end)
            (molecules data) 0.

Definition calculate_total_bonds := total_loop nbonds.
Definition calculate_total_angles := total_loop nangles.
Definition calculate_total_dihedrals := total_loop ndihedrals.

(** [funct == 2 || funct == 4] *)
Definition is_improper (d : dihedral_data_t) : bool :=
  ((funct d =? 2) || (funct d =? 4))%bool.

Definition calculate_total_impropers (data : grotop_data) : Z :=
  fold_left (fun total '(nm, cnt) =>
               match find_moltype data nm with
               | Some mt =>
                   fold_left (fun t d => if is_improper d then t + cnt else t)
                             (dihedrals mt) total
               | None => total
               end)
            (molecules data) 0.

(** ** Reader API *)

(** The part of [open_grotop_read] after a successful parse; [None] is
    the null handle. *)
Definition open_finish (data : grotop_data) : option grotop_data :=
  let ta := calculate_total_atoms data in
  if ta <? 0 then None
  else Some (mk_data (moltypes data) (atomtypes data) (molecules data)
                     (defines data) ta
                     (calculate_total_bonds data)
                     (calculate_total_angles data)
                     (calculate_total_dihedrals data)
                     (calculate_total_impropers data)).

Definition open_grotop_read (fs : filesystem) (filepath : string)
  : option grotop_data :=
  match parse_topology_file fs (S MAX_INCLUDES) filepath empty_data with
  | Done data => open_finish data
  | Fatal => None
  | OutOfFuel => None
  end.

End Parser.

(** The fields of [molfile_atom_t] that the reader fills.  The
    destination buffers (molfile_plugin.h of VMD) hold 15, 15, 7 and 7
    characters. *)
Record molfile_atom_t := mk_molfile_atom {
  m_name : string;
  m_type : string;
  m_resname : string;
  m_resid : Z;
  m_segid : string;
  m_chain : string;
  m_charge : float;
  m_mass : float
}.

(** [snprintf(segid, 8, "%.4s", mt->name)] then [toupper] on each character. *)
Definition make_segid (mt : moltype_t) : string := strmap toupper (take 4 (name mt)).

(** Minimum and maximum [resnr] as the loop computes them, starting from
    the first atom, or from 1 when there is none. *)
Definition min_max_resid (mt : moltype_t) : Z * Z :=
  let first := match atoms mt with a :: _ => resnr a | [] => 1 end in
  fold_left (fun '(min_resid, max_resid) a =>
               (if resnr a <? min_resid then resnr a else min_resid,
                if resnr a >? max_resid then resnr a else max_resid))
            (atoms mt) (first, first).

(** One atom of one copy. *)
Definition emit_atom (data : grotop_data) (segid : string) (resid_offset : Z)
           (src : atom_data_t) : molfile_atom_t :=
  mk_molfile_atom
    (take 15 (atom_name src))
    (take 15 (atom_type src))
    (take 7 (residue src))
    (resnr src + resid_offset)
    (take 7 segid)
    ""
    (charge src)
    (if fpositive (mass src) then mass src
     else find_atomtype_mass data (atom_type src)).

(** Loop state of [read_grotop_structure]: [global_atom_idx],
    [residue_offset], and the part of [atoms[]] written so far (the
    output is written at consecutive indices from 0). *)
Definition structure_state : Type := Z * Z * list molfile_atom_t.

Definition copy_atoms (data : grotop_data) (segid : string) (resid_offset : Z)
           (mt : moltype_t) (idx : Z) (out : list molfile_atom_t)
  : Z * list molfile_atom_t :=
  fold_left (fun '(idx, out) src =>
               (idx + 1, (out ++ [emit_atom data segid resid_offset src])%list))
            (atoms mt) (idx, out).

(** [for (copy = 0; copy < count; copy++)], [copies] turns left.
    [residue_offset], [resid_offset] and the emitted [resid] are those
    of the code as long as they fit an [int] ([structure_fits]). *)
Fixpoint structure_copies (data : grotop_data) (mt : moltype_t) (segid : string)
         (min_resid num_residues : Z) (copies : nat) (st : structure_state)
  : structure_state :=
  match copies with
  | O => st
  | S copies' =>
      let '(idx, residue_offset, out) := st in
      let resid_offset := residue_offset - min_resid + 1 in
      let '(idx', out') := copy_atoms data segid resid_offset mt idx out in
      structure_copies data mt segid min_resid num_residues copies'
                       (idx', residue_offset + num_residues, out')
  end.

Definition structure_entry (data : grotop_data) (st : structure_state)
           (entry : string * Z) : structure_state :=
  let '(nm, count) := entry in
  match find_moltype data nm with
  | None => st
  | Some mt =>
      let segid := make_segid mt in
      let '(min_resid, max_resid) := min_max_resid mt in
      let num_residues := max_resid - min_resid + 1 in
      structure_copies data mt segid min_resid num_residues (Z.to_nat count) st
  end.

Definition read_grotop_structure (data : grotop_data) : list molfile_atom_t :=
  snd (fold_left (structure_entry data) (molecules data) (0, 0, [])).

(** [read_grotop_bonds]: [nbonds], [from[]], [to[]]. *)
Record bonds_out := mk_bonds_out {
  out_nbonds : Z;
  bond_from : list Z;
  bond_to : list Z
}.

(** Loop state: [global_atom_offset] and the two arrays written so far
    ([bond_idx] is their common length).  Offsets and indices are those
    of the code as long as they fit an [int] ([bonds_fit]). *)
Definition bonds_state : Type := Z * list Z * list Z.

Definition copy_bonds (mt : moltype_t) (global_atom_offset : Z)
           (from to : list Z) : list Z * list Z :=
  fold_left (fun '(from, to) b =>
               ((from ++ [global_atom_offset + bond_ai b])%list,
                (to ++ [global_atom_offset + bond_aj b])%list))
            (bonds mt) (from, to).

Fixpoint bonds_copies (mt : moltype_t) (copies : nat) (st : bonds_state)
  : bonds_state :=
  match copies with
  | O => st
  | S copies' =>
      let '(global_atom_offset, from, to) := st in
      let '(from', to') := copy_bonds mt global_atom_offset from to in
      bonds_copies mt copies' (global_atom_offset + natoms mt, from', to')
  end.

Definition bonds_entry (data : grotop_data) (st : bonds_state)
           (entry : string * Z) : bonds_state :=
  let '(nm, count) := entry in
  match find_moltype data nm with
  | None => st
  | Some mt => bonds_copies mt (Z.to_nat count) st
  end.

Definition read_grotop_bonds (data : grotop_data) : bonds_out :=
  if total_bonds data =? 0 then mk_bonds_out 0 [] []
  else
    let '(_, from, to) := fold_left (bonds_entry data) (molecules data) (0, [], []) in
    mk_bonds_out (total_bonds data) from to.

(** [read_grotop_angles]: the three counts and the three flat arrays
    (3 indices per angle, 4 per dihedral and per improper). *)
Record angles_out := mk_angles_out {
  numangles : Z;
  out_angles : list Z;
  numdihedrals : Z;
  out_dihedrals : list Z;
  numimpropers : Z;
  out_impropers : list Z
}.

(** Loop state of each of the three passes: the tuple counter
    ([angle_idx], [dihedral_idx], [improper_idx]), [global_atom_offset]
    and the array written so far.  Counters, offsets and indices are
    those of the code as long as they fit an [int] ([angles_fit]). *)
Definition tuples_state : Type := Z * Z * list Z.

(** The loop over the records of one copy: a record for which [skip]
    holds is passed over ([continue]); the others have their indices
    written, shifted by [global_atom_offset]. *)
Definition copy_tuples {R : Type} (skip : R -> bool) (indices : R -> list Z)
           (records : list R) (global_atom_offset : Z) (idx : Z) (out : list Z)
  : Z * list Z :=
  fold_left (fun '(idx, out) r =>
               if skip r then (idx, out)
               else (idx + 1,
                     (out ++ map (fun i => global_atom_offset + i) (indices r))%list))
            records (idx, out).

Fixpoint tuples_copies {R : Type} (skip : R -> bool) (indices : R -> list Z)
         (records : list R) (natoms_mt : Z) (copies : nat) (st : tuples_state)
  : tuples_state :=
  match copies with
  | O => st
  | S copies' =>
      let '(idx, global_atom_offset, out) := st in
      let '(idx', out') :=
        copy_tuples skip indices records global_atom_offset idx out in
      tuples_copies skip indices records natoms_mt copies'
                    (idx', global_atom_offset + natoms_mt, out')
  end.

Definition tuples_entry {R : Type} (skip : R -> bool) (indices : R -> list Z)
           (records : moltype_t -> list R) (data : grotop_data)
           (st : tuples_state) (entry : string * Z) : tuples_state :=
  let '(nm, count) := entry in
  match find_moltype data nm with
  | None => st
  | Some mt =>
      tuples_copies skip indices (records mt) (natoms mt) (Z.to_nat count) st
  end.

Definition instantiate_tuples {R : Type} (skip : R -> bool)
           (indices : R -> list Z) (records : moltype_t -> list R)
           (data : grotop_data) : tuples_state :=
  fold_left (tuples_entry skip indices records data) (molecules data) (0, 0, []).

Definition angle_indices (a : angle_data_t) : list Z :=
  [angle_ai a; angle_aj a; angle_ak a].

Definition dihedral_indices (d : dihedral_data_t) : list Z :=
  [dih_ai d; dih_aj d; dih_ak d; dih_al d].

Definition read_grotop_angles (data : grotop_data) : angles_out :=
  let '(na, a) :=
    if total_angles data >? 0 then
      let '(_, _, out) :=
        instantiate_tuples (fun _ => false) angle_indices angles data in
      (total_angles data, out)
    else (0, []) in
  let '(nd, d) :=
    if total_dihedrals data >? 0 then
      let '(dihedral_idx, _, out) :=
        instantiate_tuples is_improper dihedral_indices dihedrals data in
      (dihedral_idx, out)
    else (0, []) in
  let '(ni, i) :=
    if total_impropers data >? 0 then
      let '(improper_idx, _, out) :=
        instantiate_tuples (fun d => negb (is_improper d))
                           dihedral_indices dihedrals data in
      (improper_idx, out)
    else (0, []) in
  mk_angles_out na a nd d ni i.

(** ** A decimal [%f] conversion for the worked examples

    An optional sign, digits, and optionally a point and more digits;
    the value is the quotient of the digit string by the power of ten,
    rounded to nearest-even in binary32.  Exponents, hexadecimal floats,
    infinities and NaNs, which the C library also accepts, are left out:
    the examples below do not use them. *)

Definition binary32_div := SFdiv 24 128.

Definition decimal_value (neg : bool) (digits : Z) (scale : nat) : float :=
  match digits with
  | Zpos m =>
      binary32_div (S754_finite neg m 0)
                   (S754_finite false (Z.to_pos (10 ^ Z.of_nat scale)) 0)
  | _ => S754_zero neg
  end.

Definition scan_float_dec (tok : string) : option (float * string) :=
  let '(neg, q) :=
    match tok with
    | String "-"%char q => (true, q)
    | String "+"%char q => (false, q)
    | _ => (false, tok)
    end in
  if starts_with_digit q then
    let '(ip, r) := scan_digits 0 q in
    match r with
    | String "."%char fr =>
        let '(all, r') := scan_digits ip fr in
        Some (decimal_value neg all (String.length fr - String.length r'), r')
    | _ => Some (decimal_value neg ip 0, r)
    end
  else None.

(** ** The instantiation as the specification words it

    The definitions of this part follow the specification, not the
    code: they are what the reader functions are compared with. *)

Definition entry : Type := (string * Z)%type.

(** The number of copies an entry asks for. *)
Definition copies (e : entry) : nat := Z.to_nat (snd e).

Definition zsum (l : list Z) : Z := fold_right Z.add 0 l.

(** Every instance in roster order, then copy index; [emit] receives
    the entries that come before, the copy index and the molecule type. *)
Fixpoint spec_instances {X : Type} (data : grotop_data)
         (emit : list entry -> nat -> moltype_t -> list X)
         (prev roster : list entry) : list X :=
  match roster with
  | [] => []
  | e :: rest =>
      (match find_moltype data (fst e) with
       | Some mt => flat_map (fun copy => emit prev copy mt) (seq 0 (copies e))
       | None => []
       end ++ spec_instances data emit (prev ++ [e]) rest)%list
  end.

(** Least and greatest [resnr] of a molecule type; the span of a
    molecule type without atoms counts one residue. *)
Definition spec_min_r (mt : moltype_t) : Z :=
  match map resnr (atoms mt) with
  | [] => 1
  | r :: rs => fold_left Z.min rs r
  end.

Definition spec_max_r (mt : moltype_t) : Z :=
  match map resnr (atoms mt) with
  | [] => 1
  | r :: rs => fold_left Z.max rs r
  end.

Definition spec_nres (mt : moltype_t) : Z := spec_max_r mt - spec_min_r mt + 1.

(** Residues, and atoms, that all the copies of one entry lay out. *)
Definition entry_residues (data : grotop_data) (e : entry) : Z :=
  match find_moltype data (fst e) with
  | Some mt => Z.of_nat (copies e) * spec_nres mt
  | None => 0
  end.

Definition entry_atoms (data : grotop_data) (e : entry) : Z :=
  match find_moltype data (fst e) with
  | Some mt => Z.of_nat (copies e) * natoms mt
  | None => 0
  end.

(** Number of records of one entry that a pass writes. *)
Definition entry_tuples {R : Type} (skip : R -> bool)
           (records : moltype_t -> list R) (data : grotop_data) (e : entry) : Z :=
  match find_moltype data (fst e) with
  | Some mt =>
      Z.of_nat (copies e)
      * Z.of_nat (List.length (filter (fun r => negb (skip r)) (records mt)))
  | None => 0
  end.

(** One roster entry's share of a total. *)
Definition entry_total (w : moltype_t -> Z) (data : grotop_data) (e : entry) : Z :=
  match find_moltype data (fst e) with
  | Some mt => w mt * snd e
  | None => 0
  end.

Definition nimpropers (mt : moltype_t) : Z :=
  Z.of_nat (List.length (filter is_improper (dihedrals mt))).

(** A roster whose counts are numbers of copies. *)
Definition counts_nonneg (roster : list entry) : Prop :=
  Forall (fun e => 0 <= snd e) roster.

(** Everything the reader hands out for a handle. *)
Definition read_tables (h : grotop_data)
  : Z * list molfile_atom_t * bonds_out * angles_out :=
  (total_atoms h, read_grotop_structure h, read_grotop_bonds h,
   read_grotop_angles h).

(** An emitted atom with its [resid] moved up by [k]. *)
Definition shift_resid (k : Z) (a : molfile_atom_t) : molfile_atom_t :=
  mk_molfile_atom (m_name a) (m_type a) (m_resname a) (m_resid a + k)
                  (m_segid a) (m_chain a) (m_charge a) (m_mass a).

(** [resid_base]: the sum of [nres] over all instances emitted before
    copy [copy] of the entry that follows [prev]. *)
Definition spec_resid_base (data : grotop_data) (prev : list entry)
           (copy : nat) (mt : moltype_t) : Z :=
  zsum (map (entry_residues data) prev) + Z.of_nat copy * spec_nres mt.

(** [offset]: the number of global atoms laid out before that copy. *)
Definition spec_offset (data : grotop_data) (prev : list entry)
           (copy : nat) (mt : moltype_t) : Z :=
  zsum (map (entry_atoms data) prev) + Z.of_nat copy * natoms mt.

Definition spec_resids (data : grotop_data) : list Z :=
  spec_instances data
    (fun prev copy mt =>
       map (fun a => resnr a + (spec_resid_base data prev copy mt - spec_min_r mt + 1))
           (atoms mt))
    [] (molecules data).

Definition spec_bonds (data : grotop_data) : list (Z * Z) :=
  spec_instances data
    (fun prev copy mt =>
       map (fun b => (bond_ai b + spec_offset data prev copy mt,
                      bond_aj b + spec_offset data prev copy mt))
           (bonds mt))
    [] (molecules data).

(** The atoms of one copy, with the residue base in closed form. *)
Definition emit_copy (data : grotop_data) (prev : list entry) (copy : nat)
           (mt : moltype_t) : list molfile_atom_t :=
  map (emit_atom data (make_segid mt)
                 (spec_resid_base data prev copy mt - spec_min_r mt + 1))
      (atoms mt).

(** The atom records behind the emitted atoms, in emission order. *)
Definition spec_atom_records (data : grotop_data) : list atom_data_t :=
  spec_instances data (fun _ _ mt => atoms mt) [] (molecules data).

(** The emitted mass: the record's mass if positive, else the mass of
    the first atom-type entry with the record's type, else 0.0. *)
Definition spec_mass (data : grotop_data) (a : atom_data_t) : float :=
  if fpositive (mass a) then mass a
  else match find (fun t => String.eqb (at_name t) (atom_type a)) (atomtypes data) with
       | Some t => at_mass t
       | None => fzero
       end.

(** [funct] in {2, 4}, by membership. *)
Definition spec_is_improper (d : dihedral_data_t) : bool :=
  existsb (Z.eqb (funct d)) [2; 4].

Definition spec_is_proper (d : dihedral_data_t) : bool :=
  negb (spec_is_improper d).

(** Number of quads of the chosen kind over all instances. *)
Definition spec_quad_count (data : grotop_data) (keep : dihedral_data_t -> bool)
  : Z :=
  zsum (map (fun e =>
               match find_moltype data (fst e) with
               | Some mt =>
                   Z.of_nat (copies e)
                   * Z.of_nat (List.length (filter keep (dihedrals mt)))
               | None => 0
               end)
            (molecules data)).

(** Dihedral records of the chosen kind, as shifted quads, flat. *)
Definition spec_quads (data : grotop_data) (keep : dihedral_data_t -> bool)
  : list Z :=
  spec_instances data
    (fun prev copy mt =>
       flat_map (fun d => map (fun i => i + spec_offset data prev copy mt)
                              (dihedral_indices d))
                (filter keep (dihedrals mt)))
    [] (molecules data).

(** Blank-delimited tokens of a line. *)
Fixpoint tokens (s : string) : list string :=
  match s with
  | EmptyString => []
  | String c s' =>
      if isspace c then tokens s'
      else
        match s' with
        | EmptyString => [String c EmptyString]
        | String c' _ =>
            if isspace c' then String c EmptyString :: tokens s'
            else match tokens s' with
                 | t :: ts => String c t :: ts
                 | [] => [String c EmptyString]
                 end
        end
  end.

(** The mass an [atomtypes] line gives, from the tokens after the name:
    the second token of the line if it reads as a float (MARTINI form);
    otherwise the fourth, if there is one and it reads as a float
    (GROMACS form). *)
Definition spec_atomtype_mass (scan_float : string -> option (float * string))
           (after_name : list string) : option float :=
  match after_name with
  | t2 :: rest =>
      match scan_float t2 with
      | Some (m, _) => Some m
      | None =>
          match rest with
          | _ :: t4 :: _ => option_map fst (scan_float t4)
          | _ => None
          end
      end
  | [] => None
  end.

(** The rule for one line: with room in the table, the line appends
    exactly the mass [spec_atomtype_mass] gives, or nothing. *)
Definition atomtype_mass_rule (scan_float : string -> option (float * string))
           (line : string) : Prop :=
  forall data t1 ts,
    tokens line = t1 :: ts ->
    (List.length (atomtypes data) < MAX_ATOMTYPES)%nat ->
    map at_mass (atomtypes (atomtype_record scan_float line data))
    = (map at_mass (atomtypes data)
       ++ match spec_atomtype_mass scan_float ts with
          | Some m => [m]
          | None => []
          end)%list.

(** ** Inputs of the worked examples *)

Definition nl : string := String newline EmptyString.

(** A file made of the given lines, each ended by a newline. *)
Definition file_of (ls : list string) : string :=
  fold_right (fun l rest => l ++ nl ++ rest) EmptyString ls.

(** A file system with the single file [topol.top]. *)
Definition single_file (content : string) : filesystem :=
  fun path => if String.eqb path "topol.top" then Some content else None.

Definition open_example (content : string) : option grotop_data :=
  open_grotop_read scan_float_dec (single_file content) "topol.top".

Definition parse_example (content : string) : result grotop_data :=
  parse_topology_file scan_float_dec (single_file content) (S MAX_INCLUDES)
                      "topol.top" empty_data.

(** Scenario S2: three waters. *)
Definition water_x3 : string :=
  file_of ["[ atomtypes ]"; "OW 16.0"; "HW 1.008";
           "[ moleculetype ]"; "SOL 2";
           "[ atoms ]";
           "1 OW 1 SOL OW  1 -0.834";
           "2 HW 1 SOL HW1 1 0.417";
           "3 HW 1 SOL HW2 1 0.417";
           "[ bonds ]"; "1 2"; "1 3";
           "[ molecules ]"; "SOL 3"].

Definition water_data : grotop_data :=
  Eval vm_compute in
    match parse_example water_x3 with Done d => d | _ => empty_data end.

Definition water_handle : grotop_data :=
  Eval vm_compute in
    match open_finish water_data with Some h => h | None => empty_data end.

(** A roster that names a molecule type [X] nobody defined. *)
Definition unknown_roster : string :=
  file_of ["[ moleculetype ]"; "M 1";
           "[ atoms ]"; "1 C 1 R A 1 0.0";
           "[ molecules ]"; "M 1"; "X 2"].

Definition unknown_data : grotop_data :=
  Eval vm_compute in
    match parse_example unknown_roster with Done d => d | _ => empty_data end.

(** Three waters after an entry that asks for no water at all. *)
Definition zero_count_data : grotop_data :=
  set_molecules water_data [("SOL", 0); ("SOL", 3)].

(** An empty molecule type [E] twice between two waters. *)
Definition empty_between : string :=
  file_of ["[ moleculetype ]"; "SOL 2";
           "[ atoms ]";
           "1 OW 1 SOL OW  1 -0.834";
           "2 HW 1 SOL HW1 1 0.417";
           "[ moleculetype ]"; "E 1";
           "[ molecules ]"; "SOL 1"; "E 2"; "SOL 1"].

Definition empty_between_data : grotop_data :=
  Eval vm_compute in
    match parse_example empty_between with Done d => d | _ => empty_data end.

(** A bond record between [#ifdef FLEX] and [#endif] inside [bonds];
    [FLEX] is not defined. *)
Definition bond_in_false_block : string :=
  file_of ["[ moleculetype ]"; "M 1";
           "[ atoms ]"; "1 C 1 R A 1 0.0"; "2 C 1 R B 1 0.0";
           "[ bonds ]";
           "#ifdef FLEX"; "1 2"; "#endif";
           "[ molecules ]"; "M 1"].

(** The same bond record, with the [#ifdef FLEX] before the section
    header, so that the file loop itself reads the header and the record. *)
Definition bond_section_in_false_block : string :=
  file_of ["[ moleculetype ]"; "M 1";
           "[ atoms ]"; "1 C 1 R A 1 0.0"; "2 C 1 R B 1 0.0";
           "#ifdef FLEX";
           "[ bonds ]"; "1 2";
           "#endif";
           "[ molecules ]"; "M 1"].

(** [#define X], and an [#ifdef X] ... [#endif] pair around the
    [atoms] section that follows the molecule-type record. *)
Definition guarded_atoms : string :=
  file_of ["#define X";
           "[ moleculetype ]"; "M 1";
           "#ifdef X";
           "[ atoms ]"; "1 C 1 R A 1 0.0";
           "#endif";
           "[ molecules ]"; "M 1"].

(** The same file without the [#define] and without the pair. *)
Definition unguarded_atoms : string :=
  file_of ["[ moleculetype ]"; "M 1";
           "[ atoms ]"; "1 C 1 R A 1 0.0";
           "[ molecules ]"; "M 1"].

(** [n] molecule-type sections. *)
Definition many_moltypes (n : nat) : string :=
  file_of (List.concat (repeat ["[ moleculetype ]"; "M 1"] n)).

(** One [atomtypes] section with [n] records. *)
Definition many_atomtypes (n : nat) : string :=
  file_of ("[ atomtypes ]" :: repeat "C 12.0" n).

(** [n] different symbols, the [k]-th spelt with [k / 10] letters [x],
    an underscore and [k mod 10] letters [x]. *)
Fixpoint xs (k : nat) : string :=
  match k with O => EmptyString | S k' => String "x"%char (xs k') end.

Definition many_defines (n : nat) : string :=
  file_of (map (fun k => "#define D" ++ xs (k / 10) ++ "_" ++ xs (k mod 10))
               (seq 0 n)).

(** Scenario S5: dihedrals with [funct] 1, 2, 4, 9 and one without. *)
Definition dihedral_mix : string :=
  file_of ["[ moleculetype ]"; "M 1";
           "[ atoms ]";
           "1 C 1 R A 1 0.0"; "2 C 1 R B 1 0.0"; "3 C 1 R C 1 0.0";
           "4 C 1 R D 1 0.0"; "5 C 1 R E 1 0.0";
           "[ dihedrals ]";
           "1 2 3 4 1"; "2 3 4 5 2"; "1 3 4 5 4"; "1 2 4 5 9"; "1 2 3 5";
           "[ molecules ]"; "M 2"].

Definition dihedral_data : grotop_data :=
  Eval vm_compute in
    match parse_example dihedral_mix with Done d => d | _ => empty_data end.

Definition dihedral_handle : grotop_data :=
  Eval vm_compute in
    match open_finish dihedral_data with Some h => h | None => empty_data end.

(** Scenario S6: an atom without a mass field, its type in [atomtypes]. *)
Definition mass_backfill : string :=
  file_of ["[ atomtypes ]"; "CT 12.011";
           "[ moleculetype ]"; "M 1";
           "[ atoms ]"; "1 CT 1 R A 1 0.0";
           "[ molecules ]"; "M 1"].

(** The binary32 value nearest to 12.011. *)
Definition f12_011 : float := S754_finite false 12594446 (-20).

(** An atom-type line whose first token is one character too long for
    the name field. *)
Definition long_name_line : string := "ABCDEFGHIJKLMNO1 2.0".

(** An atom-type line that reads in both forms, with different masses. *)
Definition two_mass_line : string := "C 12.0 6 14.0".

(** ** Relations and invariants used for the rest of the reader *)

(** The records of a file written one after the other. *)
Definition flatten (records : list string) : string :=
  fold_right String.append EmptyString records.

(** A string made of blanks only. *)
Definition blank (s : string) : Prop := skip_ws s = EmptyString.

(** A string without blanks (and not empty unless [s] is). *)
Definition blank_free (s : string) : Prop := span_nonspace s = (s, EmptyString).

(** [l1] is the beginning of [l2]: the tables only grow at the end. *)
Definition is_prefix {A : Type} (l1 l2 : list A) : Prop :=
  exists tail, l2 = (l1 ++ tail)%list.

(** A molecule type after more records were read into it. *)
Definition mt_grows (m m' : moltype_t) : Prop :=
  name m' = name m /\ nrexcl m' = nrexcl m
  /\ is_prefix (atoms m) (atoms m') /\ is_prefix (bonds m) (bonds m')
  /\ is_prefix (angles m) (angles m') /\ is_prefix (dihedrals m) (dihedrals m').

(** The data after more of the topology was read: every table starts
    with what it held, and every molecule type that was there is still
    there, at the same index, with at least the records it had. *)
Definition grows (d d' : grotop_data) : Prop :=
  is_prefix (defines d) (defines d')
  /\ is_prefix (atomtypes d) (atomtypes d')
  /\ is_prefix (molecules d) (molecules d')
  /\ exists kept added,
      moltypes d' = (kept ++ added)%list /\ Forall2 mt_grows (moltypes d) kept.

(** The strings of an atom record fit the fields of [atom_data_t]. *)
Definition atom_fits (a : atom_data_t) : Prop :=
  (String.length (atom_type a) <= 15)%nat
  /\ (String.length (residue a) <= 7)%nat
  /\ (String.length (atom_name a) <= 15)%nat.

Definition moltype_fits (mt : moltype_t) : Prop :=
  (String.length (name mt) <= 31)%nat /\ Forall atom_fits (atoms mt).

(** The fixed-size tables are within their capacity, every stored
    string fits its buffer, and no symbol is defined twice. *)
Definition tables_fit (d : grotop_data) : Prop :=
  (List.length (moltypes d) <= MAX_MOLTYPES)%nat
  /\ (List.length (atomtypes d) <= MAX_ATOMTYPES)%nat
  /\ (List.length (molecules d) <= MAX_MOLECULES)%nat
  /\ (List.length (defines d) <= MAX_DEFINES)%nat
  /\ NoDup (defines d)
  /\ Forall (fun s => (String.length s <= 63)%nat) (defines d)
  /\ Forall (fun t => (String.length (at_name t) <= 15)%nat) (atomtypes d)
  /\ Forall (fun e => (String.length (fst e) <= 31)%nat) (molecules d)
  /\ Forall moltype_fits (moltypes d).

(** Every roster entry names a molecule type of the table. *)
Definition roster_resolves (d : grotop_data) : Prop :=
  Forall (fun e => find_moltype d (fst e) <> None) (molecules d).

(** Every bond of every molecule type joins two of its atoms. *)
Definition bonds_in_range (d : grotop_data) : Prop :=
  Forall (fun mt =>
            Forall (fun b => 1 <= bond_ai b <= natoms mt
                             /\ 1 <= bond_aj b <= natoms mt)
                   (bonds mt))
         (moltypes d).

(** Angle records as shifted triples, flat. *)
Definition spec_triples (data : grotop_data) : list Z :=
  spec_instances data
    (fun prev copy mt =>
       flat_map (fun a => map (fun i => i + spec_offset data prev copy mt)
                              (angle_indices a))
                (angles mt))
    [] (molecules data).

(** A file whose first record includes the file itself. *)
Definition self_include : string :=
  file_of ["#include " ++ String "034"%char ("topol.top" ++ String "034"%char EmptyString)].

(** Two waters with their angle. *)
Definition water_angles : string :=
  file_of ["[ moleculetype ]"; "SOL 2";
           "[ atoms ]";
           "1 OW 1 SOL OW  1 -0.834";
           "2 HW 1 SOL HW1 1 0.417";
           "3 HW 1 SOL HW2 1 0.417";
           "[ angles ]"; "2 1 3 1 104.52 628.02";
           "[ molecules ]"; "SOL 2"].

Definition water_angles_data : grotop_data :=
  Eval vm_compute in
    match parse_example water_angles with Done d => d | _ => empty_data end.

Definition water_angles_handle : grotop_data :=
  Eval vm_compute in
    match open_finish water_angles_data with Some h => h | None => empty_data end.

(** The records a section parser passes over before it stops: the
    lines that are neither directives nor section headers. *)
Definition record_line (raw : string) : Prop :=
  is_preprocessor_directive raw = false
  /\ is_section_header (strip_comments raw) = None.

(** The line at which a section parser stops. *)
Definition stop_line (raw : string) : Prop :=
  is_preprocessor_directive raw = true
  \/ is_section_header (strip_comments raw) <> None.

(** The records among the lines: comments stripped, empty ones dropped. *)
Definition stripped_records (lines : list string) : list string :=
  filter (fun l => negb (strempty l)) (map strip_comments lines).

(** The [nrexcl] a [moleculetype] line gives, from the tokens after the
    name: the integer at the front of the next token, 3 without one. *)
Definition header_nrexcl (ts : list string) : Z :=
  match ts with
  | t :: _ => match scan_d t with Some (v, _) => v | None => 3 end
  | [] => 3
  end.

(** A line that is none of the directives the file loop acts on before
    it looks at the conditional stack. *)
Definition block_line (l : string) : Prop :=
  let p := skip_ws l in
  starts_with "#define" p = false
  /\ starts_with "#ifdef" p = false
  /\ starts_with "#ifndef" p = false
  /\ starts_with "#else" p = false
  /\ starts_with "#endif" p = false.

(** The sections that store into the tables without a molecule type
    being current. *)
Definition table_section (section : string) : bool :=
  existsb (String.eqb section) ["atomtypes"; "moleculetype"; "molecules"].

(** A line that is no directive and opens none of those sections. *)
Definition inert_line (raw : string) : Prop :=
  is_preprocessor_directive raw = false
  /\ forall section,
      is_section_header (strip_comments raw) = Some section ->
      table_section section = false.

(** A [moleculetype] header with a comment where the name should be. *)
Definition nameless_moltype : string :=
  file_of ["[ moleculetype ]"; "; name to come"; "[ atoms ]"].

(** Records with no molecule type to go to. *)
Definition stray_records : string :=
  file_of ["[ defaults ]"; "1 1 no 1.0 1.0";
           "[ atoms ]"; "1 OW 1 SOL OW 1 -0.834";
           "[ bonds ]"; "1 2";
           "[ cmap ]"; "1 2 3 4 5"].

(** Two conditionals that are never closed. *)
Definition open_conditionals : string :=
  file_of ["#ifdef FLEXIBLE"; "#ifndef POSRES"].

(** ** The range of [int]

    Counters, offsets, totals and the numbers read by [%d] are [int]
    in the code and integers of [Z] here.  The two agree as long as
    no value leaves the range of the type (signed overflow is undefined
    in C).  The predicates below list, function by function, the [int]
    computations of the reader; the theorems whose statement depends on
    such a value assume them. *)

Definition INT_MIN : Z := -2147483648.
Definition INT_MAX : Z := 2147483647.

Definition in_int (z : Z) : bool := ((INT_MIN <=? z) && (z <=? INT_MAX))%bool.

(** [total += term] over the terms, from [acc]: every term and every
    running total is in range. *)
Fixpoint sums_fit (acc : Z) (terms : list Z) : bool :=
  match terms with
  | [] => true
  | x :: rest => (in_int x && in_int (acc + x) && sums_fit (acc + x) rest)%bool
  end.

(** The terms [calculate_total_impropers] adds: the count of the entry,
    once per improper dihedral of its molecule type. *)
Definition improper_terms (data : grotop_data) : list Z :=
  flat_map (fun e : entry =>
              match find_moltype data (fst e) with
              | Some mt => map (fun _ => snd e) (filter is_improper (dihedrals mt))
              | None => []
              end)
           (molecules data).

(** The record counts of a molecule type, which the code keeps in
    [natoms], [nbonds], [nangles] and [ndihedrals]. *)
Definition sizes_fit (mt : moltype_t) : bool :=
  (in_int (natoms mt) && in_int (nbonds mt) && in_int (nangles mt)
   && in_int (ndihedrals mt))%bool.

(** The five totals of [open_grotop_read]: the stored counts and
    record counts, the products [n * count] and the running totals. *)
Definition totals_fit (data : grotop_data) : bool :=
  (forallb (fun e : entry =>
              in_int (snd e)
              && match find_moltype data (fst e) with
                 | Some mt => sizes_fit mt
                 | None => true
                 end)
           (molecules data)
   && sums_fit 0 (map (entry_total natoms data) (molecules data))
   && sums_fit 0 (map (entry_total nbonds data) (molecules data))
   && sums_fit 0 (map (entry_total nangles data) (molecules data))
   && sums_fit 0 (map (entry_total ndihedrals data) (molecules data))
   && sums_fit 0 (improper_terms data))%bool.

(** One copy in [read_grotop_structure]:
    [residue_offset - min_resid], [... + 1], [resnr + resid_offset] for
    every atom, [global_atom_idx] after the copy, and
    [residue_offset + num_residues]. *)
Definition copy_fits (data : grotop_data) (prev : list entry) (copy : nat)
           (mt : moltype_t) : bool :=
  let residue_offset := spec_resid_base data prev copy mt in
  let resid_offset := residue_offset - spec_min_r mt + 1 in
  (in_int (residue_offset - spec_min_r mt)
   && in_int resid_offset
   && forallb (fun a => in_int (resnr a + resid_offset)) (atoms mt)
   && in_int (spec_offset data prev copy mt + natoms mt)
   && in_int (residue_offset + spec_nres mt))%bool.

(** [read_grotop_structure]: for every roster entry the stored count
    and, when its molecule type is found, [natoms], the stored [resnr]
    values, [max_resid - min_resid] and [num_residues]; then every copy. *)
Definition structure_fits (data : grotop_data) : bool :=
  (forallb (fun e : entry =>
              in_int (snd e)
              && match find_moltype data (fst e) with
                 | Some mt =>
                     in_int (natoms mt)
                     && forallb (fun a => in_int (resnr a)) (atoms mt)
                     && in_int (spec_max_r mt - spec_min_r mt)
                     && in_int (spec_nres mt)
                 | None => true
                 end)
           (molecules data)
   && forallb (fun ok : bool => ok)
              (spec_instances data
                              (fun prev copy mt => [copy_fits data prev copy mt])
                              [] (molecules data)))%bool.

(** One pass of [read_grotop_bonds] or [read_grotop_angles]: for every
    copy, the stored index and [global_atom_offset + index] for every
    index the pass may write, and [global_atom_offset + natoms]. *)
Definition offsets_fit (data : grotop_data) (indices : moltype_t -> list Z) : bool :=
  forallb (fun ok : bool => ok)
          (spec_instances data
             (fun prev copy mt =>
                [(forallb (fun i =>
                             in_int i && in_int (spec_offset data prev copy mt + i))
                          (indices mt)
                  && in_int (spec_offset data prev copy mt + natoms mt))%bool])
             [] (molecules data)).

Definition bond_ends (mt : moltype_t) : list Z :=
  flat_map (fun b => [bond_ai b; bond_aj b]) (bonds mt).

(** [read_grotop_bonds] on a handle: the indices written and the
    counter [bond_idx], which ends at [total_bonds]. *)
Definition bonds_fit (h : grotop_data) : bool :=
  (offsets_fit h bond_ends && in_int (total_bonds h))%bool.

(** [read_grotop_angles] on a handle: the indices written by the three
    passes and the array positions [idx * 3 + 2] and [idx * 4 + 3],
    bounded by the sizes [total * 3] and [total * 4] that are allocated. *)
Definition angles_fit (h : grotop_data) : bool :=
  (offsets_fit h (fun mt => flat_map angle_indices (angles mt))
   && offsets_fit h (fun mt => flat_map dihedral_indices (dihedrals mt))
   && in_int (total_angles h * 3)
   && in_int (total_dihedrals h * 4)
   && in_int (total_impropers h * 4))%bool.


(** The binary32 values 1.0 and 2.0. *)
Definition f1_0 : float := S754_finite false 8388608 (-23).
Definition f2_0 : float := S754_finite false 8388608 (-22).

(** The same line in an [atomtypes] section, and the line with the
    name one character shorter. *)
Definition long_name_file : string := file_of ["[ atomtypes ]"; long_name_line].
Definition fitting_name_file : string :=
  file_of ["[ atomtypes ]"; "ABCDEFGHIJKLMNO 2.0"].

(** A line in the full GROMACS form whose bond type starts with a digit. *)
Definition bond_type_line : string := "X 2C 6 12.01".
Definition bond_type_file : string := file_of ["[ atomtypes ]"; bond_type_line].

(** The directory [parse_include] puts in front of the name: the
    including path up to its last slash, nothing when it has none. *)
Definition include_dir (base_path : string) : string :=
  match dir_part base_path with Some d => d | None => EmptyString end.

Definition no_slash (s : string) : Prop := cut_at "/"%char s = s.

(** * Properties *)

(** ** Sums and instances *)

Lemma zsum_app (l1 l2 : list Z) : zsum (l1 ++ l2) = zsum l1 + zsum l2.
Proof.
  induction l1 as [|x l1 IH]; simpl; [reflexivity|]. rewrite IH. lia.
Qed.

Lemma zsum_map_snoc {A : Type} (f : A -> Z) (l : list A) (x : A) :
  zsum (map f (l ++ [x])) = zsum (map f l) + f x.
Proof.
  rewrite map_app, zsum_app. simpl. lia.
Qed.

Lemma flat_map_seq_shift {X : Type} (f : nat -> list X) (n : nat) :
  flat_map f (seq 1 n) = flat_map (fun c => f (S c)) (seq 0 n).
Proof.
  rewrite <- seq_shift. rewrite flat_map_concat_map, map_map.
  now rewrite <- flat_map_concat_map.
Qed.

Lemma flat_map_pointwise {X Y : Type} (f g : X -> list Y) (l : list X) :
  (forall x, f x = g x) -> flat_map f l = flat_map g l.
Proof.
  intros E. induction l as [|x l IH]; simpl; [reflexivity|]. now rewrite E, IH.
Qed.

Lemma spec_instances_ext {X : Type} (data : grotop_data)
      (emit1 emit2 : list entry -> nat -> moltype_t -> list X) :
  (forall prev copy mt, emit1 prev copy mt = emit2 prev copy mt) ->
  forall roster prev,
    spec_instances data emit1 prev roster = spec_instances data emit2 prev roster.
Proof.
  intros E roster. induction roster as [|e rest IH]; intros prev; simpl.
  - reflexivity.
  - rewrite IH. destruct (find_moltype data (fst e)); [|reflexivity].
    f_equal. apply flat_map_pointwise. intros; apply E.
Qed.

Lemma map_flat_map {X Y Z' : Type} (g : Y -> Z') (f : X -> list Y) (l : list X) :
  map g (flat_map f l) = flat_map (fun x => map g (f x)) l.
Proof.
  induction l as [|x l IH]; simpl; [reflexivity|]. now rewrite map_app, IH.
Qed.

Lemma map_spec_instances {X Y : Type} (g : X -> Y) (data : grotop_data)
      (emit : list entry -> nat -> moltype_t -> list X) :
  forall roster prev,
    map g (spec_instances data emit prev roster)
    = spec_instances data (fun p c m => map g (emit p c m)) prev roster.
Proof.
  induction roster as [|e rest IH]; intros prev; simpl.
  - reflexivity.
  - rewrite map_app, IH. f_equal.
    destruct (find_moltype data (fst e)); [|reflexivity].
    apply map_flat_map.
Qed.

Lemma spec_instances_app {X : Type} (data : grotop_data)
      (emit : list entry -> nat -> moltype_t -> list X) :
  forall l1 l2 prev,
    spec_instances data emit prev (l1 ++ l2)
    = (spec_instances data emit prev l1
       ++ spec_instances data emit (prev ++ l1) l2)%list.
Proof.
  induction l1 as [|e l1 IH]; intros l2 prev; simpl.
  - now rewrite app_nil_r.
  - rewrite IH, <- !app_assoc. reflexivity.
Qed.

(** ** The residue span the loop computes *)

Lemma min_max_fold (l : list atom_data_t) :
  forall mn mx,
    fold_left (fun '(min_resid, max_resid) a =>
                 (if resnr a <? min_resid then resnr a else min_resid,
                  if resnr a >? max_resid then resnr a else max_resid))
              l (mn, mx)
    = (fold_left Z.min (map resnr l) mn, fold_left Z.max (map resnr l) mx).
Proof.
  induction l as [|a l IH]; intros mn mx; simpl; [reflexivity|].
  rewrite IH. f_equal; f_equal.
  - destruct (Z.ltb_spec (resnr a) mn); lia.
  - rewrite Z.gtb_ltb. destruct (Z.ltb_spec mx (resnr a)); lia.
Qed.

Lemma min_max_resid_spec (mt : moltype_t) :
  min_max_resid mt = (spec_min_r mt, spec_max_r mt).
Proof.
  unfold min_max_resid, spec_min_r, spec_max_r.
  rewrite min_max_fold.
  destruct (atoms mt) as [|a l]; simpl; [reflexivity|].
  now rewrite Z.min_id, Z.max_id.
Qed.

Lemma fold_min_le (l : list Z) :
  forall m, fold_left Z.min l m <= m /\ forall x, In x l -> fold_left Z.min l m <= x.
Proof.
  induction l as [|y l IH]; intros m; simpl.
  - split; [lia | intros x []].
  - destruct (IH (Z.min m y)) as [H1 H2]. split; [lia|].
    intros x [<-|Hx]; [lia | now apply H2].
Qed.

Lemma fold_min_in (l : list Z) :
  forall m, fold_left Z.min l m = m \/ In (fold_left Z.min l m) l.
Proof.
  induction l as [|y l IH]; intros m; simpl; [now left|].
  destruct (IH (Z.min m y)) as [E|Hin]; [|now right; right].
  rewrite E. destruct (Z.min_spec m y) as [[_ ->]|[_ ->]]; [now left | now right; left].
Qed.

(** [spec_min_r] is the least [resnr] of the molecule type: a lower
    bound that one of the atoms attains. *)
Lemma spec_min_r_least (mt : moltype_t) (a : atom_data_t) :
  In a (atoms mt) ->
  spec_min_r mt <= resnr a
  /\ exists b, In b (atoms mt) /\ resnr b = spec_min_r mt.
Proof.
  unfold spec_min_r. intros Ha.
  destruct (atoms mt) as [|a0 l] eqn:E; [destruct Ha|]. simpl.
  destruct (fold_min_le (map resnr l) (resnr a0)) as [H1 H2]. split.
  - destruct Ha as [<-|Ha]; [exact H1|]. apply H2. now apply in_map.
  - destruct (fold_min_in (map resnr l) (resnr a0)) as [E'|Hin].
    + exists a0. split; [now left | now rewrite E'].
    + apply in_map_iff in Hin. destruct Hin as [b [Eb Hb]].
      exists b. split; [now right | exact Eb].
Qed.

Lemma fold_max_ge (l : list Z) :
  forall m, m <= fold_left Z.max l m /\ forall x, In x l -> x <= fold_left Z.max l m.
Proof.
  induction l as [|y l IH]; intros m; simpl.
  - split; [lia | intros x []].
  - destruct (IH (Z.max m y)) as [H1 H2]. split; [lia|].
    intros x [<-|Hx]; [lia | now apply H2].
Qed.

(** [spec_max_r] bounds every [resnr] of the molecule type from above. *)
Lemma spec_max_r_greatest (mt : moltype_t) (a : atom_data_t) :
  In a (atoms mt) -> resnr a <= spec_max_r mt.
Proof.
  unfold spec_max_r. intros Ha.
  destruct (atoms mt) as [|a0 l] eqn:E; [destruct Ha|]. simpl.
  destruct (fold_max_ge (map resnr l) (resnr a0)) as [H1 H2].
  destruct Ha as [<-|Ha]; [exact H1|]. apply H2. now apply in_map.
Qed.

(** ** [read_grotop_structure] in closed form *)

Lemma copy_atoms_eq (data : grotop_data) (segid : string) (resid_offset : Z)
      (mt : moltype_t) (idx : Z) (out : list molfile_atom_t) :
  copy_atoms data segid resid_offset mt idx out
  = (idx + natoms mt,
     (out ++ map (emit_atom data segid resid_offset) (atoms mt))%list).
Proof.
  unfold copy_atoms, natoms. revert idx out.
  induction (atoms mt) as [|a l IH]; intros idx out; simpl.
  - now rewrite Z.add_0_r, app_nil_r.
  - rewrite IH, <- app_assoc. simpl. f_equal. lia.
Qed.

Lemma structure_copies_eq (data : grotop_data) (mt : moltype_t) (segid : string)
      (min_resid num_residues : Z) (n : nat) :
  forall idx residue_offset out,
    structure_copies data mt segid min_resid num_residues n
                     (idx, residue_offset, out)
    = (idx + Z.of_nat n * natoms mt,
       residue_offset + Z.of_nat n * num_residues,
       (out ++ flat_map
          (fun copy =>
             map (emit_atom data segid
                            (residue_offset + Z.of_nat copy * num_residues
                             - min_resid + 1))
                 (atoms mt))
          (seq 0 n))%list).
Proof.
  induction n as [|n IH]; intros idx ro out.
  - simpl. now rewrite !Z.add_0_r, app_nil_r.
  - cbn [structure_copies]. rewrite copy_atoms_eq, IH.
    cbn [seq flat_map]. rewrite flat_map_seq_shift, <- app_assoc.
    replace (idx + natoms mt + Z.of_nat n * natoms mt)
      with (idx + Z.of_nat (S n) * natoms mt) by lia.
    replace (ro + num_residues + Z.of_nat n * num_residues)
      with (ro + Z.of_nat (S n) * num_residues) by lia.
    replace (ro + Z.of_nat 0 * num_residues - min_resid + 1)
      with (ro - min_resid + 1) by lia.
    do 3 f_equal. apply flat_map_pointwise. intros c.
    replace (ro + num_residues + Z.of_nat c * num_residues - min_resid + 1)
      with (ro + Z.of_nat (S c) * num_residues - min_resid + 1) by lia.
    reflexivity.
Qed.

Lemma structure_fold (data : grotop_data) :
  forall roster prev idx residue_offset out,
    residue_offset = zsum (map (entry_residues data) prev) ->
    snd (fold_left (structure_entry data) roster (idx, residue_offset, out))
    = (out ++ spec_instances data (emit_copy data) prev roster)%list.
Proof.
  induction roster as [|[nm count] rest IH]; intros prev idx ro out Hro.
  - simpl. now rewrite app_nil_r.
  - cbn [fold_left spec_instances]. unfold structure_entry at 2. cbn [fst].
    destruct (find_moltype data nm) as [mt|] eqn:Hf.
    + rewrite min_max_resid_spec, structure_copies_eq.
      rewrite (IH (prev ++ [(nm, count)])%list).
      * rewrite <- app_assoc. f_equal. f_equal.
        apply flat_map_pointwise. intros c. unfold emit_copy, spec_resid_base.
        rewrite Hro. reflexivity.
      * rewrite zsum_map_snoc, <- Hro. unfold entry_residues. cbn [fst].
        rewrite Hf. reflexivity.
    + rewrite (IH (prev ++ [(nm, count)])%list); [reflexivity|].
      rewrite zsum_map_snoc, <- Hro. unfold entry_residues. cbn [fst].
      rewrite Hf. lia.
Qed.

Lemma read_grotop_structure_eq (data : grotop_data) :
  read_grotop_structure data
  = spec_instances data (emit_copy data) [] (molecules data).
Proof.
  unfold read_grotop_structure. now rewrite (structure_fold data _ []).
Qed.

(** ** [read_grotop_bonds] in closed form *)

Lemma copy_bonds_eq (mt : moltype_t) (off : Z) (from to : list Z) :
  copy_bonds mt off from to
  = ((from ++ map (fun b => off + bond_ai b) (bonds mt))%list,
     (to ++ map (fun b => off + bond_aj b) (bonds mt))%list).
Proof.
  unfold copy_bonds. revert from to.
  induction (bonds mt) as [|b l IH]; intros from to; simpl.
  - now rewrite !app_nil_r.
  - rewrite IH, <- !app_assoc. reflexivity.
Qed.

Lemma bonds_copies_eq (mt : moltype_t) (n : nat) :
  forall off from to,
    bonds_copies mt n (off, from, to)
    = (off + Z.of_nat n * natoms mt,
       (from ++ flat_map (fun copy =>
                            map (fun b => off + Z.of_nat copy * natoms mt + bond_ai b)
                                (bonds mt))
                         (seq 0 n))%list,
       (to ++ flat_map (fun copy =>
                          map (fun b => off + Z.of_nat copy * natoms mt + bond_aj b)
                              (bonds mt))
                       (seq 0 n))%list).
Proof.
  induction n as [|n IH]; intros off from to.
  - simpl. now rewrite Z.add_0_r, !app_nil_r.
  - cbn [bonds_copies]. rewrite copy_bonds_eq, IH.
    cbn [seq flat_map]. rewrite !flat_map_seq_shift, <- !app_assoc.
    replace (off + natoms mt + Z.of_nat n * natoms mt)
      with (off + Z.of_nat (S n) * natoms mt) by lia.
    replace (off + Z.of_nat 0 * natoms mt) with off by lia.
    f_equal; [f_equal|]; do 2 f_equal; apply flat_map_pointwise; intros c;
      apply map_ext; intros b; lia.
Qed.

Lemma bonds_fold (data : grotop_data) :
  forall roster prev off from to,
    off = zsum (map (entry_atoms data) prev) ->
    fold_left (bonds_entry data) roster (off, from, to)
    = (zsum (map (entry_atoms data) (prev ++ roster)),
       (from ++ spec_instances data
                  (fun p c m => map (fun b => bond_ai b + spec_offset data p c m)
                                    (bonds m))
                  prev roster)%list,
       (to ++ spec_instances data
                (fun p c m => map (fun b => bond_aj b + spec_offset data p c m)
                                  (bonds m))
                prev roster)%list).
Proof.
  induction roster as [|[nm count] rest IH]; intros prev off from to Hoff.
  - simpl. now rewrite !app_nil_r, Hoff.
  - cbn [fold_left spec_instances]. unfold bonds_entry at 2. cbn [fst].
    replace (prev ++ (nm, count) :: rest)%list
      with ((prev ++ [(nm, count)]) ++ rest)%list by now rewrite <- app_assoc.
    destruct (find_moltype data nm) as [mt|] eqn:Hf.
    + rewrite bonds_copies_eq.
      rewrite (IH (prev ++ [(nm, count)])%list).
      * rewrite <- !app_assoc. f_equal; [f_equal|]; do 2 f_equal;
          apply flat_map_pointwise; intros c; apply map_ext; intros b;
          unfold spec_offset; rewrite <- Hoff; lia.
      * rewrite zsum_map_snoc, <- Hoff. unfold entry_atoms. cbn [fst].
        rewrite Hf. reflexivity.
    + rewrite (IH (prev ++ [(nm, count)])%list); [reflexivity|].
      rewrite zsum_map_snoc, <- Hoff. unfold entry_atoms. cbn [fst].
      rewrite Hf. lia.
Qed.

(** ** The angle, dihedral and improper passes in closed form *)

Lemma copy_tuples_eq {R : Type} (skip : R -> bool) (indices : R -> list Z)
      (records : list R) (off : Z) :
  forall idx out,
    copy_tuples skip indices records off idx out
    = (idx + Z.of_nat (List.length (filter (fun r => negb (skip r)) records)),
       (out ++ flat_map (fun r => map (fun i => off + i) (indices r))
                        (filter (fun r => negb (skip r)) records))%list).
Proof.
  unfold copy_tuples.
  induction records as [|r l IH]; intros idx out; simpl.
  - now rewrite Z.add_0_r, app_nil_r.
  - destruct (skip r); simpl; rewrite IH; [reflexivity|].
    rewrite <- app_assoc. f_equal. lia.
Qed.

Lemma tuples_copies_eq {R : Type} (skip : R -> bool) (indices : R -> list Z)
      (records : list R) (natoms_mt : Z) (n : nat) :
  forall idx off out,
    tuples_copies skip indices records natoms_mt n (idx, off, out)
    = (idx + Z.of_nat n
             * Z.of_nat (List.length (filter (fun r => negb (skip r)) records)),
       off + Z.of_nat n * natoms_mt,
       (out ++ flat_map
          (fun copy =>
             flat_map (fun r => map (fun i => i + (off + Z.of_nat copy * natoms_mt))
                                    (indices r))
                      (filter (fun r => negb (skip r)) records))
          (seq 0 n))%list).
Proof.
  induction n as [|n IH]; intros idx off out.
  - simpl. now rewrite !Z.add_0_r, app_nil_r.
  - cbn [tuples_copies]. rewrite copy_tuples_eq, IH.
    cbn [seq flat_map]. rewrite flat_map_seq_shift, <- app_assoc.
    set (k := Z.of_nat (List.length (filter (fun r => negb (skip r)) records))).
    replace (idx + k + Z.of_nat n * k) with (idx + Z.of_nat (S n) * k) by lia.
    replace (off + natoms_mt + Z.of_nat n * natoms_mt)
      with (off + Z.of_nat (S n) * natoms_mt) by lia.
    do 3 f_equal.
    + apply flat_map_pointwise. intros r. apply map_ext. intros i. lia.
    + apply flat_map_pointwise. intros c. apply flat_map_pointwise. intros r.
      apply map_ext. intros i. lia.
Qed.

Lemma tuples_fold {R : Type} (skip : R -> bool) (indices : R -> list Z)
      (records : moltype_t -> list R) (data : grotop_data) :
  forall roster prev idx off out,
    off = zsum (map (entry_atoms data) prev) ->
    fold_left (tuples_entry skip indices records data) roster (idx, off, out)
    = (idx + zsum (map (entry_tuples skip records data) roster),
       zsum (map (entry_atoms data) (prev ++ roster)),
       (out ++ spec_instances data
                 (fun p c m =>
                    flat_map (fun r => map (fun i => i + spec_offset data p c m)
                                           (indices r))
                             (filter (fun r => negb (skip r)) (records m)))
                 prev roster)%list).
Proof.
  induction roster as [|[nm count] rest IH]; intros prev idx off out Hoff.
  - simpl. now rewrite Z.add_0_r, !app_nil_r, Hoff.
  - cbn [fold_left spec_instances map zsum fold_right].
    unfold tuples_entry at 2. unfold entry_tuples at 1. cbn [fst].
    replace (prev ++ (nm, count) :: rest)%list
      with ((prev ++ [(nm, count)]) ++ rest)%list by now rewrite <- app_assoc.
    destruct (find_moltype data nm) as [mt|] eqn:Hf.
    + rewrite tuples_copies_eq.
      rewrite (IH (prev ++ [(nm, count)])%list).
      * rewrite <- !app_assoc. unfold copies at 1. cbn [snd].
        f_equal; [f_equal; unfold zsum; lia|]. do 2 f_equal.
        apply flat_map_pointwise. intros c. apply flat_map_pointwise. intros r.
        apply map_ext. intros i. unfold spec_offset. rewrite <- Hoff. reflexivity.
      * rewrite zsum_map_snoc, <- Hoff. unfold entry_atoms. cbn [fst].
        rewrite Hf. reflexivity.
    + rewrite (IH (prev ++ [(nm, count)])%list).
      * reflexivity.
      * rewrite zsum_map_snoc, <- Hoff. unfold entry_atoms. cbn [fst].
        rewrite Hf. lia.
Qed.

(** ** The totals [open_grotop_read] stores *)

Lemma total_loop_eq (w : moltype_t -> Z) (data : grotop_data) :
  total_loop w data = zsum (map (entry_total w data) (molecules data)).
Proof.
  unfold total_loop.
  assert (G : forall l acc,
             fold_left (fun total '(nm, cnt) =>
                          match find_moltype data nm with
                          | Some mt => total + w mt * cnt
                          | None => total
                          end) l acc
             = acc + zsum (map (entry_total w data) l)).
  { induction l as [|[nm cnt] l IH]; intros acc; simpl; [lia|].
    rewrite IH. unfold entry_total at 2. cbn [fst snd].
    destruct (find_moltype data nm); lia. }
  rewrite G. lia.
Qed.

Lemma improper_count_fold (cnt : Z) (ds : list dihedral_data_t) :
  forall total,
    fold_left (fun t d => if is_improper d then t + cnt else t) ds total
    = total + Z.of_nat (List.length (filter is_improper ds)) * cnt.
Proof.
  induction ds as [|d ds IH]; intros total; cbn [fold_left filter]; [simpl; lia|].
  rewrite IH. destruct (is_improper d); cbn [List.length]; lia.
Qed.

Lemma calculate_total_impropers_eq (data : grotop_data) :
  calculate_total_impropers data
  = zsum (map (entry_total nimpropers data) (molecules data)).
Proof.
  unfold calculate_total_impropers.
  assert (G : forall l acc,
             fold_left (fun total '(nm, cnt) =>
                          match find_moltype data nm with
                          | Some mt =>
                              fold_left (fun t d => if is_improper d then t + cnt else t)
                                        (dihedrals mt) total
                          | None => total
                          end) l acc
             = acc + zsum (map (entry_total nimpropers data) l)).
  { induction l as [|[nm cnt] l IH]; intros acc; simpl; [lia|].
    rewrite IH. unfold entry_total at 2. cbn [fst snd].
    destruct (find_moltype data nm); [|lia].
    rewrite improper_count_fold. unfold nimpropers. lia. }
  rewrite G. lia.
Qed.

(** When the counts are non-negative and a total is not positive, every
    entry has no copy or a molecule type of weight 0. *)
Lemma total_nonpositive (w : moltype_t -> Z) (data : grotop_data) :
  (forall mt, 0 <= w mt) ->
  forall roster,
    counts_nonneg roster ->
    zsum (map (entry_total w data) roster) <= 0 ->
    Forall (fun e => forall mt, find_moltype data (fst e) = Some mt ->
                                w mt = 0 \/ copies e = O) roster.
Proof.
  intros Hw. induction roster as [|e rest IH]; intros Hn Hz; [constructor|].
  inversion Hn as [|? ? He Hrest]; subst.
  assert (Hge : forall l, counts_nonneg l -> 0 <= zsum (map (entry_total w data) l)).
  { induction l as [|x l IHl]; intros Hl; simpl; [lia|].
    inversion Hl; subst. specialize (IHl H2). unfold entry_total at 1.
    destruct (find_moltype data (fst x)) as [m|]; [specialize (Hw m); nia | lia]. }
  specialize (Hge rest Hrest). simpl in Hz.
  set (r := zsum (map (entry_total w data) rest)) in *.
  assert (H0 : 0 <= entry_total w data e).
  { unfold entry_total. destruct (find_moltype data (fst e)) as [m|];
      [specialize (Hw m); nia | lia]. }
  constructor.
  - intros mt Hf. unfold entry_total in Hz, H0. rewrite Hf in Hz, H0.
    assert (Hp : w mt * snd e = 0) by lia.
    apply Z.mul_eq_0 in Hp. destruct Hp as [Hp|Hp]; [now left | right].
    unfold copies. rewrite Hp. reflexivity.
  - apply IH; [exact Hrest | subst r; lia].
Qed.

Lemma flat_map_nil {X Y : Type} (f : X -> list Y) (l : list X) :
  (forall x, f x = []) -> flat_map f l = [].
Proof.
  intros E. induction l as [|x l IH]; simpl; [reflexivity|]. now rewrite E, IH.
Qed.

Lemma spec_instances_nil {X : Type} (w : moltype_t -> Z) (data : grotop_data)
      (emit : list entry -> nat -> moltype_t -> list X) :
  (forall p c mt, w mt = 0 -> emit p c mt = []) ->
  forall roster prev,
    Forall (fun e => forall mt, find_moltype data (fst e) = Some mt ->
                                w mt = 0 \/ copies e = O) roster ->
    spec_instances data emit prev roster = [].
Proof.
  intros Hemit. induction roster as [|e rest IH]; intros prev HF; simpl; [reflexivity|].
  inversion HF as [|? ? He Hrest]; subst. rewrite (IH _ Hrest), app_nil_r.
  destruct (find_moltype data (fst e)) as [mt|]; [|reflexivity].
  destruct (He mt eq_refl) as [Hw|Hc].
  - apply flat_map_nil. intros c. now apply Hemit.
  - now rewrite Hc.
Qed.

Lemma entry_tuples_zero {R : Type} (skip : R -> bool)
      (records : moltype_t -> list R) (w : moltype_t -> Z) (data : grotop_data) :
  (forall mt, w mt = 0 -> filter (fun r => negb (skip r)) (records mt) = []) ->
  forall roster,
    Forall (fun e => forall mt, find_moltype data (fst e) = Some mt ->
                                w mt = 0 \/ copies e = O) roster ->
    zsum (map (entry_tuples skip records data) roster) = 0.
Proof.
  intros Hw. induction roster as [|e rest IH]; intros HF; simpl; [reflexivity|].
  inversion HF as [|? ? He Hrest]; subst. rewrite (IH Hrest).
  unfold entry_tuples. destruct (find_moltype data (fst e)) as [mt|]; [|reflexivity].
  destruct (He mt eq_refl) as [H0|Hc].
  - rewrite (Hw mt H0). simpl. lia.
  - rewrite Hc. simpl. lia.
Qed.

Lemma copies_nonneg (e : entry) : 0 <= snd e -> Z.of_nat (copies e) = snd e.
Proof. unfold copies. intros H. now rewrite Z2Nat.id. Qed.

Lemma length_flat_map_const {X Y : Type} (f : X -> list Y) (k : nat) (l : list X) :
  (forall x, List.length (f x) = k) ->
  List.length (flat_map f l) = (List.length l * k)%nat.
Proof.
  intros E. induction l as [|x l IH]; simpl; [reflexivity|].
  now rewrite length_app, E, IH.
Qed.

Lemma spec_instances_length {X : Type} (data : grotop_data)
      (emit : list entry -> nat -> moltype_t -> list X) (len : moltype_t -> nat) :
  (forall p c mt, List.length (emit p c mt) = len mt) ->
  forall roster prev,
    counts_nonneg roster ->
    Z.of_nat (List.length (spec_instances data emit prev roster))
    = zsum (map (entry_total (fun mt => Z.of_nat (len mt)) data) roster).
Proof.
  intros Hlen. induction roster as [|e rest IH]; intros prev Hn; simpl; [reflexivity|].
  inversion Hn as [|? ? He Hrest]; subst.
  rewrite length_app, Nat2Z.inj_add, (IH _ Hrest). f_equal.
  unfold entry_total. destruct (find_moltype data (fst e)) as [mt|]; [|reflexivity].
  rewrite (length_flat_map_const _ (len mt)) by (intros; apply Hlen).
  rewrite length_seq, Nat2Z.inj_mul, (copies_nonneg e He). lia.
Qed.

(** ** The guarded passes of [read_grotop_bonds] and [read_grotop_angles] *)

Lemma guarded_pass {R : Type} (skip : R -> bool) (indices : R -> list Z)
      (records : moltype_t -> list R) (w : moltype_t -> Z) (d : grotop_data)
      (total : Z) :
  counts_nonneg (molecules d) ->
  total = zsum (map (entry_total w d) (molecules d)) ->
  (forall mt, 0 <= w mt) ->
  (forall mt, w mt = 0 -> filter (fun r => negb (skip r)) (records mt) = []) ->
  (if total >? 0
   then let '(idx, _, out) := instantiate_tuples skip indices records d in (idx, out)
   else (0, []))
  = (zsum (map (entry_tuples skip records d) (molecules d)),
     spec_instances d
       (fun p c m =>
          flat_map (fun r => map (fun i => i + spec_offset d p c m) (indices r))
                   (filter (fun r => negb (skip r)) (records m)))
       [] (molecules d)).
Proof.
  intros Hn Ht Hw Hz. unfold instantiate_tuples.
  rewrite (tuples_fold skip indices records d (molecules d) []) by reflexivity.
  rewrite Z.gtb_ltb. destruct (Z.ltb_spec 0 total) as [Hpos|Hle].
  - reflexivity.
  - rewrite Ht in Hle.
    pose proof (total_nonpositive w d Hw (molecules d) Hn Hle) as HF.
    rewrite (entry_tuples_zero skip records w d Hz _ HF).
    rewrite (spec_instances_nil w d _) with (roster := molecules d); auto.
    intros p c mt H0. now rewrite (Hz mt H0).
Qed.

Lemma is_improper_spec (d : dihedral_data_t) : is_improper d = spec_is_improper d.
Proof. unfold is_improper, spec_is_improper. simpl. now rewrite orb_false_r. Qed.

Lemma length_zero_nil {X : Type} (l : list X) : Z.of_nat (List.length l) = 0 -> l = [].
Proof. destruct l; simpl; [reflexivity | lia]. Qed.

Lemma entry_tuples_count (d : grotop_data) (skip keep : dihedral_data_t -> bool) :
  (forall r, negb (skip r) = keep r) ->
  zsum (map (entry_tuples skip dihedrals d) (molecules d)) = spec_quad_count d keep.
Proof.
  intros E. unfold spec_quad_count. f_equal. apply map_ext. intros e.
  unfold entry_tuples. destruct (find_moltype d (fst e)); [|reflexivity].
  now rewrite (filter_ext _ _ E).
Qed.

Lemma tuples_quads (d : grotop_data) (skip keep : dihedral_data_t -> bool) :
  (forall r, negb (skip r) = keep r) ->
  spec_instances d
    (fun p c m =>
       flat_map (fun r => map (fun i => i + spec_offset d p c m) (dihedral_indices r))
                (filter (fun r => negb (skip r)) (dihedrals m)))
    [] (molecules d)
  = spec_quads d keep.
Proof.
  intros E. unfold spec_quads. apply spec_instances_ext. intros p c m.
  now rewrite (filter_ext _ _ E).
Qed.

Lemma read_angles_closed (d : grotop_data) :
  counts_nonneg (molecules d) ->
  total_dihedrals d = calculate_total_dihedrals d ->
  total_impropers d = calculate_total_impropers d ->
  let r := read_grotop_angles d in
  numdihedrals r = spec_quad_count d spec_is_proper
  /\ out_dihedrals r = spec_quads d spec_is_proper
  /\ numimpropers r = spec_quad_count d spec_is_improper
  /\ out_impropers r = spec_quads d spec_is_improper.
Proof.
  intros Hn Hd Hi.
  assert (P : (if total_dihedrals d >? 0
               then let '(idx, _, out) :=
                      instantiate_tuples is_improper dihedral_indices dihedrals d in
                    (idx, out)
               else (0, []))
              = (spec_quad_count d spec_is_proper, spec_quads d spec_is_proper)).
  { rewrite (guarded_pass is_improper dihedral_indices dihedrals ndihedrals d).
    - f_equal; [apply entry_tuples_count | apply tuples_quads];
        intros r; unfold spec_is_proper; now rewrite is_improper_spec.
    - exact Hn.
    - rewrite Hd. apply total_loop_eq.
    - intros mt. unfold ndihedrals. lia.
    - intros mt H0. unfold ndihedrals in H0.
      now rewrite (length_zero_nil _ H0). }
  assert (Q : (if total_impropers d >? 0
               then let '(idx, _, out) :=
                      instantiate_tuples (fun x => negb (is_improper x))
                                         dihedral_indices dihedrals d in
                    (idx, out)
               else (0, []))
              = (spec_quad_count d spec_is_improper, spec_quads d spec_is_improper)).
  { rewrite (guarded_pass (fun x => negb (is_improper x))
                          dihedral_indices dihedrals nimpropers d).
    - f_equal; [apply entry_tuples_count | apply tuples_quads];
        intros r; now rewrite negb_involutive, is_improper_spec.
    - exact Hn.
    - rewrite Hi. apply calculate_total_impropers_eq.
    - intros mt. unfold nimpropers. lia.
    - intros mt H0. unfold nimpropers in H0.
      rewrite (filter_ext _ is_improper) by (intros; apply negb_involutive).
      now apply length_zero_nil. }
  unfold read_grotop_angles. rewrite P, Q.
  destruct (total_angles d >? 0);
    [destruct (instantiate_tuples (fun _ => false) angle_indices angles d)
      as [[? ?] ?]|];
    cbn; auto.
Qed.

Lemma read_bonds_closed (d : grotop_data) :
  counts_nonneg (molecules d) ->
  total_bonds d = calculate_total_bonds d ->
  read_grotop_bonds d
  = mk_bonds_out (Z.of_nat (List.length (spec_bonds d)))
                 (map fst (spec_bonds d)) (map snd (spec_bonds d)).
Proof.
  intros Hn Ht.
  assert (L : Z.of_nat (List.length (spec_bonds d)) = total_bonds d).
  { unfold spec_bonds.
    rewrite (spec_instances_length d _ (fun mt => List.length (bonds mt)));
      [| intros; apply length_map | exact Hn].
    rewrite Ht. unfold calculate_total_bonds. now rewrite total_loop_eq. }
  unfold read_grotop_bonds.
  destruct (Z.eqb_spec (total_bonds d) 0) as [E0|Hne].
  - rewrite E0 in L. apply length_zero_nil in L. rewrite L. reflexivity.
  - rewrite (bonds_fold d (molecules d) []) by reflexivity.
    rewrite L. unfold spec_bonds. rewrite !map_spec_instances. simpl.
    f_equal; apply spec_instances_ext; intros p c m; rewrite map_map;
      reflexivity.
Qed.

(** ** Residue renumbering *)

(** The values that a pass checked copy by copy emits satisfy what the
    check grants for one copy. *)
Lemma spec_instances_checked {X : Type} (data : grotop_data)
      (check : list entry -> nat -> moltype_t -> bool)
      (emit : list entry -> nat -> moltype_t -> list X) (P : X -> Prop) :
  (forall prev copy mt, check prev copy mt = true -> Forall P (emit prev copy mt)) ->
  forall roster prev,
    forallb (fun ok : bool => ok)
            (spec_instances data (fun p c m => [check p c m]) prev roster) = true ->
    Forall P (spec_instances data emit prev roster).
Proof.
  intros H. induction roster as [|e rest IH]; intros prev F; [constructor|].
  cbn [spec_instances] in *. rewrite forallb_app in F.
  apply andb_prop in F. destruct F as [F1 F2].
  apply Forall_app. split; [|now apply IH].
  destruct (find_moltype data (fst e)) as [mt|]; [|constructor].
  revert F1. generalize (seq 0 (copies e)).
  induction l as [|c l IHl]; intros F1; [constructor|].
  cbn [flat_map app forallb] in *. apply andb_prop in F1. destruct F1 as [Fc Fl].
  apply Forall_app. split; [now apply H | now apply IHl].
Qed.

Lemma in_int_range (z : Z) : in_int z = true -> INT_MIN <= z <= INT_MAX.
Proof. unfold in_int. intros H. apply andb_prop in H. lia. Qed.

(** C3.  For every roster on which no [int] computation of
    [read_grotop_structure] leaves the range of the type, the resid
    sequence that [read_grotop_structure] emits is
    [a.resnr + (resid_base - min_r + 1)] atom by atom, in roster order
    then copy order then atom order, where [min_r] is the least [resnr]
    of the molecule type and [resid_base] sums [nres = max_r - min_r + 1]
    over all instances emitted before (each copy advances it by [nres]);
    every such value can be stored in [int resid].  In particular a
    molecule type of three atoms, all of [resnr] 1, instantiated three
    times gives 1,1,1,2,2,2,3,3,3. *)
Theorem read_structure_resid :
  (forall data,
      structure_fits data = true ->
      map m_resid (read_grotop_structure data) = spec_resids data
      /\ Forall (fun r => INT_MIN <= r <= INT_MAX) (spec_resids data))
  /\ (forall data nm mt a1 a2 a3,
         molecules data = [(nm, 3)] ->
         find_moltype data nm = Some mt ->
         atoms mt = [a1; a2; a3] ->
         resnr a1 = 1 -> resnr a2 = 1 -> resnr a3 = 1 ->
         map m_resid (read_grotop_structure data) = [1; 1; 1; 2; 2; 2; 3; 3; 3]).
Proof.
  assert (G : forall data, map m_resid (read_grotop_structure data) = spec_resids data).
  { intros data. rewrite read_grotop_structure_eq, map_spec_instances.
    unfold spec_resids. apply spec_instances_ext. intros p c m.
    unfold emit_copy. rewrite map_map. reflexivity. }
  split.
  - intros data Hfit. split; [apply G|].
    unfold structure_fits in Hfit. apply andb_prop in Hfit.
    destruct Hfit as [_ Hcopies]. unfold spec_resids.
    apply (spec_instances_checked data (copy_fits data) _ _) with (2 := Hcopies).
    intros prev copy mt Hc. unfold copy_fits in Hc. cbv zeta in Hc.
    repeat (apply andb_prop in Hc; destruct Hc as [Hc ?]).
    apply Forall_forall. intros r Hr. apply in_map_iff in Hr.
    destruct Hr as [a [<- Ha]]. apply in_int_range.
    match goal with
    | F : forallb _ (atoms mt) = true |- _ =>
        rewrite forallb_forall in F; exact (F a Ha)
    end.
  - intros data nm mt a1 a2 a3 Hm Hf Ha H1 H2 H3.
    rewrite G. unfold spec_resids. rewrite Hm. cbn [spec_instances fst].
    rewrite Hf. unfold copies, spec_resid_base, spec_nres, spec_min_r, spec_max_r.
    rewrite Ha. cbn. rewrite H1, H2, H3. reflexivity.
Qed.

Lemma read_structure_resid_witness :
  map m_resid (read_grotop_structure water_handle) = [1; 1; 1; 2; 2; 2; 3; 3; 3]
  /\ Forall (fun r => INT_MIN <= r <= INT_MAX) (spec_resids water_handle).
Proof.
  split.
  - eapply (proj2 read_structure_resid water_handle "SOL"); reflexivity.
  - apply (proj1 read_structure_resid water_handle). reflexivity.
Defined.

(** ** Bonds *)




(** ** Masses *)

(** C5.  The mass of every emitted atom is its record's mass when that
    is positive, otherwise the mass the atom-type table holds for the
    record's type, otherwise 0.0 (the emitted atoms correspond one to one,
    in order, to the atom records of the instances).  In particular an
    atom written without a mass field, whose type has mass 12.011 in
    [atomtypes], is emitted with mass 12.011. *)
Theorem read_structure_mass :
  (forall data,
      map m_mass (read_grotop_structure data)
      = map (spec_mass data) (spec_atom_records data))
  /\ option_map (fun h => map m_mass (read_grotop_structure h))
                (open_example mass_backfill)
     = Some [f12_011].
Proof.
  split; [|vm_compute; reflexivity].
  intros data. rewrite read_grotop_structure_eq. unfold spec_atom_records.
  rewrite !map_spec_instances. apply spec_instances_ext. intros p c m.
  unfold emit_copy. rewrite map_map. apply map_ext. intros a.
  unfold emit_atom, spec_mass, find_atomtype_mass. reflexivity.
Qed.

(** ** Proper and improper dihedrals *)




(** ** Roster entries that resolve to nothing, or to no copy *)

Lemma total_atoms_unknown (data : grotop_data) :
  forall roster total,
    (exists e, In e roster /\ find_moltype data (fst e) = None) ->
    total_atoms_loop data roster total = -1.
Proof.
  induction roster as [|[nm cnt] rest IH]; intros total [e [Hin Hf]].
  - destruct Hin.
  - simpl. destruct (find_moltype data nm) as [mt|] eqn:Hnm; [|reflexivity].
    apply IH. destruct Hin as [<-|Hin].
    + simpl in Hf. congruence.
    + now exists e.
Qed.

Lemma total_atoms_skip (data : grotop_data) (nm : string) (mt : moltype_t)
      (post : list entry) :
  find_moltype data nm = Some mt ->
  forall pre total,
    total_atoms_loop data (pre ++ (nm, 0) :: post) total
    = total_atoms_loop data (pre ++ post) total.
Proof.
  intros Hf. induction pre as [|[n c] pre IH]; intros total; simpl.
  - rewrite Hf. f_equal. lia.
  - destruct (find_moltype data n); [apply IH | reflexivity].
Qed.

Lemma fold_left_skip {S E : Type} (f : S -> E -> S) (e : E) (pre post : list E) :
  (forall st, f st e = st) ->
  forall st, fold_left f (pre ++ e :: post) st = fold_left f (pre ++ post) st.
Proof.
  intros H st. rewrite !fold_left_app. simpl. now rewrite H.
Qed.

Lemma zsum_skip {E : Type} (f : E -> Z) (e : E) (pre post : list E) :
  f e = 0 -> zsum (map f (pre ++ e :: post)) = zsum (map f (pre ++ post)).
Proof.
  intros H. rewrite !map_app, !zsum_app. simpl. rewrite H. lia.
Qed.

Lemma fold_left_pointwise {S E : Type} (f g : S -> E -> S) (l : list E) :
  (forall st e, f st e = g st e) ->
  forall st, fold_left f l st = fold_left g l st.
Proof.
  intros H. induction l as [|e l IH]; intros st; simpl; [reflexivity|].
  now rewrite H, IH.
Qed.

(** The reader functions look at the molecule-type and atom-type tables
    of the data only through [find_moltype] and [find_atomtype_mass]. *)
Lemma find_moltype_ext (d1 d2 : grotop_data) (nm : string) :
  moltypes d1 = moltypes d2 -> find_moltype d1 nm = find_moltype d2 nm.
Proof. unfold find_moltype. now intros ->. Qed.

Lemma total_atoms_loop_ext (d1 d2 : grotop_data) :
  moltypes d1 = moltypes d2 ->
  forall roster total,
    total_atoms_loop d1 roster total = total_atoms_loop d2 roster total.
Proof.
  intros H. induction roster as [|[nm cnt] rest IH]; intros total; simpl;
    [reflexivity|].
  rewrite (find_moltype_ext d1 d2 nm H).
  destruct (find_moltype d2 nm); [apply IH | reflexivity].
Qed.

Lemma structure_copies_ext (d1 d2 : grotop_data) (mt : moltype_t) (segid : string)
      (mn nres : Z) :
  atomtypes d1 = atomtypes d2 ->
  forall n st,
    structure_copies d1 mt segid mn nres n st
    = structure_copies d2 mt segid mn nres n st.
Proof.
  intros H. induction n as [|n IH]; intros [[idx ro] out]; [reflexivity|].
  cbn [structure_copies]. rewrite !copy_atoms_eq, IH. do 3 f_equal.
  apply map_ext. intros a. unfold emit_atom, find_atomtype_mass. now rewrite H.
Qed.

Lemma structure_entry_ext (d1 d2 : grotop_data) :
  moltypes d1 = moltypes d2 -> atomtypes d1 = atomtypes d2 ->
  forall st e, structure_entry d1 st e = structure_entry d2 st e.
Proof.
  intros Hm Ha st [nm cnt]. unfold structure_entry.
  rewrite (find_moltype_ext d1 d2 nm Hm).
  destruct (find_moltype d2 nm) as [mt|]; [|reflexivity].
  destruct (min_max_resid mt). now apply structure_copies_ext.
Qed.

Lemma bonds_entry_ext (d1 d2 : grotop_data) :
  moltypes d1 = moltypes d2 ->
  forall st e, bonds_entry d1 st e = bonds_entry d2 st e.
Proof.
  intros Hm st [nm cnt]. unfold bonds_entry.
  now rewrite (find_moltype_ext d1 d2 nm Hm).
Qed.

Lemma tuples_entry_ext {R : Type} (skip : R -> bool) (indices : R -> list Z)
      (records : moltype_t -> list R) (d1 d2 : grotop_data) :
  moltypes d1 = moltypes d2 ->
  forall st e,
    tuples_entry skip indices records d1 st e
    = tuples_entry skip indices records d2 st e.
Proof.
  intros Hm st [nm cnt]. unfold tuples_entry.
  now rewrite (find_moltype_ext d1 d2 nm Hm).
Qed.

Lemma instantiate_tuples_skip {R : Type} (skip : R -> bool)
      (indices : R -> list Z) (records : moltype_t -> list R)
      (h1 h2 : grotop_data) (pre post : list entry) (nm : string) (mt : moltype_t) :
  moltypes h1 = moltypes h2 ->
  molecules h1 = (pre ++ (nm, 0) :: post)%list ->
  molecules h2 = (pre ++ post)%list ->
  find_moltype h2 nm = Some mt ->
  instantiate_tuples skip indices records h1
  = instantiate_tuples skip indices records h2.
Proof.
  intros Hm H1 H2 Hf. unfold instantiate_tuples. rewrite H1, H2.
  rewrite (fold_left_pointwise _ _ _ (tuples_entry_ext skip indices records h1 h2 Hm)).
  apply fold_left_skip. intros [[? ?] ?]. unfold tuples_entry. now rewrite Hf.
Qed.

(** The tables of two handles that differ by one roster entry of count 0. *)
Lemma read_tables_skip (h1 h2 : grotop_data) (pre post : list entry)
      (nm : string) (mt : moltype_t) :
  moltypes h1 = moltypes h2 -> atomtypes h1 = atomtypes h2 ->
  molecules h1 = (pre ++ (nm, 0) :: post)%list ->
  molecules h2 = (pre ++ post)%list ->
  find_moltype h2 nm = Some mt ->
  total_atoms h1 = total_atoms h2 -> total_bonds h1 = total_bonds h2 ->
  total_angles h1 = total_angles h2 ->
  total_dihedrals h1 = total_dihedrals h2 ->
  total_impropers h1 = total_impropers h2 ->
  read_tables h1 = read_tables h2.
Proof.
  intros Hm Ha H1 H2 Hf Ta Tb Tg Td Ti. unfold read_tables.
  assert (S1 : read_grotop_structure h1 = read_grotop_structure h2).
  { unfold read_grotop_structure. rewrite H1, H2.
    rewrite (fold_left_pointwise _ _ _ (structure_entry_ext h1 h2 Hm Ha)).
    rewrite fold_left_skip; [reflexivity|].
    intros [[? ?] ?]. unfold structure_entry. rewrite Hf.
    now destruct (min_max_resid mt). }
  assert (S2 : read_grotop_bonds h1 = read_grotop_bonds h2).
  { unfold read_grotop_bonds. rewrite Tb, H1, H2.
    rewrite (fold_left_pointwise _ _ _ (bonds_entry_ext h1 h2 Hm)).
    rewrite fold_left_skip; [reflexivity|].
    intros [[? ?] ?]. unfold bonds_entry. now rewrite Hf. }
  assert (S3 : read_grotop_angles h1 = read_grotop_angles h2).
  { unfold read_grotop_angles. rewrite Tg, Td, Ti.
    now rewrite !(instantiate_tuples_skip _ _ _ h1 h2 pre post nm mt Hm H1 H2 Hf). }
  now rewrite Ta, S1, S2, S3.
Qed.

(** C8.  When some roster entry names a molecule type that was never
    defined, [calculate_total_atoms] returns -1 and [open_grotop_read]
    returns the null handle.  A roster entry with count 0 whose molecule
    type is defined is not an error: the open succeeds or fails exactly as
    without the entry, and the atom count and the atom, bond, angle,
    dihedral and improper tables are those of the roster without it. *)
Theorem open_unresolved_or_empty_entry :
  (forall data,
      (exists e, In e (molecules data) /\ find_moltype data (fst e) = None) ->
      open_finish data = None)
  /\ (forall scan_float fs path data,
         parse_topology_file scan_float fs (S MAX_INCLUDES) path empty_data
         = Done data ->
         (exists e, In e (molecules data) /\ find_moltype data (fst e) = None) ->
         open_grotop_read scan_float fs path = None)
  /\ (forall data pre post nm mt,
         molecules data = (pre ++ (nm, 0) :: post)%list ->
         find_moltype data nm = Some mt ->
         option_map read_tables (open_finish data)
         = option_map read_tables (open_finish (set_molecules data (pre ++ post)))).
Proof.
  assert (A : forall data,
             (exists e, In e (molecules data) /\ find_moltype data (fst e) = None) ->
             open_finish data = None).
  { intros data H. unfold open_finish, calculate_total_atoms.
    now rewrite (total_atoms_unknown data _ 0 H). }
  split; [exact A|]. split.
  - intros scan_float fs path data Hp H. unfold open_grotop_read.
    rewrite Hp. now apply A.
  - intros data pre post nm mt Hm Hf.
    set (data' := set_molecules data (pre ++ post)).
    assert (Ta : calculate_total_atoms data = calculate_total_atoms data').
    { unfold calculate_total_atoms. rewrite Hm.
      rewrite (total_atoms_skip data nm mt post Hf pre 0).
      now apply total_atoms_loop_ext. }
    assert (Tl : forall w, total_loop w data = total_loop w data').
    { intros w. rewrite !total_loop_eq. rewrite Hm.
      change (molecules data') with (pre ++ post)%list.
      change (entry_total w data') with (entry_total w data).
      apply zsum_skip. unfold entry_total. cbn [fst snd]. rewrite Hf. lia. }
    assert (Ti : calculate_total_impropers data = calculate_total_impropers data').
    { rewrite !calculate_total_impropers_eq. rewrite Hm.
      change (molecules data') with (pre ++ post)%list.
      change (entry_total nimpropers data') with (entry_total nimpropers data).
      apply zsum_skip. unfold entry_total. cbn [fst snd]. rewrite Hf. lia. }
    unfold open_finish. rewrite <- Ta.
    destruct (calculate_total_atoms data <? 0); [reflexivity|].
    cbn [option_map]. f_equal.
    apply (read_tables_skip _ _ pre post nm mt);
      try reflexivity; try exact Hm; try exact Hf;
      try (symmetry; apply Tl); try apply Tl; try exact Ti.
Qed.

Lemma open_unresolved_or_empty_entry_witness :
  open_finish unknown_data = None
  /\ open_example unknown_roster = None
  /\ option_map read_tables (open_finish zero_count_data)
     = option_map read_tables (open_finish (set_molecules zero_count_data [("SOL", 3)])).
Proof.
  destruct open_unresolved_or_empty_entry as [A [B C]].
  split; [|split].
  - apply A. exists ("X", 2). split; [simpl; auto | reflexivity].
  - apply (B scan_float_dec (single_file unknown_roster) "topol.top" unknown_data).
    + vm_compute. reflexivity.
    + exists ("X", 2). split; [simpl; auto | reflexivity].
  - eapply (C zero_count_data [] [("SOL", 3)] "SOL"); reflexivity.
Defined.

Lemma instances_length (data : grotop_data) :
  forall roster prev,
    Z.of_nat (List.length (spec_instances data (emit_copy data) prev roster))
    = zsum (map (entry_atoms data) roster).
Proof.
  induction roster as [|e rest IH]; intros prev; [reflexivity|].
  cbn [spec_instances map zsum fold_right].
  rewrite length_app, Nat2Z.inj_add, IH. f_equal.
  unfold entry_atoms. destruct (find_moltype data (fst e)) as [mt|]; [|reflexivity].
  rewrite (length_flat_map_const _ (List.length (atoms mt)))
    by (intros; unfold emit_copy; apply length_map).
  rewrite length_seq, Nat2Z.inj_mul. reflexivity.
Qed.

(** ** Molecule types without atoms *)

Lemma read_structure_roster (data : grotop_data) (roster : list entry) :
  read_grotop_structure (set_molecules data roster)
  = spec_instances data (emit_copy data) [] roster.
Proof.
  unfold read_grotop_structure.
  change (molecules (set_molecules data roster)) with roster.
  rewrite (fold_left_pointwise
             _ _ _ (structure_entry_ext (set_molecules data roster) data
                                        eq_refl eq_refl)).
  now rewrite (structure_fold data _ []).
Qed.

Lemma emit_copy_shift (data : grotop_data) (pre q : list entry) (e : entry)
      (copy : nat) (mt : moltype_t) :
  emit_copy data (pre ++ e :: q) copy mt
  = map (shift_resid (entry_residues data e))
        (emit_copy data (pre ++ q) copy mt).
Proof.
  unfold emit_copy. rewrite map_map. apply map_ext. intros a.
  unfold emit_atom, shift_resid. cbn. f_equal.
  unfold spec_resid_base. rewrite !map_app, !zsum_app. simpl. lia.
Qed.

Lemma spec_instances_shift (data : grotop_data) (pre : list entry) (e : entry) :
  forall roster q,
    spec_instances data (emit_copy data) (pre ++ e :: q) roster
    = map (shift_resid (entry_residues data e))
          (spec_instances data (emit_copy data) (pre ++ q) roster).
Proof.
  induction roster as [|x rest IH]; intros q; [reflexivity|].
  cbn [spec_instances]. rewrite map_app. f_equal.
  - destruct (find_moltype data (fst x)) as [mt|]; [|reflexivity].
    rewrite map_flat_map. apply flat_map_pointwise. intros c.
    apply emit_copy_shift.
  - rewrite <- !app_assoc. cbn [app]. apply IH.
Qed.

(** C10.  A roster entry whose molecule type has no atoms puts no atom
    in the table, and its residue span counts as 1.  With [before] the
    atoms of the entries in front of it and [later] the atoms of the
    entries behind it, numbered as they are when the entry is absent:
    without the entry the table is [before] followed by [later]; with
    it, the table is [before] followed by [later] with every [resid]
    raised by one per copy of the entry ([count] copies when [count] is
    not negative, none otherwise).  Both rosters are assumed free of
    [int] overflow in [read_grotop_structure]. *)
Theorem empty_moltype_advances_residues
        (data : grotop_data) (pre post : list entry) (nm : string) (count : Z)
        (mt : moltype_t) :
  molecules data = (pre ++ (nm, count) :: post)%list ->
  find_moltype data nm = Some mt ->
  atoms mt = [] ->
  structure_fits data = true ->
  structure_fits (set_molecules data (pre ++ post)) = true ->
  let before := spec_instances data (emit_copy data) [] pre in
  let later := spec_instances data (emit_copy data) pre post in
  snd (min_max_resid mt) - fst (min_max_resid mt) + 1 = 1
  /\ read_grotop_structure (set_molecules data (pre ++ post))
     = (before ++ later)%list
  /\ read_grotop_structure data
     = (before ++ map (shift_resid (Z.max 0 count)) later)%list
  /\ Z.of_nat (List.length later) = zsum (map (entry_atoms data) post).
Proof.
  intros Hm Hf Ha _ _ before later. subst before later.
  split; [|split; [|split]].
  - unfold min_max_resid. rewrite Ha. reflexivity.
  - now rewrite read_structure_roster, spec_instances_app.
  - rewrite read_grotop_structure_eq, Hm.
    rewrite !spec_instances_app. cbn [app]. f_equal.
    cbn [spec_instances fst]. rewrite Hf.
    rewrite flat_map_nil by (intros c; unfold emit_copy; now rewrite Ha).
    cbn [app].
    pose proof (spec_instances_shift data pre (nm, count) post []) as S.
    rewrite app_nil_r in S. rewrite S. f_equal. f_equal.
    unfold entry_residues, copies, spec_nres, spec_max_r, spec_min_r.
    cbn [fst snd]. rewrite Hf, Ha. cbn [map]. lia.
  - apply instances_length.
Qed.

Lemma empty_moltype_advances_residues_witness :
  map m_resid (read_grotop_structure empty_between_data) = [1; 1; 4; 4]
  /\ map m_resid
       (read_grotop_structure
          (set_molecules empty_between_data [("SOL", 1); ("SOL", 1)]))
     = [1; 1; 2; 2].
Proof.
  destruct (empty_moltype_advances_residues
              empty_between_data [("SOL", 1)] [("SOL", 1)] "E" 2
              (mk_moltype "E" 1 [] [] [] [])
              eq_refl eq_refl eq_refl eq_refl eq_refl)
    as (_ & Hwithout & Hwith & _).
  split.
  - exact (eq_trans (f_equal (map m_resid) Hwith) eq_refl).
  - exact (eq_trans (f_equal (map m_resid) Hwithout) eq_refl).
Defined.

(** ** Atom-type lines *)

Lemma tokens_span (s : string) :
  tokens s = (let '(tok, rest) := span_nonspace (skip_ws s) in
              if strempty tok then [] else tok :: tokens rest).
Proof.
  induction s as [|c s' IH]; [reflexivity|].
  cbn [tokens skip_ws]. destruct (isspace c) eqn:Hc; [exact IH|].
  cbn [span_nonspace]. rewrite Hc.
  destruct s' as [|c' s'']; [reflexivity|].
  cbn [span_nonspace]. destruct (isspace c') eqn:Hc'; [reflexivity|].
  rewrite IH. cbn [skip_ws]. rewrite Hc'. cbn [span_nonspace]. rewrite Hc'.
  destruct (span_nonspace s'') as [t r]. reflexivity.
Qed.

Lemma tokens_cons (s t : string) (ts : list string) :
  tokens s = t :: ts ->
  exists rest, span_nonspace (skip_ws s) = (t, rest)
               /\ strempty t = false /\ tokens rest = ts.
Proof.
  rewrite tokens_span. destruct (span_nonspace (skip_ws s)) as [tok rest].
  destruct (strempty tok) eqn:E; [discriminate|].
  intros H. injection H as <- <-. now exists rest.
Qed.

Lemma tokens_nil (s : string) :
  tokens s = [] -> strempty (fst (span_nonspace (skip_ws s))) = true.
Proof.
  rewrite tokens_span. destruct (span_nonspace (skip_ws s)) as [tok rest].
  simpl. destruct (strempty tok); [reflexivity | discriminate].
Qed.

Lemma take_all (w : nat) (t : string) :
  (String.length t <= w)%nat -> take w t = t /\ drop w t = EmptyString.
Proof.
  revert w. induction t as [|c t IH]; intros w H.
  - destruct w; split; reflexivity.
  - destruct w as [|w]; [simpl in H; lia|]. simpl in H.
    destruct (IH w) as [H1 H2]; [lia|]. simpl. now rewrite H1, H2.
Qed.

Lemma scan_s_tokens (w : nat) (s t : string) (ts : list string) :
  tokens s = t :: ts -> (String.length t <= w)%nat ->
  exists rest, scan_s w s = Some (t, rest) /\ tokens rest = ts.
Proof.
  intros H Hw. destruct (tokens_cons s t ts H) as [rest [Hs [Hne Ht]]].
  exists rest. unfold scan_s. rewrite Hs, Hne.
  destruct (take_all w t Hw) as [-> ->]. now split.
Qed.

Lemma scan_skip_tokens (s : string) :
  match tokens s with
  | _ :: ts => exists rest, scan_skip s = Some rest /\ tokens rest = ts
  | [] => scan_skip s = None
  end.
Proof.
  destruct (tokens s) as [|t ts] eqn:H.
  - unfold scan_skip. apply tokens_nil in H.
    destruct (span_nonspace (skip_ws s)) as [tok rest]. simpl in H. now rewrite H.
  - destruct (tokens_cons s t ts H) as [rest [Hs [Hne Ht]]].
    exists rest. unfold scan_skip. rewrite Hs, Hne. now split.
Qed.

Lemma scan_f_tokens (scan_float : string -> option (float * string)) (s : string) :
  option_map fst (scan_f scan_float s)
  = match tokens s with
    | t :: _ => option_map fst (scan_float t)
    | [] => None
    end.
Proof.
  destruct (tokens s) as [|t ts] eqn:H.
  - unfold scan_f. apply tokens_nil in H.
    destruct (span_nonspace (skip_ws s)) as [tok rest]. simpl in H. now rewrite H.
  - destruct (tokens_cons s t ts H) as [rest [Hs [Hne Ht]]].
    unfold scan_f. rewrite Hs, Hne.
    destruct (scan_float t) as [[v tr]|]; reflexivity.
Qed.

Lemma parse_atomtype_line_tokens
      (scan_float : string -> option (float * string))
      (line t1 : string) (ts : list string) :
  tokens line = t1 :: ts -> (String.length t1 <= 15)%nat ->
  parse_atomtype_line scan_float line
  = option_map (fun m => (t1, m)) (spec_atomtype_mass scan_float ts).
Proof.
  intros H Hl. destruct (scan_s_tokens 15 line t1 ts H Hl) as [r1 [Hs Ht]].
  unfold parse_atomtype_line, sscanf_name_mass, sscanf_name_skip2_mass.
  rewrite Hs. pose proof (scan_f_tokens scan_float r1) as F1.
  pose proof (scan_skip_tokens r1) as K1. rewrite Ht in F1, K1.
  unfold spec_atomtype_mass.
  destruct ts as [|t2 ts2].
  - rewrite K1. destruct (scan_f scan_float r1) as [[m ?]|]; [discriminate|].
    reflexivity.
  - destruct (scan_f scan_float r1) as [[m r]|];
      destruct (scan_float t2) as [[m2 r2]|]; simpl in F1; try discriminate.
    + injection F1 as ->. reflexivity.
    + destruct K1 as [r2 [-> Ht2]].
      pose proof (scan_skip_tokens r2) as K2. rewrite Ht2 in K2.
      destruct ts2 as [|t3 ts3]; [now rewrite K2|].
      destruct K2 as [r3 [-> Ht3]].
      pose proof (scan_f_tokens scan_float r3) as F3. rewrite Ht3 in F3.
      destruct ts3 as [|t4 ts4].
      * destruct (scan_f scan_float r3) as [[m ?]|]; [discriminate | reflexivity].
      * destruct (scan_f scan_float r3) as [[m ?]|];
          destruct (scan_float t4) as [[m4 ?]|]; simpl in F3; try discriminate;
          [injection F3 as ->|]; reflexivity.
Qed.

(** Lines whose name fits the field.  For an [atomtypes] line whose
    first token has at most 15 characters (the width of the name
    field), and with room in the table: if the second token reads as a float, that value is
    stored as the mass (MARTINI form), whatever the fourth token is; only
    when the second token does not read as a float and there is a fourth
    token that does, the fourth token's value is stored (GROMACS form);
    otherwise nothing is stored.  The stored name is the first token. *)
Theorem atomtype_line_mass
        (scan_float : string -> option (float * string))
        (line t1 : string) (ts : list string) :
  tokens line = t1 :: ts ->
  (String.length t1 <= 15)%nat ->
  atomtype_mass_rule scan_float line
  /\ forall data,
      (List.length (atomtypes data) < MAX_ATOMTYPES)%nat ->
      atomtypes (atomtype_record scan_float line data)
      = (atomtypes data
         ++ match spec_atomtype_mass scan_float ts with
            | Some m => [mk_atomtype t1 m]
            | None => []
            end)%list.
Proof.
  intros H Hl.
  assert (G : forall data,
             (List.length (atomtypes data) < MAX_ATOMTYPES)%nat ->
             atomtypes (atomtype_record scan_float line data)
             = (atomtypes data
                ++ match spec_atomtype_mass scan_float ts with
                   | Some m => [mk_atomtype t1 m]
                   | None => []
                   end)%list).
  { intros data Hc. unfold atomtype_record.
    rewrite (parse_atomtype_line_tokens scan_float line t1 ts H Hl).
    destruct (spec_atomtype_mass scan_float ts) as [m|]; cbn [option_map].
    - apply Nat.ltb_lt in Hc. rewrite Hc. cbn [atomtypes set_atomtypes].
      now destruct (take_all 15 t1 Hl) as [-> _].
    - now rewrite app_nil_r. }
  split; [|exact G].
  intros data t1' ts' H' Hc. rewrite H in H'. injection H' as <- <-.
  rewrite (G data Hc), map_app.
  now destruct (spec_atomtype_mass scan_float ts).
Qed.

Lemma atomtype_line_mass_witness :
  atomtype_mass_rule scan_float_dec two_mass_line
  /\ forall data,
      (List.length (atomtypes data) < MAX_ATOMTYPES)%nat ->
      atomtypes (atomtype_record scan_float_dec two_mass_line data)
      = (atomtypes data ++ [mk_atomtype "C" (S754_finite false 12582912 (-20))])%list.
Proof.
  refine (atomtype_line_mass scan_float_dec two_mass_line "C" ["12.0"; "6"; "14.0"]
                             eq_refl _).
  simpl. lia.
Defined.

(** The rule fails on a line whose first token has 16 characters:
    [%15s] stops inside the token, [%f] reads the sixteenth character
    [1] as the mass, and the second token [2.0] is never looked at. *)
Lemma atomtype_long_name_counterexample :
  ~ atomtype_mass_rule scan_float_dec long_name_line.
Proof.
  intros R.
  specialize (R empty_data "ABCDEFGHIJKLMNO1" ["2.0"] eq_refl).
  assert (C : (List.length (atomtypes empty_data) < MAX_ATOMTYPES)%nat)
    by (unfold MAX_ATOMTYPES; simpl; lia).
  specialize (R C). vm_compute in R. discriminate R.
Qed.

(** C9 (the code departs from it).  The parser's own comment says of
    the first form [name mass ... (mass is 2nd field)]; the line
    [ABCDEFGHIJKLMNO1 2.0] has two tokens and the second reads as the
    float 2.0, yet the type is stored with mass 1.0: [%15s] stops after
    fifteen characters of the name and [%f] reads the sixteenth, [1].
    With a name of fifteen characters the same line stores 2.0.  In the
    same way the line [X 2C 6 12.01], in the form the comment calls
    [name bond_type atomic_num mass], is stored with mass 2.0, the
    numeric start of its bond type, and not with its fourth field. *)
Theorem atomtype_mass_field_slips :
  (tokens long_name_line = ["ABCDEFGHIJKLMNO1"; "2.0"]
   /\ option_map fst (scan_float_dec "2.0") = Some f2_0
   /\ option_map atomtypes (open_example long_name_file)
      = Some [mk_atomtype "ABCDEFGHIJKLMNO" f1_0])
  /\ option_map atomtypes (open_example fitting_name_file)
     = Some [mk_atomtype "ABCDEFGHIJKLMNO" f2_0]
  /\ (tokens bond_type_line = ["X"; "2C"; "6"; "12.01"]
      /\ option_map atomtypes (open_example bond_type_file)
         = Some [mk_atomtype "X" f2_0]).
Proof.
  split; [|split].
  - repeat split; vm_compute; reflexivity.
  - vm_compute. reflexivity.
  - split; vm_compute; reflexivity.
Qed.

(** ** Conditional blocks and section re-entry *)

(** C1 (the code departs from it).  [FLEX] is not defined, so the bond
    record [1 2] of [bond_in_false_block] is read while the conditional
    stack holds a false frame; it is stored all the same and comes out
    of [read_grotop_bonds], because the record is read by the section
    parser that the file loop re-enters after [#ifdef].  When the
    [#ifdef] stands before the section header, the file loop reads the
    record itself and skips it. *)
Theorem bond_in_false_block_is_stored :
  is_defined empty_data "FLEX" = false
  /\ option_map (fun h => (map bonds (moltypes h), read_grotop_bonds h))
                (open_example bond_in_false_block)
     = Some ([[mk_bond 1 2]], mk_bonds_out 1 [1] [2])
  /\ option_map (fun h => (map bonds (moltypes h), read_grotop_bonds h))
                (open_example bond_section_in_false_block)
     = Some ([[]], mk_bonds_out 0 [] []).
Proof.
  repeat split; vm_compute; reflexivity.
Qed.

(** C2 (the code departs from it).  In [guarded_atoms] the symbol [X]
    is defined and an [#ifdef X] ... [#endif] pair encloses the [atoms]
    section; the parse is fatal, because after [#ifdef] the file loop
    re-enters the [moleculetype] section and takes the [atoms] header
    for a missing molecule-type record.  Without the [#define] and the
    pair the same lines parse, and one atom is laid out. *)
Theorem guarded_atoms_parse_is_fatal :
  parse_example guarded_atoms = Fatal
  /\ open_example guarded_atoms = None
  /\ option_map (fun h => (total_atoms h, map name (moltypes h)))
                (open_example unguarded_atoms)
     = Some (1, ["M"]).
Proof.
  repeat split; vm_compute; reflexivity.
Qed.

(** ** Full tables *)

(** C7 (the code departs from it).  A 501st molecule type makes
    [process_section] return 0: the parse is fatal and the open returns
    the null handle, where 500 molecule types open.  A 1001st atom type
    and a 101st symbol are dropped and the parse goes on. *)
Theorem moltype_table_full_is_fatal :
  parse_example (many_moltypes 501) = Fatal
  /\ open_example (many_moltypes 501) = None
  /\ option_map (fun h => List.length (moltypes h))
                (open_example (many_moltypes 500)) = Some 500%nat
  /\ option_map (fun h => List.length (atomtypes h))
                (open_example (many_atomtypes 1001)) = Some 1000%nat
  /\ option_map (fun h => List.length (defines h))
                (open_example (many_defines 101)) = Some 100%nat.
Proof.
  repeat split; vm_compute; reflexivity.
Qed.

(** ** The step budget of the file loop is enough *)

Lemma section_loop_length {S : Type} (record : string -> S -> S) (fp : list string) :
  forall st,
    (List.length (fst (section_loop record fp st)) <= List.length fp)%nat.
Proof.
  induction fp as [|raw rest IH]; intros st; cbn [section_loop]; [simpl; lia|].
  destruct (is_preprocessor_directive raw); [simpl; lia|].
  destruct (strempty (strip_comments raw)).
  - specialize (IH st). simpl. lia.
  - destruct (is_section_header (strip_comments raw)); [simpl; lia|].
    specialize (IH (record (strip_comments raw) st)). simpl. lia.
Qed.

Lemma parse_moleculetype_header_length (fp : list string) (mt : moltype_t) :
  (List.length (snd (fst (parse_moleculetype_header fp mt))) <= List.length fp)%nat.
Proof.
  induction fp as [|raw rest IH]; cbn [parse_moleculetype_header]; [simpl; lia|].
  destruct (strempty (strip_comments raw)); [simpl; lia|].
  destruct (is_section_header (strip_comments raw)); [simpl; lia|].
  destruct (scan_s 31 (strip_comments raw)) as [[nm r]|]; simpl; lia.
Qed.

Lemma on_current_mt_length
      (parse : list string -> moltype_t -> list string * moltype_t)
      (fp : list string) (data : grotop_data) (i : nat) :
  (forall fp mt, (List.length (fst (parse fp mt)) <= List.length fp)%nat) ->
  (List.length (fst (on_current_mt parse fp data i)) <= List.length fp)%nat.
Proof.
  intros H. unfold on_current_mt.
  destruct (nth_error (moltypes data) i) as [mt|]; [|simpl; lia].
  specialize (H fp mt). destruct (parse fp mt). exact H.
Qed.

Section Budget.

Variable scan_float : string -> option (float * string).

Lemma process_section_length (fp : list string) (section : string)
      (data : grotop_data) (cur : option nat) :
  (List.length (snd (fst (fst (process_section scan_float fp section data cur))))
   <= List.length fp)%nat.
Proof.
  assert (O : forall parse,
             (forall fp mt, (List.length (fst (parse fp mt)) <= List.length fp)%nat) ->
             forall others : bool * list string * grotop_data * option nat,
               (List.length (snd (fst (fst others))) <= List.length fp)%nat ->
               (List.length
                  (snd (fst (fst
                     match
                       match cur with
                       | Some i =>
                           let '(fp', data') := on_current_mt parse fp data i in
                           Some (true, fp', data', cur)
                       | None => None
                       end
                     with
                     | Some x => x
                     | None => others
                     end)))
                <= List.length fp)%nat).
  { intros parse Hp others Ho. destruct cur as [i|]; [|exact Ho].
    pose proof (on_current_mt_length parse fp data i Hp) as H.
    destruct (on_current_mt parse fp data i). exact H. }
  assert (Others :
            (List.length
               (snd (fst (fst
                  (if String.eqb section "molecules"
                   then let '(fp', data') := parse_molecules_section fp data in
                        (true, fp', data', cur)
                   else if is_skipped_section section
                        then (true, skip_section fp, data, cur)
                        else (true, fp, data, cur)))))
             <= List.length fp)%nat).
  { destruct (String.eqb section "molecules").
    - unfold parse_molecules_section.
      pose proof (section_loop_length molecule_record fp data) as H.
      destruct (section_loop molecule_record fp data). exact H.
    - destruct (is_skipped_section section); [|simpl; lia].
      unfold skip_section. apply section_loop_length. }
  unfold process_section.
  destruct (String.eqb section "atomtypes").
  { unfold parse_atomtypes_section.
    pose proof (section_loop_length (atomtype_record scan_float) fp data) as H.
    destruct (section_loop (atomtype_record scan_float) fp data). exact H. }
  destruct (String.eqb section "moleculetype").
  { pose proof (parse_moleculetype_header_length fp create_moltype) as H.
    destruct (parse_moleculetype_header fp create_moltype) as [[ok fp'] mt].
    simpl in H. destruct ok; simpl; [|exact H].
    destruct (Nat.ltb (List.length (moltypes data)) MAX_MOLTYPES); exact H. }
  destruct (String.eqb section "atoms").
  { apply O; [intros; apply section_loop_length | exact Others]. }
  destruct (String.eqb section "bonds").
  { apply O; [intros; apply section_loop_length | exact Others]. }
  destruct (String.eqb section "constraints").
  { apply O; [intros; apply section_loop_length | exact Others]. }
  destruct (String.eqb section "angles").
  { apply O; [intros; apply section_loop_length | exact Others]. }
  destruct (String.eqb section "dihedrals").
  { apply O; [intros; apply section_loop_length | exact Others]. }
  exact Others.
Qed.

Variable parse_include_file : string -> grotop_data -> result grotop_data.
Variable filepath : string.
Hypothesis include_returns :
  forall path data, parse_include_file path data <> OutOfFuel.

Lemma parse_loop_budget :
  forall fuel fp st,
    (List.length fp < fuel)%nat ->
    parse_loop scan_float parse_include_file filepath fuel fp st <> OutOfFuel.
Proof.
  induction fuel as [|fuel IH]; intros fp st Hlen; [lia|].
  destruct fp as [|line rest]; [discriminate|].
  simpl in Hlen.
  assert (Hrest : (List.length rest < fuel)%nat) by lia.
  assert (Re : forall data stack,
             (if negb (strempty (current_section st))
              then match process_section scan_float rest (current_section st)
                                         data (current_mt st) with
                   | (true, fp', data', mt') =>
                       parse_loop scan_float parse_include_file filepath fuel fp'
                                  (mk_frame data' mt' (current_section st) stack)
                   | (false, _, _, _) => Fatal
                   end
              else parse_loop scan_float parse_include_file filepath fuel rest
                              (mk_frame data (current_mt st)
                                        (current_section st) stack))
             <> OutOfFuel).
  { intros data stack.
    destruct (negb (strempty (current_section st))); [|now apply IH].
    pose proof (process_section_length rest (current_section st) data
                                       (current_mt st)) as H.
    destruct (process_section scan_float rest (current_section st) data
                              (current_mt st)) as [[[ok fp'] d'] c'].
    simpl in H. destruct ok; [apply IH; lia | discriminate]. }
  cbn [parse_loop].
  destruct (parse_define line (fr_data st)) as [data'|]; [apply Re|].
  destruct (parse_ifdef line) as [[symbol is_ifndef]|].
  { destruct (Nat.leb MAX_IFDEF_DEPTH (List.length (ifdef_stack st)));
      [discriminate | apply Re]. }
  destruct (is_else_directive line).
  { destruct (ifdef_stack st); [discriminate | apply Re]. }
  destruct (is_endif_directive line).
  { destruct (ifdef_stack st); [discriminate | apply Re]. }
  destruct (negb (should_process (ifdef_stack st))); [now apply IH|].
  destruct (parse_include line filepath) as [include_path|].
  { pose proof (include_returns include_path (fr_data st)) as Hi.
    destruct (parse_include_file include_path (fr_data st));
      [now apply IH | discriminate | congruence]. }
  destruct (strempty (strip_comments line)); [now apply IH|].
  destruct (is_section_header (strip_comments line)) as [section|];
    [|now apply IH].
  pose proof (process_section_length rest section (fr_data st) (current_mt st)) as H.
  destruct (process_section scan_float rest section (fr_data st) (current_mt st))
    as [[[ok fp'] d'] c'].
  simpl in H. destruct ok; [apply IH; lia | discriminate].
Qed.

End Budget.

(** [parse_topology_file] always returns: its result is [Done] or
    [Fatal], whatever the files are. *)
Lemma parse_topology_file_returns
      (scan_float : string -> option (float * string)) (fs : filesystem) :
  forall levels filepath data,
    parse_topology_file scan_float fs levels filepath data <> OutOfFuel.
Proof.
  induction levels as [|levels IH]; intros filepath data; [discriminate|].
  cbn [parse_topology_file]. destruct (fs filepath) as [content|]; [|discriminate].
  apply parse_loop_budget; [exact IH | lia].
Qed.

(** * The rest of the reader *)

(** ** The line source *)

Lemma flatten_cons (r : string) (l : list string) :
  flatten (r :: l) = r ++ flatten l.
Proof. reflexivity. Qed.

Lemma flatten_nonempty (l : list string) :
  flatten (filter (fun r => negb (strempty r)) l) = flatten l.
Proof.
  induction l as [|r l IH]; [reflexivity|]. cbn [filter].
  destruct r as [|c r]; cbn [strempty negb]; [exact IH|].
  now rewrite !flatten_cons, IH.
Qed.

Lemma records_aux_flatten (s : string) :
  forall room, flatten (records_aux room s) = s.
Proof.
  induction s as [|c s IH]; intros room; [reflexivity|].
  cbn [records_aux].
  destruct (Ascii.eqb c newline || Nat.eqb room 0)%bool.
  - rewrite flatten_cons, IH. reflexivity.
  - specialize (IH (room - 1)%nat).
    destruct (records_aux (room - 1) s) as [|r rs].
    + cbn in IH. subst s. reflexivity.
    + rewrite flatten_cons in *. cbn [String.append]. now rewrite IH.
Qed.

Lemma records_aux_length (s : string) :
  forall room,
    (room <= 510)%nat ->
    exists r rs,
      records_aux room s = r :: rs
      /\ (String.length r <= S room)%nat
      /\ Forall (fun x => (String.length x <= 511)%nat) rs.
Proof.
  change (GROTOP_RECORD_LENGTH - 2)%nat with 510%nat.
  induction s as [|c s IH]; intros room Hroom.
  - exists EmptyString, []. repeat split; [simpl; lia | constructor].
  - cbn [records_aux]. change (GROTOP_RECORD_LENGTH - 2)%nat with 510%nat.
    destruct (Ascii.eqb c newline || Nat.eqb room 0)%bool eqn:E.
    + destruct (IH 510%nat (le_n _)) as [r [rs [-> [Hr Hrs]]]].
      exists (String c EmptyString), (r :: rs). repeat split.
      * simpl. lia.
      * constructor; [exact Hr | exact Hrs].
    + apply orb_false_iff in E. destruct E as [_ E]. apply Nat.eqb_neq in E.
      destruct (IH (room - 1)%nat ltac:(lia)) as [r [rs [-> [Hr Hrs]]]].
      exists (String c r), rs. repeat split; [simpl; lia | exact Hrs].
Qed.

(** X1.  The records that successive [fgets(line, 512, fp)] calls return
    are the content of the file cut in pieces: put end to end they give
    the content back, none is empty and none has more than 511
    characters.  An over-long line is split, not truncated. *)
Theorem fgets_records_partition (content : string) :
  flatten (fgets_records content) = content
  /\ Forall (fun r => r <> EmptyString /\ (String.length r <= 511)%nat)
            (fgets_records content).
Proof.
  unfold fgets_records. split.
  - rewrite flatten_nonempty. apply records_aux_flatten.
  - destruct (records_aux_length content 510%nat (le_n _)) as [r [rs [E [Hr Hrs]]]].
    change (GROTOP_RECORD_LENGTH - 2)%nat with 510%nat. rewrite E.
    apply Forall_forall. intros x Hx. apply filter_In in Hx.
    destruct Hx as [Hin Hne]. split.
    + intros ->. discriminate Hne.
    + destruct Hin as [<-|Hin]; [exact Hr|].
      rewrite Forall_forall in Hrs. now apply Hrs.
Qed.

(** ** Comment stripping *)

Lemma skip_ws_idem (s : string) : skip_ws (skip_ws s) = skip_ws s.
Proof.
  induction s as [|c s IH]; [reflexivity|]. cbn [skip_ws].
  destruct (isspace c) eqn:E; [exact IH|]. cbn [skip_ws]. now rewrite E.
Qed.

Lemma rtrim_fixed_tail (c : ascii) (s : string) :
  rtrim (String c s) = String c s -> rtrim s = s.
Proof.
  cbn [rtrim]. destruct (rtrim s) as [|a r].
  - destruct (isspace c); [discriminate|]. intros H. now injection H as <-.
  - intros H. now injection H as <-.
Qed.

Lemma rtrim_idem (s : string) : rtrim (rtrim s) = rtrim s.
Proof.
  induction s as [|c s IH]; [reflexivity|]. cbn [rtrim].
  destruct (rtrim s) as [|a r] eqn:E.
  - destruct (isspace c) eqn:Ec; [reflexivity|]. cbn [rtrim]. now rewrite Ec.
  - change (rtrim (String c (String a r))) with
      (match rtrim (String a r) with
       | EmptyString => if isspace c then EmptyString else String c EmptyString
       | x => String c x
       end).
    now rewrite IH.
Qed.

Lemma rtrim_skip_ws (s : string) : rtrim s = s -> rtrim (skip_ws s) = skip_ws s.
Proof.
  induction s as [|c s IH]; intros H; [reflexivity|]. cbn [skip_ws].
  destruct (isspace c); [|exact H]. apply IH. now apply rtrim_fixed_tail in H.
Qed.

Lemma cut_at_fixed (d c : ascii) (s : string) :
  cut_at d (String c s) = String c s -> Ascii.eqb c d = false /\ cut_at d s = s.
Proof.
  cbn [cut_at]. destruct (Ascii.eqb c d); [discriminate|].
  intros H. now injection H as H.
Qed.

Lemma cut_at_idem (d : ascii) (s : string) : cut_at d (cut_at d s) = cut_at d s.
Proof.
  induction s as [|c s IH]; [reflexivity|]. cbn [cut_at].
  destruct (Ascii.eqb c d) eqn:E; [reflexivity|]. cbn [cut_at]. now rewrite E, IH.
Qed.

Lemma cut_at_rtrim (d : ascii) (s : string) :
  cut_at d s = s -> cut_at d (rtrim s) = rtrim s.
Proof.
  induction s as [|c s IH]; intros H; [reflexivity|].
  apply cut_at_fixed in H. destruct H as [Hc Hs]. specialize (IH Hs).
  cbn [rtrim]. destruct (rtrim s) as [|a r].
  - destruct (isspace c); [reflexivity|]. cbn [cut_at]. now rewrite Hc.
  - cbn [cut_at] in *. now rewrite Hc, IH.
Qed.

Lemma cut_at_skip_ws (d : ascii) (s : string) :
  cut_at d s = s -> cut_at d (skip_ws s) = skip_ws s.
Proof.
  induction s as [|c s IH]; intros H; [reflexivity|]. cbn [skip_ws].
  destruct (isspace c); [|exact H]. apply IH. now apply cut_at_fixed in H.
Qed.

(** X2.  What [strip_comments] returns holds no semicolon and neither
    starts nor ends with a blank; stripping it again changes nothing. *)
Theorem strip_comments_clean (line : string) :
  let r := strip_comments line in
  cut_at ";"%char r = r /\ skip_ws r = r /\ rtrim r = r /\ strip_comments r = r.
Proof.
  assert (C : cut_at ";"%char (strip_comments line) = strip_comments line).
  { unfold strip_comments. apply cut_at_skip_ws, cut_at_rtrim, cut_at_idem. }
  assert (W : skip_ws (strip_comments line) = strip_comments line)
    by apply skip_ws_idem.
  assert (T : rtrim (strip_comments line) = strip_comments line).
  { unfold strip_comments. apply rtrim_skip_ws, rtrim_idem. }
  cbv zeta. repeat split; try assumption.
  unfold strip_comments at 1. now rewrite C, T, W.
Qed.

(** ** Section headers and include paths *)

Lemma skip_ws_blank_app (pad s : string) :
  blank pad -> skip_ws (pad ++ s) = skip_ws s.
Proof.
  unfold blank. induction pad as [|c pad IH]; intros H; [reflexivity|].
  cbn [skip_ws String.append] in *.
  destruct (isspace c); [now apply IH | discriminate].
Qed.

Lemma until_bracket_app (nm rest : string) :
  until_bracket nm = None ->
  until_bracket (nm ++ String "]"%char rest) = Some nm.
Proof.
  induction nm as [|c nm IH]; intros H; [reflexivity|].
  cbn [until_bracket String.append] in *.
  destruct (Ascii.eqb c "]"%char); [discriminate|].
  destruct (until_bracket nm); [discriminate|]. now rewrite IH.
Qed.

Lemma until_bracket_length (s raw : string) :
  until_bracket s = Some raw -> (String.length raw <= String.length s)%nat.
Proof.
  revert raw. induction s as [|c s IH]; intros raw; [discriminate|].
  cbn [until_bracket]. destruct (Ascii.eqb c "]"%char).
  - intros H. injection H as <-. simpl. lia.
  - destruct (until_bracket s) as [r|]; [|discriminate].
    intros H. injection H as <-. specialize (IH r eq_refl). simpl. lia.
Qed.

Lemma skip_ws_length (s : string) : (String.length (skip_ws s) <= String.length s)%nat.
Proof.
  induction s as [|c s IH]; [simpl; lia|]. cbn [skip_ws].
  destruct (isspace c); simpl in *; lia.
Qed.

Lemma rtrim_length (s : string) : (String.length (rtrim s) <= String.length s)%nat.
Proof.
  induction s as [|c s IH]; [simpl; lia|]. cbn [rtrim].
  destruct (rtrim s); [destruct (isspace c)|]; simpl in *; lia.
Qed.

Lemma skip_ws_fixed_head (c : ascii) (s : string) :
  skip_ws (String c s) = String c s -> isspace c = false.
Proof.
  cbn [skip_ws]. destruct (isspace c); [|reflexivity].
  intros H. pose proof (skip_ws_length s) as L. rewrite H in L. simpl in L. lia.
Qed.

Lemma skip_ws_rtrim (s : string) : skip_ws s = s -> skip_ws (rtrim s) = rtrim s.
Proof.
  destruct s as [|c s]; [reflexivity|]. intros H.
  apply skip_ws_fixed_head in H. cbn [rtrim].
  destruct (rtrim s); [rewrite H|]; cbn [skip_ws]; now rewrite H.
Qed.

(** X3.  [is_section_header] accepts a line made of optional blanks, an
    opening bracket, 1 to 63 characters without a closing bracket, and a
    closing bracket; the name is what stands between the brackets
    without its surrounding blanks, and whatever follows the closing
    bracket is ignored.  A name it returns never starts or ends with a
    blank and has fewer than 64 characters. *)
Theorem section_header_name :
  (forall pad nm rest,
      blank pad -> until_bracket nm = None ->
      (0 < String.length nm < 64)%nat ->
      is_section_header (pad ++ String "["%char (nm ++ String "]"%char rest))
      = Some (rtrim (skip_ws nm)))
  /\ (forall line nm,
         is_section_header line = Some nm ->
         skip_ws nm = nm /\ rtrim nm = nm /\ (String.length nm < 64)%nat).
Proof.
  split.
  - intros pad nm rest Hp Hn Hl. unfold is_section_header.
    rewrite (skip_ws_blank_app pad _ Hp). cbn [skip_ws].
    change (isspace "["%char) with false. cbv iota.
    rewrite (until_bracket_app nm rest Hn).
    destruct (Nat.eqb_spec (String.length nm) 0) as [E|_]; [lia|].
    destruct (Nat.leb_spec 64 (String.length nm)) as [E|_]; [lia|].
    reflexivity.
  - intros line nm. unfold is_section_header.
    destruct (skip_ws line) as [|c p]; [discriminate|].
    destruct c as [[] [] [] [] [] [] [] []]; try discriminate.
    destruct (until_bracket p) as [raw|] eqn:E; [|discriminate].
    destruct (Nat.eqb (String.length raw) 0); [discriminate|].
    destruct (Nat.leb_spec 64 (String.length raw)) as [|Hl]; [discriminate|].
    cbn [orb]. intros H. injection H as <-. repeat split.
    + apply skip_ws_rtrim, skip_ws_idem.
    + apply rtrim_idem.
    + pose proof (rtrim_length (skip_ws raw)). pose proof (skip_ws_length raw).
      lia.
Qed.

Lemma section_header_name_witness :
  is_section_header ("  [ atoms ] trailing text") = Some "atoms".
Proof.
  apply (proj1 section_header_name "  " " atoms " " trailing text");
    [reflexivity | reflexivity | simpl; lia].
Defined.

Lemma until_quote_app (q : ascii) (file rest : string) :
  until_quote q file = None ->
  until_quote q (file ++ String q rest) = Some file.
Proof.
  induction file as [|c file IH]; intros H.
  - cbn. now rewrite Ascii.eqb_refl.
  - cbn [until_quote String.append] in *.
    destruct (Ascii.eqb c q); [discriminate|].
    destruct (until_quote q file); [discriminate|]. now rewrite IH.
Qed.

Lemma dir_part_split (path : string) :
  match dir_part path with
  | Some d =>
      exists pre t, d = pre ++ "/" /\ path = d ++ t /\ no_slash t
  | None => no_slash path
  end.
Proof.
  unfold no_slash. induction path as [|c path IH]; [reflexivity|].
  cbn [dir_part]. destruct (dir_part path) as [d|] eqn:E.
  - destruct IH as (pre & t & -> & -> & Ht). now exists (String c pre), t.
  - cbn [cut_at]. destruct (Ascii.eqb_spec c "/"%char) as [->|_].
    + now exists EmptyString, path.
    + now rewrite IH.
Qed.

(** X4.  [parse_include] accepts [#include], after optional blanks,
    followed by optional blanks and a name of 1 to 255 characters
    between two double quotes or two single quotes, and ignores what
    follows the closing quote.  When directory and name together fit
    the 512-byte path buffer, the path it returns is the directory of
    the including file followed by the name as written.  The directory
    is the including path up to and including its last slash: what
    follows it in the path has no slash, and it is empty exactly when
    the path has no slash at all.  A name that starts with a slash is
    treated in the same way. *)
Theorem parse_include_path (pad gap file rest base : string) (q : ascii) :
  blank pad -> blank gap ->
  q = "034"%char \/ q = "'"%char ->
  until_quote q file = None ->
  (0 < String.length file < 256)%nat ->
  (String.length (include_dir base) + String.length file < 512)%nat ->
  parse_include (pad ++ "#include" ++ gap ++ String q (file ++ String q rest)) base
  = Some (include_dir base ++ file)
  /\ exists t,
      base = include_dir base ++ t
      /\ no_slash t
      /\ ((include_dir base = EmptyString /\ no_slash base)
          \/ exists pre, include_dir base = pre ++ "/").
Proof.
  intros Hp Hg Hq Hf Hl _. split.
  - unfold parse_include. rewrite (skip_ws_blank_app pad _ Hp).
    change (skip_ws ("#include" ++ gap ++ String q (file ++ String q rest)))
      with ("#include" ++ gap ++ String q (file ++ String q rest)).
    assert (Hpre : forall x, starts_with "#include" ("#include" ++ x) = true)
      by (intros x; unfold starts_with; simpl; now destruct x).
    rewrite Hpre.
    change (drop 8 ("#include" ++ gap ++ String q (file ++ String q rest)))
      with (gap ++ String q (file ++ String q rest)).
    rewrite (skip_ws_blank_app gap _ Hg).
    assert (Hs : isspace q = false) by (destruct Hq as [-> | ->]; reflexivity).
    cbn [skip_ws]. rewrite Hs.
    assert (Hb : (Ascii.eqb q "034"%char || Ascii.eqb q "'"%char)%bool = true)
      by (destruct Hq as [-> | ->]; reflexivity).
    rewrite Hb, (until_quote_app q file rest Hf).
    destruct (Nat.eqb_spec (String.length file) 0) as [E|_]; [lia|].
    destruct (Nat.leb_spec 256 (String.length file)) as [E|_]; [lia|].
    cbn [orb]. unfold include_dir. now destruct (dir_part base).
  - pose proof (dir_part_split base) as D. unfold include_dir.
    destruct (dir_part base) as [d|].
    + destruct D as (pre & t & Hd & Hb & Ht). exists t.
      repeat split; [exact Hb | exact Ht | right; now exists pre].
    + exists base. repeat split; [exact D | left; now split].
Qed.

Lemma parse_include_path_witness :
  parse_include ("#include " ++ String "034"%char ("/abs/ff.itp" ++ String "034"%char nl))
                "run/topol.top"
  = Some "run//abs/ff.itp".
Proof.
  apply (proj1 (parse_include_path "" " " "/abs/ff.itp" nl "run/topol.top" "034"%char
                                   eq_refl eq_refl (or_introl eq_refl) eq_refl
                                   ltac:(simpl; lia) ltac:(simpl; lia))).
Defined.

(** ** The define set *)

Lemma NoDup_snoc {A : Type} (l : list A) (x : A) :
  NoDup l -> ~ In x l -> NoDup (l ++ [x]).
Proof.
  induction l as [|a l IH]; intros Hn Hx; simpl.
  - constructor; [intros [] | constructor].
  - inversion Hn as [|? ? Ha Hl]; subst. constructor.
    + rewrite in_app_iff. intros [H|[H|[]]]; [now apply Ha|].
      subst. apply Hx. now left.
    + apply IH; [exact Hl|]. intros H. apply Hx. now right.
Qed.

Lemma is_defined_In (data : grotop_data) (s : string) :
  is_defined data s = true <-> In s (defines data).
Proof.
  unfold is_defined. rewrite existsb_exists. split.
  - intros [x [Hx E]]. apply String.eqb_eq in E. now subst.
  - intros H. exists s. split; [exact H | apply String.eqb_refl].
Qed.

(** X5.  [add_define] keeps the symbols as a set of at most 100: a
    symbol that was defined stays defined; a symbol of at most 63
    characters is defined afterwards whenever the table had room; no
    symbol is ever stored twice; a symbol that is already defined, or
    that arrives when the table is full, leaves the data untouched. *)
Theorem add_define_set (data : grotop_data) (s : string) :
  (forall x, is_defined data x = true -> is_defined (add_define data s) x = true)
  /\ ((List.length (defines data) < MAX_DEFINES)%nat ->
      (String.length s <= 63)%nat ->
      is_defined (add_define data s) s = true)
  /\ ((String.length s <= 63)%nat -> NoDup (defines data) ->
      NoDup (defines (add_define data s)))
  /\ ((List.length (defines data) <= MAX_DEFINES)%nat ->
      (List.length (defines (add_define data s)) <= MAX_DEFINES)%nat)
  /\ (is_defined data s = true -> add_define data s = data)
  /\ ((MAX_DEFINES <= List.length (defines data))%nat -> add_define data s = data).
Proof.
  unfold add_define.
  destruct (Nat.leb_spec MAX_DEFINES (List.length (defines data))) as [Hfull|Hroom].
  { repeat split; auto; lia. }
  destruct (is_defined data s) eqn:Hd.
  { repeat split; auto; try lia. }
  repeat split.
  - intros x Hx. apply is_defined_In. apply is_defined_In in Hx.
    cbn [defines set_defines]. apply in_or_app. now left.
  - intros _ Hl. apply is_defined_In. cbn [defines set_defines].
    apply in_or_app. right. left. now destruct (take_all 63 s Hl).
  - intros Hl Hn. cbn [defines set_defines]. apply NoDup_snoc; [exact Hn|].
    destruct (take_all 63 s Hl) as [-> _]. intros Hin.
    apply is_defined_In in Hin. congruence.
  - intros _. cbn [defines set_defines]. rewrite length_app. simpl. lia.
  - discriminate.
  - lia.
Qed.

Lemma add_define_set_witness :
  is_defined (add_define empty_data "FLEXIBLE") "FLEXIBLE" = true.
Proof.
  apply (proj1 (proj2 (add_define_set empty_data "FLEXIBLE")));
    [unfold MAX_DEFINES; simpl; lia | simpl; lia].
Defined.

Lemma blank_free_cons (c : ascii) (s : string) :
  blank_free (String c s) -> isspace c = false /\ blank_free s.
Proof.
  unfold blank_free. cbn [span_nonspace].
  destruct (isspace c); [discriminate|].
  destruct (span_nonspace s) as [t r]. intros H. injection H as -> ->.
  now split.
Qed.

Lemma span_blank_free (s r : string) (c : ascii) :
  blank_free s -> isspace c = true ->
  span_nonspace (s ++ String c r) = (s, String c r).
Proof.
  intros Hs Hc. induction s as [|a s IH].
  - cbn. now rewrite Hc.
  - apply blank_free_cons in Hs. destruct Hs as [Ha Hs].
    cbn [span_nonspace String.append]. now rewrite Ha, (IH Hs).
Qed.

Lemma directive_symbol_line (s : string) :
  blank_free s -> (0 < String.length s <= 63)%nat ->
  directive_symbol (String " "%char (s ++ nl)) = Some s.
Proof.
  intros Hs Hl. unfold directive_symbol. cbn [skip_ws].
  change (isspace " "%char) with true. cbv iota.
  destruct s as [|a s]; [simpl in Hl; lia|].
  destruct (blank_free_cons a s Hs) as [Ha _].
  cbn [String.append skip_ws]. rewrite Ha.
  change (String a (s ++ nl)) with (String a s ++ String newline EmptyString).
  rewrite (span_blank_free (String a s) EmptyString newline Hs eq_refl).
  destruct (Nat.eqb_spec (String.length (String a s)) 0) as [E|_];
    [simpl in E; lia|].
  destruct (Nat.leb_spec 64 (String.length (String a s))) as [E|_]; [lia|].
  reflexivity.
Qed.

(** X6.  The directive parsers agree on what a symbol is: for a symbol
    of 1 to 63 characters without blanks, and with room in the table,
    the line [#define SYM] defines it, the line [#ifdef SYM] asks for
    the same symbol and finds it defined, and [#ifndef SYM] asks for it
    with the test inverted. *)
Theorem define_then_ifdef (data : grotop_data) (s : string) :
  blank_free s ->
  (0 < String.length s <= 63)%nat ->
  (List.length (defines data) < MAX_DEFINES)%nat ->
  exists data',
    parse_define ("#define " ++ s ++ nl) data = Some data'
    /\ is_defined data' s = true
    /\ parse_ifdef ("#ifdef " ++ s ++ nl) = Some (s, false)
    /\ parse_ifdef ("#ifndef " ++ s ++ nl) = Some (s, true).
Proof.
  intros Hs Hl Hroom. exists (add_define data s). repeat split.
  - unfold parse_define.
    change (skip_ws ("#define " ++ s ++ nl)) with ("#define " ++ s ++ nl).
    change (starts_with "#define" ("#define " ++ s ++ nl)) with true. cbv iota.
    change (drop 7 ("#define " ++ s ++ nl)) with (String " "%char (s ++ nl)).
    now rewrite (directive_symbol_line s Hs Hl).
  - apply (add_define_set data s); [exact Hroom | lia].
  - unfold parse_ifdef.
    change (skip_ws ("#ifdef " ++ s ++ nl)) with ("#ifdef " ++ s ++ nl).
    change (starts_with "#ifdef" ("#ifdef " ++ s ++ nl)) with true. cbv iota.
    change (drop 6 ("#ifdef " ++ s ++ nl)) with (String " "%char (s ++ nl)).
    now rewrite (directive_symbol_line s Hs Hl).
  - unfold parse_ifdef.
    change (skip_ws ("#ifndef " ++ s ++ nl)) with ("#ifndef " ++ s ++ nl).
    change (starts_with "#ifdef" ("#ifndef " ++ s ++ nl)) with false.
    change (starts_with "#ifndef" ("#ifndef " ++ s ++ nl)) with true. cbv iota.
    change (drop 7 ("#ifndef " ++ s ++ nl)) with (String " "%char (s ++ nl)).
    now rewrite (directive_symbol_line s Hs Hl).
Qed.

Lemma define_then_ifdef_witness :
  exists data',
    parse_define ("#define " ++ "FLEXIBLE" ++ nl) empty_data = Some data'
    /\ is_defined data' "FLEXIBLE" = true
    /\ parse_ifdef ("#ifdef " ++ "FLEXIBLE" ++ nl) = Some ("FLEXIBLE", false)
    /\ parse_ifdef ("#ifndef " ++ "FLEXIBLE" ++ nl) = Some ("FLEXIBLE", true).
Proof.
  apply (define_then_ifdef empty_data "FLEXIBLE");
    [reflexivity | simpl; lia | unfold MAX_DEFINES; simpl; lia].
Defined.

(** ** What a parse can do to the data

    Every change the parser makes to the data is one of six steps: a
    symbol defined, an atom type, a roster entry or a fresh molecule type
    appended while its table has room, and an atom, bond, angle or
    dihedral record appended to a molecule type of the table.  A
    relation that these steps respect holds between the data before and
    after any parse. *)

Lemma take_length (n : nat) (s : string) : (String.length (take n s) <= n)%nat.
Proof.
  revert s. induction n as [|n IH]; intros s; [simpl; lia|].
  destruct s as [|c s]; simpl; [lia|]. specialize (IH s). lia.
Qed.

Lemma scan_s_width (w : nat) (s tok rest : string) :
  scan_s w s = Some (tok, rest) -> (String.length tok <= w)%nat.
Proof.
  unfold scan_s. destruct (span_nonspace (skip_ws s)) as [t r].
  destruct (strempty t); [discriminate|].
  intros H. injection H as <- _. apply take_length.
Qed.

Lemma section_loop_rel {S : Type} (Q : S -> S -> Prop) (record : string -> S -> S) :
  (forall st, Q st st) ->
  (forall a b c, Q a b -> Q b c -> Q a c) ->
  (forall line st, Q st (record line st)) ->
  forall fp st, Q st (snd (section_loop record fp st)).
Proof.
  intros Qr Qt Hrec. induction fp as [|raw rest IH]; intros st; cbn [section_loop].
  - apply Qr.
  - destruct (is_preprocessor_directive raw); [apply Qr|].
    destruct (strempty (strip_comments raw)); [apply IH|].
    destruct (is_section_header (strip_comments raw)); [apply Qr|].
    eapply Qt; [apply Hrec | apply IH].
Qed.

Lemma parse_moleculetype_header_fresh (fp : list string) :
  forall fp' mt,
    parse_moleculetype_header fp create_moltype = (true, fp', mt) ->
    exists nm nr, mt = mk_moltype (take 31 nm) nr [] [] [] [].
Proof.
  induction fp as [|raw rest IH]; intros fp' mt; cbn [parse_moleculetype_header];
    [discriminate|].
  destruct (strempty (strip_comments raw)); [apply IH|].
  destruct (is_section_header (strip_comments raw)); [discriminate|].
  destruct (scan_s 31 (strip_comments raw)) as [[nm r]|]; [|apply IH].
  intros H. injection H as _ <-. now eexists _, _.
Qed.

Lemma parse_define_symbol (line : string) (d d' : grotop_data) :
  parse_define line d = Some d' ->
  exists s, (String.length s <= 63)%nat /\ d' = add_define d s.
Proof.
  unfold parse_define. destruct (starts_with "#define" (skip_ws line)); [|discriminate].
  unfold directive_symbol.
  destruct (span_nonspace (skip_ws (drop 7 (skip_ws line)))) as [sym r].
  destruct (Nat.eqb (String.length sym) 0); [discriminate|].
  destruct (Nat.leb_spec 64 (String.length sym)) as [|Hlen]; [discriminate|].
  cbn. intros E. injection E as <-. exists sym. split; [lia | reflexivity].
Qed.

Section ParseSteps.

Variable scan_float : string -> option (float * string).

Lemma sscanf_atom_fits (line : string) (a : atom_data_t) :
  sscanf_atom scan_float line = Some a -> atom_fits a.
Proof.
  unfold sscanf_atom.
  destruct (scan_d line) as [[i r1]|]; [|discriminate].
  destruct (scan_s 15 r1) as [[ty r2]|] eqn:E1; [|discriminate].
  destruct (scan_d r2) as [[rn r3]|]; [|discriminate].
  destruct (scan_s 7 r3) as [[res r4]|] eqn:E2; [|discriminate].
  destruct (scan_s 15 r4) as [[an r5]|] eqn:E3; [|discriminate].
  destruct (scan_d r5) as [[cg r6]|]; [|discriminate].
  destruct (scan_f scan_float r6) as [[q r7]|]; [|discriminate].
  intros H. injection H as <-. unfold atom_fits. cbn.
  repeat split; eapply scan_s_width; eassumption.
Qed.

(** The relation on the data, and the one on a molecule type. *)
Variable R : grotop_data -> grotop_data -> Prop.
Variable M : moltype_t -> moltype_t -> Prop.

Hypothesis R_refl : forall d, R d d.
Hypothesis R_trans : forall a b c, R a b -> R b c -> R a c.
Hypothesis M_refl : forall m, M m m.
Hypothesis M_trans : forall a b c, M a b -> M b c -> M a c.

Hypothesis R_define :
  forall d s, (String.length s <= 63)%nat -> R d (add_define d s).
Hypothesis R_atomtype :
  forall d nm m,
    (List.length (atomtypes d) < MAX_ATOMTYPES)%nat ->
    R d (set_atomtypes d (atomtypes d ++ [mk_atomtype (take 15 nm) m])).
Hypothesis R_molecule :
  forall d nm cnt,
    (List.length (molecules d) < MAX_MOLECULES)%nat ->
    R d (set_molecules d (molecules d ++ [(take 31 nm, cnt)])).
Hypothesis R_moltype :
  forall d nm nr,
    (List.length (moltypes d) < MAX_MOLTYPES)%nat ->
    R d (set_moltypes d (moltypes d ++ [mk_moltype (take 31 nm) nr [] [] [] []])).
Hypothesis R_update :
  forall d i mt mt',
    nth_error (moltypes d) i = Some mt -> M mt mt' ->
    R d (set_moltypes d (set_nth i mt' (moltypes d))).
Hypothesis M_atom :
  forall mt a, atom_fits a -> M mt (set_atoms mt (atoms mt ++ [a])).
Hypothesis M_bond :
  forall mt b, M mt (set_bonds mt (bonds mt ++ [b])).
Hypothesis M_angle :
  forall mt a, M mt (set_angles mt (angles mt ++ [a])).
Hypothesis M_dihedral :
  forall mt d, M mt (set_dihedrals mt (dihedrals mt ++ [d])).

Lemma atomtype_record_step (line : string) (d : grotop_data) :
  R d (atomtype_record scan_float line d).
Proof.
  unfold atomtype_record.
  destruct (parse_atomtype_line scan_float line) as [[nm m]|]; [|apply R_refl].
  destruct (Nat.ltb_spec (List.length (atomtypes d)) MAX_ATOMTYPES);
    [now apply R_atomtype | apply R_refl].
Qed.

Lemma molecule_record_step (line : string) (d : grotop_data) :
  R d (molecule_record line d).
Proof.
  unfold molecule_record.
  destruct (sscanf_molecule line) as [[nm cnt]|]; [|apply R_refl].
  destruct (Nat.ltb_spec (List.length (molecules d)) MAX_MOLECULES);
    [now apply R_molecule | apply R_refl].
Qed.

Lemma atom_record_step (line : string) (mt : moltype_t) :
  M mt (atom_record scan_float line mt).
Proof.
  unfold atom_record. destruct (sscanf_atom scan_float line) as [a|] eqn:E;
    [|apply M_refl].
  apply M_atom. eapply sscanf_atom_fits; eassumption.
Qed.

Lemma bond_record_step (line : string) (mt : moltype_t) : M mt (bond_record line mt).
Proof.
  unfold bond_record. destruct (sscanf_pair line) as [[ai aj]|];
    [apply M_bond | apply M_refl].
Qed.

Lemma angle_record_step (line : string) (mt : moltype_t) : M mt (angle_record line mt).
Proof.
  unfold angle_record. destruct (sscanf_triple line) as [[[ai aj] ak]|];
    [apply M_angle | apply M_refl].
Qed.

Lemma dihedral_record_step (line : string) (mt : moltype_t) :
  M mt (dihedral_record line mt).
Proof.
  unfold dihedral_record. destruct (sscanf_dihedral line) as [d|];
    [apply M_dihedral | apply M_refl].
Qed.

Lemma on_current_mt_step
      (parse : list string -> moltype_t -> list string * moltype_t)
      (fp : list string) (d : grotop_data) (i : nat) :
  (forall fp mt, M mt (snd (parse fp mt))) ->
  R d (snd (on_current_mt parse fp d i)).
Proof.
  intros H. unfold on_current_mt.
  destruct (nth_error (moltypes d) i) as [mt|] eqn:E; [|apply R_refl].
  specialize (H fp mt). destruct (parse fp mt) as [fp' mt']. cbn in *.
  now apply (R_update d i mt mt').
Qed.

Lemma process_section_step (fp : list string) (section : string)
      (d : grotop_data) (cur : option nat) :
  R d (snd (fst (process_section scan_float fp section d cur))).
Proof.
  assert (O : forall parse,
             (forall fp mt, M mt (snd (parse fp mt))) ->
             forall others : bool * list string * grotop_data * option nat,
               R d (snd (fst others)) ->
               R d (snd (fst
                     match
                       match cur with
                       | Some i =>
                           let '(fp', data') := on_current_mt parse fp d i in
                           Some (true, fp', data', cur)
                       | None => None
                       end
                     with
                     | Some x => x
                     | None => others
                     end))).
  { intros parse Hp others Ho. destruct cur as [i|]; [|exact Ho].
    pose proof (on_current_mt_step parse fp d i Hp) as H.
    destruct (on_current_mt parse fp d i). exact H. }
  assert (Others :
            R d (snd (fst
                  (if String.eqb section "molecules"
                   then let '(fp', data') := parse_molecules_section fp d in
                        (true, fp', data', cur)
                   else if is_skipped_section section
                        then (true, skip_section fp, d, cur)
                        else (true, fp, d, cur))))).
  { destruct (String.eqb section "molecules").
    - unfold parse_molecules_section.
      pose proof (section_loop_rel R molecule_record R_refl R_trans
                                   molecule_record_step fp d) as H.
      destruct (section_loop molecule_record fp d). exact H.
    - destruct (is_skipped_section section); apply R_refl. }
  unfold process_section.
  destruct (String.eqb section "atomtypes").
  { unfold parse_atomtypes_section.
    pose proof (section_loop_rel R (atomtype_record scan_float) R_refl R_trans
                                 atomtype_record_step fp d) as H.
    destruct (section_loop (atomtype_record scan_float) fp d). exact H. }
  destruct (String.eqb section "moleculetype").
  { destruct (parse_moleculetype_header fp create_moltype) as [[ok fp'] mt] eqn:E.
    destruct ok; cbn [negb]; [|apply R_refl].
    destruct (Nat.ltb_spec (List.length (moltypes d)) MAX_MOLTYPES);
      [|apply R_refl].
    destruct (parse_moleculetype_header_fresh fp fp' mt E) as [nm [nr ->]].
    now apply R_moltype. }
  destruct (String.eqb section "atoms").
  { apply O; [|exact Others]. intros fp0 mt0. unfold parse_atoms_section.
    apply section_loop_rel; auto. apply atom_record_step. }
  destruct (String.eqb section "bonds").
  { apply O; [|exact Others]. intros fp0 mt0. unfold parse_bonds_section.
    apply section_loop_rel; auto. apply bond_record_step. }
  destruct (String.eqb section "constraints").
  { apply O; [|exact Others]. intros fp0 mt0. unfold parse_constraints_section.
    apply section_loop_rel; auto. apply bond_record_step. }
  destruct (String.eqb section "angles").
  { apply O; [|exact Others]. intros fp0 mt0. unfold parse_angles_section.
    apply section_loop_rel; auto. apply angle_record_step. }
  destruct (String.eqb section "dihedrals").
  { apply O; [|exact Others]. intros fp0 mt0. unfold parse_dihedrals_section.
    apply section_loop_rel; auto. apply dihedral_record_step. }
  exact Others.
Qed.

Section Loop.

Variable parse_include_file : string -> grotop_data -> result grotop_data.
Variable filepath : string.
Hypothesis include_step :
  forall path d d', parse_include_file path d = Done d' -> R d d'.

Lemma parse_loop_step :
  forall fuel fp st d',
    parse_loop scan_float parse_include_file filepath fuel fp st = Done d' ->
    R (fr_data st) d'.
Proof.
  induction fuel as [|fuel IH]; intros fp st d' H; [discriminate|].
  destruct fp as [|line rest].
  { injection H as <-. apply R_refl. }
  assert (Re : forall data stack,
             R (fr_data st) data ->
             (if negb (strempty (current_section st))
              then match process_section scan_float rest (current_section st)
                                         data (current_mt st) with
                   | (true, fp', data', mt') =>
                       parse_loop scan_float parse_include_file filepath fuel fp'
                                  (mk_frame data' mt' (current_section st) stack)
                   | (false, _, _, _) => Fatal
                   end
              else parse_loop scan_float parse_include_file filepath fuel rest
                              (mk_frame data (current_mt st)
                                        (current_section st) stack))
             = Done d' ->
             R (fr_data st) d').
  { intros data stack Hd.
    destruct (negb (strempty (current_section st))).
    - pose proof (process_section_step rest (current_section st) data
                                       (current_mt st)) as P.
      destruct (process_section scan_float rest (current_section st) data
                                (current_mt st)) as [[[ok fp'] d1] c1].
      cbn in P. destruct ok; [|discriminate]. intros E.
      apply IH in E. cbn in E. eauto.
    - intros E. apply IH in E. cbn in E. eauto. }
  cbn [parse_loop] in H.
  destruct (parse_define line (fr_data st)) as [data'|] eqn:Ed.
  { apply (Re data' (ifdef_stack st)); [|exact H].
    destruct (parse_define_symbol _ _ _ Ed) as [s [Hs ->]]. now apply R_define. }
  destruct (parse_ifdef line) as [[symbol is_ifndef]|].
  { destruct (Nat.leb MAX_IFDEF_DEPTH (List.length (ifdef_stack st)));
      [discriminate|]. eapply Re; [apply R_refl | exact H]. }
  destruct (is_else_directive line).
  { destruct (ifdef_stack st); [discriminate|].
    eapply Re; [apply R_refl | exact H]. }
  destruct (is_endif_directive line).
  { destruct (ifdef_stack st); [discriminate|].
    eapply Re; [apply R_refl | exact H]. }
  destruct (negb (should_process (ifdef_stack st))); [now apply IH in H|].
  destruct (parse_include line filepath) as [include_path|].
  { destruct (parse_include_file include_path (fr_data st)) as [d1| |] eqn:Ei;
      try discriminate.
    apply IH in H. cbn in H. apply include_step in Ei. eauto. }
  destruct (strempty (strip_comments line)); [now apply IH in H|].
  destruct (is_section_header (strip_comments line)) as [section|];
    [|now apply IH in H].
  pose proof (process_section_step rest section (fr_data st) (current_mt st)) as P.
  destruct (process_section scan_float rest section (fr_data st) (current_mt st))
    as [[[ok fp'] d1] c1].
  cbn in P. destruct ok; [|discriminate]. apply IH in H. cbn in H. eauto.
Qed.

End Loop.

Lemma parse_topology_file_step (fs : filesystem) :
  forall levels filepath d d',
    parse_topology_file scan_float fs levels filepath d = Done d' -> R d d'.
Proof.
  induction levels as [|levels IH]; intros filepath d d' H; [discriminate|].
  cbn [parse_topology_file] in H. destruct (fs filepath) as [content|];
    [|discriminate].
  apply (parse_loop_step _ filepath (IH)) in H. exact H.
Qed.

End ParseSteps.

(** ** Capacities and field widths *)

Lemma add_define_cases (d : grotop_data) (s : string) :
  add_define d s = d
  \/ ((List.length (defines d) < MAX_DEFINES)%nat
      /\ ~ In s (defines d)
      /\ add_define d s = set_defines d (defines d ++ [take 63 s])).
Proof.
  unfold add_define.
  destruct (Nat.leb_spec MAX_DEFINES (List.length (defines d))); [now left|].
  destruct (is_defined d s) eqn:E; [now left|]. right. repeat split; [lia|].
  intros Hin. apply is_defined_In in Hin. congruence.
Qed.

Lemma Forall_snoc {A : Type} (P : A -> Prop) (l : list A) (x : A) :
  Forall P l -> P x -> Forall P (l ++ [x]).
Proof.
  intros Hl Hx. apply Forall_app. split; [exact Hl | now constructor].
Qed.

Lemma set_nth_length {A : Type} (i : nat) (x : A) (l : list A) :
  List.length (set_nth i x l) = List.length l.
Proof.
  revert i. induction l as [|a l IH]; intros i; [now destruct i|].
  destruct i; simpl; [reflexivity | now rewrite IH].
Qed.

Lemma set_nth_Forall {A : Type} (P : A -> Prop) (i : nat) (x : A) (l : list A) :
  Forall P l -> P x -> Forall P (set_nth i x l).
Proof.
  intros Hl Hx. revert i. induction Hl as [|a l Ha Hl IH]; intros i;
    [destruct i; constructor|].
  destruct i; simpl; constructor; auto.
Qed.

Lemma nth_error_Forall {A : Type} (P : A -> Prop) (l : list A) (i : nat) (x : A) :
  Forall P l -> nth_error l i = Some x -> P x.
Proof.
  intros Hl Hx. rewrite Forall_forall in Hl. apply Hl.
  eapply nth_error_In; eassumption.
Qed.

Ltac fields :=
  cbn [moltypes atomtypes molecules defines
       set_moltypes set_atomtypes set_molecules set_defines
       name nrexcl atoms bonds angles dihedrals
       set_atoms set_bonds set_angles set_dihedrals
       at_name at_mass fst snd].

Lemma parse_keeps_tables_fit
      (scan_float : string -> option (float * string)) (fs : filesystem) :
  forall levels filepath d d',
    parse_topology_file scan_float fs levels filepath d = Done d' ->
    tables_fit d -> tables_fit d'.
Proof.
  apply (parse_topology_file_step
           scan_float
           (fun d d' => tables_fit d -> tables_fit d')
           (fun m m' => moltype_fits m -> moltype_fits m')); auto.
  - intros d s Hs (H1 & H2 & H3 & H4 & H5 & H6 & H7 & H8 & H9).
    destruct (add_define_cases d s) as [-> | (Hroom & Hnew & ->)];
      [now repeat split|].
    destruct (take_all 63 s Hs) as [E _]. rewrite E.
    repeat split; fields; auto.
    + rewrite length_app. simpl. lia.
    + now apply NoDup_snoc.
    + now apply Forall_snoc.
  - intros d nm m Hroom (H1 & H2 & H3 & H4 & H5 & H6 & H7 & H8 & H9).
    repeat split; fields; auto.
    + rewrite length_app. simpl. lia.
    + apply Forall_snoc; [exact H7 | apply take_length].
  - intros d nm cnt Hroom (H1 & H2 & H3 & H4 & H5 & H6 & H7 & H8 & H9).
    repeat split; fields; auto.
    + rewrite length_app. simpl. lia.
    + apply Forall_snoc; [exact H8 | apply take_length].
  - intros d nm nr Hroom (H1 & H2 & H3 & H4 & H5 & H6 & H7 & H8 & H9).
    repeat split; fields; auto.
    + rewrite length_app. simpl. lia.
    + apply Forall_snoc; [exact H9|]. split; [apply take_length | constructor].
  - intros d i mt mt' Hi Hm (H1 & H2 & H3 & H4 & H5 & H6 & H7 & H8 & H9).
    repeat split; fields; auto.
    + now rewrite set_nth_length.
    + apply set_nth_Forall; [exact H9|]. apply Hm.
      eapply nth_error_Forall; eassumption.
  - intros mt a Ha [Hn Hat]. split; fields; [exact Hn | now apply Forall_snoc].
Qed.

Lemma tables_fit_empty : tables_fit empty_data.
Proof.
  unfold tables_fit, empty_data, MAX_MOLTYPES, MAX_ATOMTYPES, MAX_MOLECULES,
    MAX_DEFINES. cbn.
  repeat split; try lia; constructor.
Qed.

(** X7.  Whatever the files hold, the tables of a handle that
    [open_grotop_read] returns are within their capacities (500 molecule
    types, 1000 atom types, 1000 roster entries, 100 symbols), every
    stored string fits its buffer (symbols 63 characters, molecule-type
    and roster names 31, atom-type names, atom types and atom names 15,
    residue names 7), and no symbol is stored twice. *)
Theorem open_tables_fit
        (scan_float : string -> option (float * string)) (fs : filesystem)
        (filepath : string) (h : grotop_data) :
  open_grotop_read scan_float fs filepath = Some h -> tables_fit h.
Proof.
  unfold open_grotop_read.
  destruct (parse_topology_file scan_float fs (S MAX_INCLUDES) filepath empty_data)
    as [d| |] eqn:E; try discriminate.
  pose proof (parse_keeps_tables_fit scan_float fs _ _ _ _ E tables_fit_empty) as F.
  unfold open_finish. destruct (calculate_total_atoms d <? 0); [discriminate|].
  intros H. injection H as <-. exact F.
Qed.

Lemma open_tables_fit_witness : tables_fit water_handle.
Proof.
  apply (open_tables_fit scan_float_dec (single_file water_x3) "topol.top").
  vm_compute. reflexivity.
Defined.

(** ** Parsing only appends *)

Lemma is_prefix_refl {A : Type} (l : list A) : is_prefix l l.
Proof. exists []. now rewrite app_nil_r. Qed.

Lemma is_prefix_trans {A : Type} (a b c : list A) :
  is_prefix a b -> is_prefix b c -> is_prefix a c.
Proof.
  intros [t1 ->] [t2 ->]. exists (t1 ++ t2)%list. now rewrite app_assoc.
Qed.

Lemma is_prefix_snoc {A : Type} (l : list A) (x : A) : is_prefix l (l ++ [x]).
Proof. now exists [x]. Qed.

Lemma mt_grows_refl (m : moltype_t) : mt_grows m m.
Proof. repeat split; apply is_prefix_refl. Qed.

Lemma mt_grows_trans (a b c : moltype_t) :
  mt_grows a b -> mt_grows b c -> mt_grows a c.
Proof.
  intros (N1 & X1 & A1 & B1 & G1 & D1) (N2 & X2 & A2 & B2 & G2 & D2).
  repeat split; try congruence; eapply is_prefix_trans; eassumption.
Qed.

Lemma Forall2_mt_grows_refl (l : list moltype_t) : Forall2 mt_grows l l.
Proof. induction l; constructor; [apply mt_grows_refl | assumption]. Qed.

Lemma Forall2_mt_grows_trans (a b c : list moltype_t) :
  Forall2 mt_grows a b -> Forall2 mt_grows b c -> Forall2 mt_grows a c.
Proof.
  intros H. revert c. induction H as [|x y a b Hxy Hab IH]; intros c Hc.
  - inversion Hc. constructor.
  - inversion Hc as [|? z ? c' Hyz Hbc]; subst. constructor.
    + eapply mt_grows_trans; eassumption.
    + now apply IH.
Qed.

Lemma grows_refl (d : grotop_data) : grows d d.
Proof.
  repeat split; try apply is_prefix_refl.
  exists (moltypes d), []. split; [now rewrite app_nil_r|].
  apply Forall2_mt_grows_refl.
Qed.

Lemma grows_trans (a b c : grotop_data) : grows a b -> grows b c -> grows a c.
Proof.
  intros (D1 & A1 & M1 & k1 & a1 & E1 & F1) (D2 & A2 & M2 & k2 & a2 & E2 & F2).
  repeat split; try (eapply is_prefix_trans; eassumption).
  rewrite E1 in F2. apply Forall2_app_inv_l in F2.
  destruct F2 as (k21 & k22 & G1 & G2 & ->).
  exists k21, (k22 ++ a2)%list. split; [now rewrite E2, app_assoc|].
  eapply Forall2_mt_grows_trans; eassumption.
Qed.

Lemma set_nth_grows (l : list moltype_t) :
  forall i mt mt',
    nth_error l i = Some mt -> mt_grows mt mt' ->
    Forall2 mt_grows l (set_nth i mt' l).
Proof.
  induction l as [|a l IH]; intros i mt mt' Hi Hm; [destruct i; discriminate|].
  destruct i; simpl in *.
  - injection Hi as ->. constructor; [exact Hm | apply Forall2_mt_grows_refl].
  - constructor; [apply mt_grows_refl | eapply IH; eassumption].
Qed.

Lemma parse_grows
      (scan_float : string -> option (float * string)) (fs : filesystem) :
  forall levels filepath d d',
    parse_topology_file scan_float fs levels filepath d = Done d' -> grows d d'.
Proof.
  apply (parse_topology_file_step scan_float grows mt_grows).
  - exact grows_refl.
  - exact grows_trans.
  - exact mt_grows_refl.
  - exact mt_grows_trans.
  - intros d s _. destruct (add_define_cases d s) as [-> | (_ & _ & ->)];
      [apply grows_refl|].
    repeat split; fields; try apply is_prefix_refl; [apply is_prefix_snoc|].
    exists (moltypes d), []. split; [now rewrite app_nil_r|].
    apply Forall2_mt_grows_refl.
  - intros d nm m _.
    repeat split; fields; try apply is_prefix_refl; [apply is_prefix_snoc|].
    exists (moltypes d), []. split; [now rewrite app_nil_r|].
    apply Forall2_mt_grows_refl.
  - intros d nm cnt _.
    repeat split; fields; try apply is_prefix_refl; [apply is_prefix_snoc|].
    exists (moltypes d), []. split; [now rewrite app_nil_r|].
    apply Forall2_mt_grows_refl.
  - intros d nm nr _.
    repeat split; fields; try apply is_prefix_refl.
    eexists (moltypes d), _. split; [reflexivity|].
    apply Forall2_mt_grows_refl.
  - intros d i mt mt' Hi Hm.
    repeat split; fields; try apply is_prefix_refl.
    exists (set_nth i mt' (moltypes d)), []. split; [now rewrite app_nil_r|].
    eapply set_nth_grows; eassumption.
  - intros mt a _. repeat split; fields; try apply is_prefix_refl.
    apply is_prefix_snoc.
  - intros mt b. repeat split; fields; try apply is_prefix_refl.
    apply is_prefix_snoc.
  - intros mt a. repeat split; fields; try apply is_prefix_refl.
    apply is_prefix_snoc.
  - intros mt x. repeat split; fields; try apply is_prefix_refl.
    apply is_prefix_snoc.
Qed.

Lemma find_prefix {A : Type} (f : A -> bool) (l tail : list A) (x : A) :
  find f l = Some x -> find f (l ++ tail) = Some x.
Proof.
  induction l as [|a l IH]; [discriminate|]. simpl.
  destruct (f a); [trivial | exact IH].
Qed.

Lemma find_moltype_grows (nm : string) (l kept added : list moltype_t)
      (m : moltype_t) :
  Forall2 mt_grows l kept ->
  find (fun mt => String.eqb (name mt) nm) l = Some m ->
  exists m', find (fun mt => String.eqb (name mt) nm) (kept ++ added) = Some m'
             /\ mt_grows m m'.
Proof.
  intros F. induction F as [|x y l kept Hxy F IH]; [discriminate|].
  cbn [find app]. destruct Hxy as (N & Hrest). rewrite N.
  destruct (String.eqb (name x) nm).
  - intros H. injection H as <-. exists y. split; [reflexivity|].
    now split.
  - exact IH.
Qed.

(** X8.  A parse only appends.  Whatever the starting data and the
    files, when [parse_topology_file] succeeds every table starts with
    what it held before, every molecule type that was there is still
    at its index with its name, its [nrexcl] and at least the records it
    had.  So a symbol stays defined across the rest of the file and
    across included files, and the first definition of a name wins:
    a molecule-type name keeps resolving to the same entry, and an
    atom-type name to the same mass. *)
Theorem parse_only_appends
        (scan_float : string -> option (float * string)) (fs : filesystem)
        (levels : nat) (filepath : string) (d d' : grotop_data) :
  parse_topology_file scan_float fs levels filepath d = Done d' ->
  grows d d'
  /\ (forall x, is_defined d x = true -> is_defined d' x = true)
  /\ (forall nm m,
         find_moltype d nm = Some m ->
         exists m', find_moltype d' nm = Some m' /\ mt_grows m m')
  /\ (forall ty t,
         find (fun a => String.eqb (at_name a) ty) (atomtypes d) = Some t ->
         find_atomtype_mass d' ty = at_mass t).
Proof.
  intros H. pose proof (parse_grows scan_float fs _ _ _ _ H) as G.
  split; [exact G|].
  destruct G as ([td Hd] & [ta Ha] & _ & kept & added & Hm & F).
  repeat split.
  - intros x Hx. apply is_defined_In. apply is_defined_In in Hx.
    rewrite Hd. apply in_or_app. now left.
  - intros nm m Hf. unfold find_moltype in *. rewrite Hm.
    eapply find_moltype_grows; eassumption.
  - intros ty t Hf. unfold find_atomtype_mass. rewrite Ha.
    now rewrite (find_prefix _ _ ta t Hf).
Qed.

Lemma parse_only_appends_witness :
  grows empty_data water_data.
Proof.
  apply (parse_only_appends scan_float_dec (single_file water_x3)
                            (S MAX_INCLUDES) "topol.top" empty_data water_data).
  vm_compute. reflexivity.
Defined.

Lemma sums_fit_total (terms : list Z) :
  forall acc,
    INT_MIN <= acc <= INT_MAX -> sums_fit acc terms = true ->
    INT_MIN <= acc + zsum terms <= INT_MAX.
Proof.
  induction terms as [|x rest IH]; intros acc Ha H; [simpl; lia|].
  cbn [sums_fit] in H. apply andb_prop in H. destruct H as [H Hr].
  apply andb_prop in H. destruct H as [_ Hx]. apply in_int_range in Hx.
  cbn [zsum fold_right]. specialize (IH _ Hx Hr). unfold zsum in IH. lia.
Qed.

(** ** The atom count and the atom table *)

Lemma total_atoms_loop_cases (data : grotop_data) :
  forall roster total,
    ((exists e, In e roster /\ find_moltype data (fst e) = None)
     /\ total_atoms_loop data roster total = -1)
    \/ (Forall (fun e => find_moltype data (fst e) <> None) roster
        /\ total_atoms_loop data roster total
           = total + zsum (map (entry_total natoms data) roster)).
Proof.
  induction roster as [|[nm cnt] rest IH]; intros total.
  - right. split; [constructor | simpl; lia].
  - cbn [total_atoms_loop]. destruct (find_moltype data nm) as [mt|] eqn:Hf.
    + destruct (IH (total + natoms mt * cnt)) as [[[e [Hin He]] E] | [F E]].
      * left. split; [|exact E]. exists e. split; [now right | exact He].
      * right. split.
        -- constructor; [cbn; congruence | exact F].
        -- rewrite E. cbn [map zsum fold_right]. unfold entry_total at 2.
           cbn [fst snd]. rewrite Hf. unfold zsum. lia.
    + left. split; [|reflexivity]. exists (nm, cnt). split; [now left | exact Hf].
Qed.

Lemma entry_total_atoms (data : grotop_data) (roster : list entry) :
  counts_nonneg roster ->
  zsum (map (entry_total natoms data) roster) = zsum (map (entry_atoms data) roster).
Proof.
  intros H. f_equal. apply map_ext_in. intros e He.
  unfold counts_nonneg in H. rewrite Forall_forall in H. specialize (H e He).
  unfold entry_total, entry_atoms. destruct (find_moltype data (fst e)); [|reflexivity].
  rewrite (copies_nonneg e H). lia.
Qed.

Lemma entry_atoms_nonneg (data : grotop_data) (l : list entry) :
  0 <= zsum (map (entry_atoms data) l).
Proof.
  induction l as [|e l IH]; simpl; [lia|]. unfold entry_atoms at 1.
  destruct (find_moltype data (fst e)); unfold natoms; nia.
Qed.

Lemma read_structure_length (data : grotop_data) :
  Z.of_nat (List.length (read_grotop_structure data))
  = zsum (map (entry_atoms data) (molecules data)).
Proof.
  rewrite read_grotop_structure_eq.
  assert (G : forall roster prev,
             Z.of_nat (List.length
                         (spec_instances data (emit_copy data) prev roster))
             = zsum (map (entry_atoms data) roster)).
  { induction roster as [|e rest IH]; intros prev; [reflexivity|].
    cbn [spec_instances map zsum fold_right].
    rewrite length_app, Nat2Z.inj_add, IH. f_equal.
    unfold entry_atoms. destruct (find_moltype data (fst e)) as [mt|]; [|reflexivity].
    rewrite (length_flat_map_const _ (List.length (atoms mt)))
      by (intros; unfold emit_copy; apply length_map).
    rewrite length_seq, Nat2Z.inj_mul. reflexivity. }
  apply G.
Qed.

(** X9.  As long as no [int] computation of the totals leaves the
    range of the type, the open succeeds exactly as far as the roster
    allows: a handle is returned only if every roster entry names a
    defined molecule type, and it is returned whenever they all do and
    no count is negative.  For such a roster, and without overflow in
    [read_grotop_structure], the atom count the open reports is the
    number of atoms [read_grotop_structure] writes. *)
Theorem open_atom_count :
  (forall data h,
      totals_fit data = true ->
      open_finish data = Some h -> roster_resolves h)
  /\ (forall data,
         totals_fit data = true ->
         roster_resolves data -> counts_nonneg (molecules data) ->
         exists h, open_finish data = Some h)
  /\ (forall data h,
         totals_fit data = true -> structure_fits h = true ->
         open_finish data = Some h -> counts_nonneg (molecules data) ->
         total_atoms h = Z.of_nat (List.length (read_grotop_structure h))
         /\ 0 <= total_atoms h <= INT_MAX).
Proof.
  split; [|split].
  - intros data h _ H. unfold open_finish, calculate_total_atoms in H.
    destruct (total_atoms_loop_cases data (molecules data) 0)
      as [[_ E] | [F _]].
    + rewrite E in H. discriminate.
    + destruct (total_atoms_loop data (molecules data) 0 <? 0); [discriminate|].
      injection H as <-. exact F.
  - intros data _ Hr Hn. unfold open_finish, calculate_total_atoms.
    destruct (total_atoms_loop_cases data (molecules data) 0)
      as [[[e [Hin He]] _] | [_ E]].
    + unfold roster_resolves in Hr. rewrite Forall_forall in Hr.
      now elim (Hr e Hin).
    + rewrite E, (entry_total_atoms data _ Hn).
      pose proof (entry_atoms_nonneg data (molecules data)).
      destruct (Z.ltb_spec (0 + zsum (map (entry_atoms data) (molecules data))) 0);
        [lia | now eexists].
  - intros data h Hfit _ H Hn. unfold open_finish, calculate_total_atoms in H.
    destruct (total_atoms_loop_cases data (molecules data) 0)
      as [[_ E] | [_ E]]; rewrite E in H; [discriminate|].
    destruct (Z.ltb_spec (0 + zsum (map (entry_total natoms data) (molecules data))) 0)
      as [|Hpos]; [discriminate|].
    injection H as <-. rewrite read_structure_length. fields.
    cbn [total_atoms]. rewrite (entry_total_atoms data _ Hn).
    split; [reflexivity|].
    rewrite (entry_total_atoms data _ Hn) in Hpos. split; [lia|].
    unfold totals_fit in Hfit.
    repeat (apply andb_prop in Hfit; destruct Hfit as [Hfit ?]).
    match goal with
    | F : sums_fit 0 (map (entry_total natoms data) _) = true |- _ =>
        pose proof (sums_fit_total _ 0 ltac:(unfold INT_MIN, INT_MAX; lia) F) as T
    end.
    rewrite (entry_total_atoms data _ Hn) in T. lia.
Qed.

Lemma open_atom_count_witness :
  roster_resolves water_handle
  /\ (exists h, open_finish water_data = Some h)
  /\ total_atoms water_handle
     = Z.of_nat (List.length (read_grotop_structure water_handle)).
Proof.
  destruct open_atom_count as [A [B C]]. split; [|split].
  - apply (A water_data); reflexivity.
  - apply B; [reflexivity | |]; repeat constructor; try discriminate; simpl; lia.
  - apply (C water_data);
      [reflexivity | reflexivity | reflexivity | repeat constructor; simpl; lia].
Defined.

(** ** Where an emitted record comes from *)

Lemma in_spec_instances {X : Type} (data : grotop_data)
      (emit : list entry -> nat -> moltype_t -> list X) (x : X) :
  forall roster prev,
    In x (spec_instances data emit prev roster) ->
    exists p e r c mt,
      roster = (p ++ e :: r)%list
      /\ find_moltype data (fst e) = Some mt
      /\ (c < copies e)%nat
      /\ In x (emit (prev ++ p)%list c mt).
Proof.
  induction roster as [|e rest IH]; intros prev H; [destruct H|].
  cbn [spec_instances] in H. apply in_app_or in H. destruct H as [H|H].
  - destruct (find_moltype data (fst e)) as [mt|] eqn:Hf; [|destruct H].
    apply in_flat_map in H. destruct H as [c [Hc Hx]].
    apply in_seq in Hc. exists [], e, rest, c, mt.
    rewrite app_nil_r. repeat split; [exact Hf | lia | exact Hx].
  - destruct (IH _ H) as (p & e' & r & c & mt & -> & Hf & Hc & Hx).
    exists (e :: p), e', r, c, mt. rewrite <- app_assoc in Hx.
    repeat split; assumption.
Qed.

Lemma find_moltype_In (data : grotop_data) (nm : string) (mt : moltype_t) :
  find_moltype data nm = Some mt -> In mt (moltypes data).
Proof. unfold find_moltype. intros H. now apply find_some in H. Qed.

Lemma offset_within_total (data : grotop_data) (p r : list entry) (e : entry)
      (c : nat) (mt : moltype_t) :
  find_moltype data (fst e) = Some mt -> (c < copies e)%nat ->
  0 <= spec_offset data p c mt
  /\ spec_offset data p c mt + natoms mt
     <= zsum (map (entry_atoms data) (p ++ e :: r)).
Proof.
  intros Hf Hc. unfold spec_offset. rewrite map_app, zsum_app.
  assert (He : entry_atoms data e = Z.of_nat (copies e) * natoms mt)
    by (unfold entry_atoms; now rewrite Hf).
  cbn [map zsum fold_right]. rewrite He.
  pose proof (entry_atoms_nonneg data p).
  pose proof (entry_atoms_nonneg data r). unfold zsum in *.
  assert (0 <= natoms mt) by (unfold natoms; lia). nia.
Qed.

Lemma bond_range_closed (d : grotop_data) :
  counts_nonneg (molecules d) ->
  bonds_in_range d ->
  total_bonds d = calculate_total_bonds d ->
  total_atoms d = zsum (map (entry_atoms d) (molecules d)) ->
  Forall (fun i => 1 <= i <= total_atoms d)
         (bond_from (read_grotop_bonds d) ++ bond_to (read_grotop_bonds d)).
Proof.
  intros Hn Hb Htb Ht.
  rewrite (read_bonds_closed d Hn Htb), Ht. cbn [bond_from bond_to].
  assert (P : forall pr, In pr (spec_bonds d) ->
                         1 <= fst pr <= zsum (map (entry_atoms d) (molecules d))
                         /\ 1 <= snd pr <= zsum (map (entry_atoms d) (molecules d))).
  { intros pr Hin. unfold spec_bonds in Hin.
    apply in_spec_instances in Hin.
    destruct Hin as (p & e & r & c & mt & Hm & Hf & Hc & Hx).
    cbn [app] in Hx. apply in_map_iff in Hx. destruct Hx as [b [<- Hbin]].
    pose proof (offset_within_total d p r e c mt Hf Hc) as [O1 O2].
    rewrite <- Hm in O2.
    unfold bonds_in_range in Hb. rewrite Forall_forall in Hb.
    specialize (Hb mt (find_moltype_In d _ mt Hf)).
    rewrite Forall_forall in Hb. specialize (Hb b Hbin).
    cbn [fst snd]. lia. }
  apply Forall_app. split; apply Forall_forall; intros i Hi;
    apply in_map_iff in Hi; destruct Hi as [pr [<- Hpr]]; now apply P.
Qed.

(** X10.  For a handle that [open_grotop_read] returned from a roster
    without negative counts, the totals and [read_grotop_bonds] being
    free of [int] overflow: if every bond of every molecule type joins
    two atoms of that molecule type (indices from 1 to its atom count),
    every index in the two bond arrays lies between 1 and the atom
    count of the system. *)
Theorem bond_indices_in_range (data h : grotop_data) :
  open_finish data = Some h ->
  counts_nonneg (molecules data) ->
  totals_fit data = true ->
  bonds_fit h = true ->
  bonds_in_range data ->
  Forall (fun i => 1 <= i <= total_atoms h)
         (bond_from (read_grotop_bonds h) ++ bond_to (read_grotop_bonds h)).
Proof.
  intros Ho Hn _ _ Hb.
  unfold open_finish, calculate_total_atoms in Ho.
  destruct (total_atoms_loop_cases data (molecules data) 0)
    as [[_ E] | [_ E]]; rewrite E in Ho; [discriminate|].
  destruct (0 + zsum (map (entry_total natoms data) (molecules data)) <? 0);
    [discriminate|].
  injection Ho as <-. apply bond_range_closed.
  - exact Hn.
  - exact Hb.
  - reflexivity.
  - cbn [total_atoms molecules]. rewrite (entry_total_atoms data _ Hn). reflexivity.
Qed.


Lemma bond_indices_in_range_witness :
  Forall (fun i => 1 <= i <= 9)
         (bond_from (read_grotop_bonds water_handle)
          ++ bond_to (read_grotop_bonds water_handle)).
Proof.
  apply (bond_indices_in_range water_data water_handle).
  - reflexivity.
  - repeat constructor; vm_compute; discriminate.
  - reflexivity.
  - reflexivity.
  - repeat constructor; vm_compute; discriminate.
Defined.

(** ** Residue numbers of successive entries *)

Lemma spec_min_max (mt : moltype_t) : spec_min_r mt <= spec_max_r mt.
Proof.
  destruct (atoms mt) as [|a l] eqn:E.
  - unfold spec_min_r, spec_max_r. rewrite E. simpl. lia.
  - assert (Ha : In a (atoms mt)) by (rewrite E; now left).
    pose proof (proj1 (spec_min_r_least mt a Ha)).
    pose proof (spec_max_r_greatest mt a Ha). lia.
Qed.

Lemma entry_residues_nonneg (data : grotop_data) (l : list entry) :
  0 <= zsum (map (entry_residues data) l).
Proof.
  induction l as [|e l IH]; simpl; [lia|]. unfold entry_residues at 1.
  destruct (find_moltype data (fst e)) as [mt|]; [|lia].
  pose proof (spec_min_max mt). unfold spec_nres. nia.
Qed.

Lemma emit_copy_resid_bounds (data : grotop_data) (prev p r : list entry)
      (e : entry) (c : nat) (mt : moltype_t) (x : molfile_atom_t) :
  find_moltype data (fst e) = Some mt -> (c < copies e)%nat ->
  In x (emit_copy data (prev ++ p) c mt) ->
  zsum (map (entry_residues data) prev) < m_resid x
  /\ m_resid x <= zsum (map (entry_residues data) (prev ++ p ++ e :: r)).
Proof.
  intros Hf Hc Hx. unfold emit_copy in Hx. apply in_map_iff in Hx.
  destruct Hx as [a [<- Ha]]. unfold emit_atom. cbn [m_resid].
  destruct (spec_min_r_least mt a Ha) as [Hmin _].
  pose proof (spec_max_r_greatest mt a Ha) as Hmax.
  unfold spec_resid_base. rewrite !map_app, !zsum_app.
  assert (He : entry_residues data e = Z.of_nat (copies e) * spec_nres mt)
    by (unfold entry_residues; now rewrite Hf).
  cbn [map zsum fold_right]. rewrite He.
  pose proof (spec_min_max mt).
  pose proof (entry_residues_nonneg data p).
  pose proof (entry_residues_nonneg data r). unfold zsum in *.
  unfold spec_nres. nia.
Qed.

(** X11.  Residue numbers are handed out entry after entry without
    overlap.  Provided no [int] computation of [read_grotop_structure]
    overflows: wherever the roster is cut in two, the atom table is the
    atoms of the entries before the cut followed by the atoms of the
    entries after it (as many as those entries lay out); the first have
    [resid] from 1 to the number of residues the entries before the cut
    lay out, and every one of the others has a larger [resid].
    (Cutting at the end bounds every [resid] by the number of residues
    of the system.) *)
Theorem resid_blocks (data : grotop_data) (pre post : list entry) :
  molecules data = (pre ++ post)%list ->
  structure_fits data = true ->
  let B := zsum (map (entry_residues data) pre) in
  exists before later,
    read_grotop_structure data = (before ++ later)%list
    /\ Z.of_nat (List.length before) = zsum (map (entry_atoms data) pre)
    /\ Z.of_nat (List.length later) = zsum (map (entry_atoms data) post)
    /\ Forall (fun a => 1 <= m_resid a <= B) before
    /\ Forall (fun a => B < m_resid a) later.
Proof.
  intros Hm _ B. subst B.
  exists (spec_instances data (emit_copy data) [] pre),
         (spec_instances data (emit_copy data) pre post).
  split; [|split; [|split; [|split]]].
  - now rewrite read_grotop_structure_eq, Hm, spec_instances_app.
  - apply instances_length.
  - apply instances_length.
  - apply Forall_forall. intros x Hx. apply in_spec_instances in Hx.
    destruct Hx as (p & e & r & c & mt & -> & Hf & Hc & Hx).
    pose proof (emit_copy_resid_bounds data [] p r e c mt x Hf Hc Hx) as [L U].
    cbn [app] in U. change (zsum (map (entry_residues data) [])) with 0 in L. lia.
  - apply Forall_forall. intros x Hx. apply in_spec_instances in Hx.
    destruct Hx as (p & e & r & c & mt & _ & Hf & Hc & Hx).
    now pose proof (emit_copy_resid_bounds data pre p [] e c mt x Hf Hc Hx) as [L _].
Qed.

Lemma resid_blocks_witness :
  exists before later,
    read_grotop_structure empty_between_data = (before ++ later)%list
    /\ Z.of_nat (List.length before) = 2
    /\ Z.of_nat (List.length later) = 2
    /\ Forall (fun a => 1 <= m_resid a <= 1) before
    /\ Forall (fun a => 1 < m_resid a) later.
Proof.
  exact (resid_blocks empty_between_data [("SOL", 1)] [("E", 2); ("SOL", 1)]
                      eq_refl eq_refl).
Defined.

(** ** Segment names and copied fields *)

Lemma toupper_idem (c : ascii) : toupper (toupper c) = toupper c.
Proof. destruct c as [[] [] [] [] [] [] [] []]; reflexivity. Qed.

Lemma strmap_length (f : ascii -> ascii) (s : string) :
  String.length (strmap f s) = String.length s.
Proof. induction s as [|c s IH]; simpl; [reflexivity | now rewrite IH]. Qed.

Lemma strmap_toupper_idem (s : string) :
  strmap toupper (strmap toupper s) = strmap toupper s.
Proof.
  induction s as [|c s IH]; [reflexivity|].
  cbn [strmap]. cbn [strmap] in IH. now rewrite toupper_idem, IH.
Qed.

Lemma make_segid_length (mt : moltype_t) : (String.length (make_segid mt) <= 4)%nat.
Proof. unfold make_segid. rewrite strmap_length. apply take_length. Qed.

(** X12.  Every atom [read_grotop_structure] emits carries the segment
    name of its own molecule type, the one its roster entry resolves
    to: the first four characters of that name, in upper case; the
    chain field is empty.  Atom by atom, in emission order, the pairs
    of segment name and chain are those of the instances.  A segment
    name has at most four characters and upper-casing it again changes
    nothing. *)
Theorem emitted_segid (data : grotop_data) :
  map (fun a => (m_segid a, m_chain a)) (read_grotop_structure data)
  = spec_instances data
      (fun _ _ mt =>
         map (fun _ => (strmap toupper (take 4 (name mt)), EmptyString))
             (atoms mt))
      [] (molecules data)
  /\ Forall (fun a =>
               (String.length (m_segid a) <= 4)%nat
               /\ strmap toupper (m_segid a) = m_segid a)
            (read_grotop_structure data).
Proof.
  assert (S7 : forall mt, take 7 (make_segid mt) = make_segid mt).
  { intros mt. pose proof (make_segid_length mt) as L.
    now destruct (take_all 7 (make_segid mt) ltac:(lia)) as [-> _]. }
  split.
  - rewrite read_grotop_structure_eq, map_spec_instances.
    apply spec_instances_ext. intros p c mt. unfold emit_copy.
    rewrite map_map. apply map_ext. intros a. unfold emit_atom.
    cbn [m_segid m_chain]. now rewrite S7.
  - apply Forall_forall. intros x Hx. rewrite read_grotop_structure_eq in Hx.
    apply in_spec_instances in Hx.
    destruct Hx as (p & e & r & c & mt & _ & Hf & _ & Hx).
    unfold emit_copy in Hx. apply in_map_iff in Hx. destruct Hx as [a [<- _]].
    unfold emit_atom. cbn [m_segid]. rewrite S7. split.
    + apply make_segid_length.
    + unfold make_segid. apply strmap_toupper_idem.
Qed.

Lemma spec_instances_ext_found {X : Type} (data : grotop_data)
      (emit1 emit2 : list entry -> nat -> moltype_t -> list X) :
  (forall prev copy mt, In mt (moltypes data) ->
                        emit1 prev copy mt = emit2 prev copy mt) ->
  forall roster prev,
    spec_instances data emit1 prev roster = spec_instances data emit2 prev roster.
Proof.
  intros E roster. induction roster as [|e rest IH]; intros prev; [reflexivity|].
  cbn [spec_instances]. rewrite IH.
  destruct (find_moltype data (fst e)) as [mt|] eqn:Hf; [|reflexivity].
  f_equal. apply flat_map_pointwise. intros c. apply E.
  eapply find_moltype_In; eassumption.
Qed.

(** X13.  Nothing is cut when the atoms are emitted from a handle that
    [open_grotop_read] returned: name, type, residue name and charge of
    every emitted atom are those of its atom record, character for
    character, in emission order. *)
Theorem emitted_fields_verbatim
        (scan_float : string -> option (float * string)) (fs : filesystem)
        (filepath : string) (h : grotop_data) :
  open_grotop_read scan_float fs filepath = Some h ->
  map (fun a => (m_name a, m_type a, m_resname a, m_charge a))
      (read_grotop_structure h)
  = map (fun r => (atom_name r, atom_type r, residue r, charge r))
        (spec_atom_records h).
Proof.
  unfold open_grotop_read.
  destruct (parse_topology_file scan_float fs (S MAX_INCLUDES) filepath empty_data)
    as [d| |] eqn:E; try discriminate.
  pose proof (parse_keeps_tables_fit scan_float fs _ _ _ _ E tables_fit_empty) as F.
  unfold open_finish. destruct (calculate_total_atoms d <? 0); [discriminate|].
  intros H. injection H as <-.
  destruct F as (_ & _ & _ & _ & _ & _ & _ & _ & F).
  rewrite read_grotop_structure_eq. unfold spec_atom_records.
  rewrite !map_spec_instances. apply spec_instances_ext_found.
  intros prev copy mt Hin. unfold emit_copy. rewrite map_map.
  apply map_ext_in. intros a Ha. unfold emit_atom.
  cbn [m_name m_type m_resname m_charge].
  rewrite Forall_forall in F. destruct (F mt Hin) as [_ Fa].
  rewrite Forall_forall in Fa. destruct (Fa a Ha) as (H1 & H2 & H3).
  destruct (take_all 15 _ H1) as [-> _]. destruct (take_all 7 _ H2) as [-> _].
  destruct (take_all 15 _ H3) as [-> _]. reflexivity.
Qed.

Lemma emitted_fields_verbatim_witness :
  map (fun a => (m_name a, m_type a, m_resname a, m_charge a))
      (read_grotop_structure water_handle)
  = map (fun r => (atom_name r, atom_type r, residue r, charge r))
        (spec_atom_records water_handle).
Proof.
  apply (emitted_fields_verbatim scan_float_dec (single_file water_x3) "topol.top").
  vm_compute. reflexivity.
Defined.

(** ** Angles, and the sizes of the connectivity arrays *)

Lemma filter_all {A : Type} (l : list A) : filter (fun _ => negb false) l = l.
Proof. induction l as [|a l IH]; [reflexivity|]. cbn. f_equal. exact IH. Qed.

Lemma filter_split_length {A : Type} (f : A -> bool) (l : list A) :
  (List.length (filter f l) + List.length (filter (fun x => negb (f x)) l)
   = List.length l)%nat.
Proof.
  induction l as [|a l IH]; [reflexivity|]. cbn [filter].
  destruct (f a); cbn [negb List.length]; lia.
Qed.

Lemma spec_instances_count {X : Type} (data : grotop_data)
      (emit : list entry -> nat -> moltype_t -> list X) (len : moltype_t -> nat) :
  (forall p c mt, List.length (emit p c mt) = len mt) ->
  forall roster prev,
    Z.of_nat (List.length (spec_instances data emit prev roster))
    = zsum (map (fun e =>
                   match find_moltype data (fst e) with
                   | Some mt => Z.of_nat (copies e) * Z.of_nat (len mt)
                   | None => 0
                   end) roster).
Proof.
  intros Hlen. induction roster as [|e rest IH]; intros prev; [reflexivity|].
  cbn [spec_instances map zsum fold_right].
  rewrite length_app, Nat2Z.inj_add, IH. f_equal.
  destruct (find_moltype data (fst e)) as [mt|]; [|reflexivity].
  rewrite (length_flat_map_const _ (len mt)) by (intros; apply Hlen).
  rewrite length_seq, Nat2Z.inj_mul. reflexivity.
Qed.

Lemma zsum_map_scale {E : Type} (k : Z) (f g : E -> Z) (l : list E) :
  (forall e, f e = k * g e) -> zsum (map f l) = k * zsum (map g l).
Proof.
  intros H. induction l as [|e l IH]; [simpl; lia|].
  change (f e + zsum (map f l) = k * (g e + zsum (map g l))).
  rewrite IH, H. lia.
Qed.

Lemma zsum_map_pointwise {E : Type} (f g : E -> Z) (l : list E) :
  (forall e, In e l -> f e = g e) -> zsum (map f l) = zsum (map g l).
Proof. intros H. f_equal. now apply map_ext_in. Qed.

Lemma zsum_map_add {E : Type} (f g : E -> Z) (l : list E) :
  zsum (map (fun e => f e + g e) l) = zsum (map f l) + zsum (map g l).
Proof.
  induction l as [|e l IH]; [reflexivity|].
  change (f e + g e + zsum (map (fun e => f e + g e) l)
          = f e + zsum (map f l) + (g e + zsum (map g l))).
  rewrite IH. lia.
Qed.

Lemma quads_length (data : grotop_data) (keep : dihedral_data_t -> bool) :
  Z.of_nat (List.length (spec_quads data keep)) = 4 * spec_quad_count data keep.
Proof.
  unfold spec_quads, spec_quad_count.
  rewrite (spec_instances_count
             data _ (fun mt => (List.length (filter keep (dihedrals mt)) * 4)%nat)).
  - apply zsum_map_scale. intros e. destruct (find_moltype data (fst e)); lia.
  - intros p c mt. apply length_flat_map_const. intros d. now rewrite length_map.
Qed.

Lemma read_angles_triples (d : grotop_data) :
  counts_nonneg (molecules d) ->
  total_angles d = calculate_total_angles d ->
  let r := read_grotop_angles d in
  numangles r = total_angles d
  /\ out_angles r = spec_triples d
  /\ Z.of_nat (List.length (out_angles r)) = 3 * numangles r.
Proof.
  intros Hn Ht.
  assert (T : total_angles d = zsum (map (entry_total nangles d) (molecules d))).
  { rewrite Ht. apply total_loop_eq. }
  assert (S3 : spec_instances d
                 (fun p c m =>
                    flat_map (fun a => map (fun i => i + spec_offset d p c m)
                                           (angle_indices a))
                             (filter (fun _ => negb false) (angles m)))
                 [] (molecules d)
               = spec_triples d).
  { unfold spec_triples. apply spec_instances_ext. intros p c m.
    now rewrite filter_all. }
  assert (L : Z.of_nat (List.length (spec_triples d)) = 3 * total_angles d).
  { unfold spec_triples.
    rewrite (spec_instances_length
               d _ (fun mt => (List.length (angles mt) * 3)%nat));
      [| intros p c mt; apply length_flat_map_const; intros a;
         now rewrite length_map
       | exact Hn].
    rewrite T. apply zsum_map_scale. intros e. unfold entry_total.
    destruct (find_moltype d (fst e)); unfold nangles; lia. }
  assert (P : (if total_angles d >? 0
               then let '(_, _, out) :=
                      instantiate_tuples (fun _ => false) angle_indices angles d in
                    (total_angles d, out)
               else (0, []))
              = (total_angles d, spec_triples d)).
  { unfold instantiate_tuples.
    rewrite (tuples_fold (fun _ => false) angle_indices angles d
                         (molecules d) []) by reflexivity.
    rewrite S3, Z.gtb_ltb. destruct (Z.ltb_spec 0 (total_angles d)) as [|Hle];
      [reflexivity|].
    assert (Z0 : total_angles d = 0) by lia.
    rewrite Z0 in L. apply length_zero_nil in L. now rewrite L, Z0. }
  unfold read_grotop_angles. rewrite P.
  destruct (if total_dihedrals d >? 0 then _ else _) as [nd dd].
  destruct (if total_impropers d >? 0 then _ else _) as [ni ii].
  cbn. repeat split. exact L.
Qed.

(** X14.  For a handle that [open_grotop_read] returned from a roster
    without negative counts, the totals and [read_grotop_angles] being
    free of [int] overflow, [read_grotop_angles] returns one triple
    [(ai + offset, aj + offset, ak + offset)] per angle record per copy,
    in roster, copy and record order, [offset] being the number of atoms
    laid out before the copy; [numangles] is the stored total and the
    array holds exactly three indices per angle. *)
Theorem read_angles_angles (data h : grotop_data) :
  open_finish data = Some h ->
  counts_nonneg (molecules data) ->
  totals_fit data = true ->
  angles_fit h = true ->
  let r := read_grotop_angles h in
  numangles r = total_angles h
  /\ out_angles r = spec_triples h
  /\ Z.of_nat (List.length (out_angles r)) = 3 * numangles r.
Proof.
  intros Ho Hn _ _. unfold open_finish in Ho.
  destruct (calculate_total_atoms data <? 0); [discriminate|].
  injection Ho as <-. apply read_angles_triples; [exact Hn | reflexivity].
Qed.

(** X15.  For a handle that [open_grotop_read] returned from a roster
    without negative counts, the totals and [read_grotop_angles] being
    free of [int] overflow, the proper and improper dihedrals that
    [read_grotop_angles] returns add up to the stored total of dihedral
    records, the impropers alone to the stored total of impropers, and
    each of the two arrays holds exactly four indices per entry: the
    array sized for [total_dihedrals] quads is never overrun. *)
Theorem dihedral_counts (data h : grotop_data) :
  open_finish data = Some h ->
  counts_nonneg (molecules data) ->
  totals_fit data = true ->
  angles_fit h = true ->
  let r := read_grotop_angles h in
  numdihedrals r + numimpropers r = total_dihedrals h
  /\ numimpropers r = total_impropers h
  /\ Z.of_nat (List.length (out_dihedrals r)) = 4 * numdihedrals r
  /\ Z.of_nat (List.length (out_impropers r)) = 4 * numimpropers r.
Proof.
  intros Ho Hn _ _. unfold open_finish in Ho.
  destruct (calculate_total_atoms data <? 0); [discriminate|].
  injection Ho as <-.
  match goal with |- let r := read_grotop_angles ?x in _ => set (h := x) end.
  destruct (read_angles_closed h Hn eq_refl eq_refl) as (D1 & D2 & I1 & I2).
  cbv zeta. rewrite D1, D2, I1, I2, !quads_length.
  assert (Imp : spec_quad_count h spec_is_improper = total_impropers h).
  { change (total_impropers h) with (calculate_total_impropers h).
    rewrite calculate_total_impropers_eq. unfold spec_quad_count.
    apply zsum_map_pointwise. intros e He.
    unfold counts_nonneg in Hn. rewrite Forall_forall in Hn.
    unfold entry_total. destruct (find_moltype h (fst e)) as [mt|]; [|reflexivity].
    rewrite (copies_nonneg e (Hn e He)). unfold nimpropers.
    rewrite (filter_ext is_improper spec_is_improper)
      by (intros; apply is_improper_spec).
    lia. }
  assert (Sum : spec_quad_count h spec_is_proper + spec_quad_count h spec_is_improper
                = total_dihedrals h).
  { change (total_dihedrals h) with (calculate_total_dihedrals h).
    unfold calculate_total_dihedrals. rewrite total_loop_eq.
    unfold spec_quad_count. rewrite <- zsum_map_add.
    apply zsum_map_pointwise. intros e He.
    unfold counts_nonneg in Hn. rewrite Forall_forall in Hn.
    unfold entry_total. destruct (find_moltype h (fst e)) as [mt|]; [|reflexivity].
    rewrite (copies_nonneg e (Hn e He)).
    pose proof (filter_split_length spec_is_improper (dihedrals mt)) as S.
    unfold spec_is_proper. unfold ndihedrals. lia. }
  repeat split; assumption.
Qed.

Lemma read_angles_angles_witness :
  let r := read_grotop_angles water_angles_handle in
  numangles r = 2
  /\ out_angles r = [2; 1; 3; 5; 4; 6]
  /\ Z.of_nat (List.length (out_angles r)) = 3 * numangles r.
Proof.
  refine (read_angles_angles water_angles_data water_angles_handle eq_refl _
                             eq_refl eq_refl).
  repeat constructor; vm_compute; discriminate.
Defined.

Lemma dihedral_counts_witness :
  let r := read_grotop_angles dihedral_handle in
  numdihedrals r + numimpropers r = 10
  /\ numimpropers r = 4
  /\ Z.of_nat (List.length (out_dihedrals r)) = 4 * numdihedrals r
  /\ Z.of_nat (List.length (out_impropers r)) = 4 * numimpropers r.
Proof.
  refine (dihedral_counts dihedral_data dihedral_handle eq_refl _
                          eq_refl eq_refl).
  repeat constructor; vm_compute; discriminate.
Defined.

(** ** What a section parser reads *)

(** X16.  Each record parser reads a run of lines and stops without
    consuming the line that stopped it: the lines it was given are the
    lines it passed over followed by the position it returns; none of
    the lines passed over is a directive or a section header; the
    position it returns is the end of the file or a directive or a
    section header; and its result is what the record handler makes,
    in order, of the passed-over lines that are not empty once their
    comment is stripped. *)
Theorem section_loop_reads {S : Type} (record : string -> S -> S)
        (fp : list string) (st : S) :
  exists passed,
    fp = (passed ++ fst (section_loop record fp st))%list
    /\ Forall record_line passed
    /\ match fst (section_loop record fp st) with
       | [] => True
       | raw :: _ => stop_line raw
       end
    /\ snd (section_loop record fp st)
       = fold_left (fun s line => record line s) (stripped_records passed) st.
Proof.
  revert st. induction fp as [|raw rest IH]; intros st.
  - exists []. repeat split. constructor.
  - cbn [section_loop].
    destruct (is_preprocessor_directive raw) eqn:Ed.
    { exists []. repeat split; [constructor | now left]. }
    destruct (strempty (strip_comments raw)) eqn:Ee.
    { destruct (IH st) as (passed & E & F & T & R).
      exists (raw :: passed). repeat split.
      - cbn [app]. now rewrite <- E.
      - constructor; [|exact F]. split; [exact Ed|].
        destruct (strip_comments raw); [reflexivity | discriminate].
      - exact T.
      - rewrite R. unfold stripped_records. cbn [map filter]. now rewrite Ee. }
    destruct (is_section_header (strip_comments raw)) eqn:Eh.
    { exists []. repeat split; [constructor | right; cbn; congruence]. }
    destruct (IH (record (strip_comments raw) st)) as (passed & E & F & T & R).
    exists (raw :: passed). repeat split.
    + cbn [app]. now rewrite <- E.
    + constructor; [|exact F]. now split.
    + exact T.
    + rewrite R. unfold stripped_records. cbn [map filter]. now rewrite Ee.
Qed.

(** ** Include depth *)

Lemma starts_with_include (p : string) :
  starts_with "#include" p = true ->
  exists q, p = String "#"%char (String "i"%char (String "n"%char q)).
Proof.
  unfold starts_with.
  destruct p as [|c1 [|c2 [|c3 q]]]; try discriminate;
    cbn [String.prefix];
    destruct (ascii_dec "#" c1) as [<-|]; try discriminate;
    destruct (ascii_dec "i" c2) as [<-|]; try discriminate.
  destruct (ascii_dec "n" c3) as [<-|]; try discriminate.
  intros _. now exists q.
Qed.

Lemma include_line_not_directive (line base path : string) (d : grotop_data) :
  parse_include line base = Some path ->
  parse_define line d = None
  /\ parse_ifdef line = None
  /\ is_else_directive line = false
  /\ is_endif_directive line = false.
Proof.
  unfold parse_include, parse_define, parse_ifdef, is_else_directive,
    is_endif_directive.
  destruct (starts_with "#include" (skip_ws line)) eqn:E; [|discriminate].
  destruct (starts_with_include _ E) as [q ->]. intros _.
  repeat split; reflexivity.
Qed.

(** X17.  A file whose first record is an [#include] of the file
    itself never parses: every level opens the file again, and no
    level is left after [MAX_INCLUDES] nested includes, so the parse is
    fatal at whatever depth it starts and [open_grotop_read] returns the
    null handle. *)
Theorem self_include_is_fatal
        (scan_float : string -> option (float * string)) (fs : filesystem)
        (filepath content line : string) (rest : list string) :
  fs filepath = Some content ->
  fgets_records content = line :: rest ->
  parse_include line filepath = Some filepath ->
  (forall levels data,
      parse_topology_file scan_float fs levels filepath data = Fatal)
  /\ open_grotop_read scan_float fs filepath = None.
Proof.
  intros Hfs Hrec Hinc.
  assert (G : forall levels data,
             parse_topology_file scan_float fs levels filepath data = Fatal).
  { induction levels as [|levels IH]; intros data; [reflexivity|].
    cbn [parse_topology_file]. rewrite Hfs, Hrec.
    cbn [List.length parse_loop fr_data ifdef_stack].
    destruct (include_line_not_directive line filepath filepath data Hinc)
      as (-> & -> & -> & ->).
    cbn [should_process forallb negb]. now rewrite Hinc, IH. }
  split; [exact G|]. unfold open_grotop_read. now rewrite G.
Qed.

Lemma self_include_is_fatal_witness :
  open_example self_include = None.
Proof.
  apply (self_include_is_fatal
           scan_float_dec (single_file self_include) "topol.top" self_include
           ("#include " ++ String "034"%char ("topol.top" ++ String "034"%char nl))
           []);
    reflexivity.
Defined.

(** ** Molecule-type headers *)

Lemma strip_comments_head (raw r : string) (c : ascii) :
  strip_comments raw = String c r -> exists r', skip_ws raw = String c r'.
Proof.
  unfold strip_comments. induction raw as [|a s IH]; [discriminate|].
  cbn [cut_at]. destruct (Ascii.eqb a ";"%char); [discriminate|].
  cbn [rtrim skip_ws]. destruct (isspace a) eqn:Ha.
  - intros H. apply IH.
    destruct (rtrim (cut_at ";"%char s)) as [|b u] eqn:E.
    + cbn [skip_ws] in H. discriminate.
    + cbn [skip_ws] in H. rewrite Ha in H. exact H.
  - intros H. exists s.
    destruct (rtrim (cut_at ";"%char s)) as [|b u];
      cbn [skip_ws] in H; rewrite Ha in H; now injection H as <- _.
Qed.

Lemma header_line_not_directive (raw section : string) :
  is_section_header (strip_comments raw) = Some section ->
  is_preprocessor_directive raw = false.
Proof.
  unfold is_section_header.
  destruct (strip_comments_clean raw) as (_ & W & _). cbv zeta in W. rewrite W.
  destruct (strip_comments raw) as [|c r] eqn:E; [discriminate|].
  destruct (strip_comments_head raw r c E) as [r' Hr].
  unfold is_preprocessor_directive. rewrite Hr.
  intros H. destruct (Ascii.eqb_spec c "#"%char) as [->|Hc]; [discriminate|].
  destruct c as [[] [] [] [] [] [] [] []]; try reflexivity. now elim Hc.
Qed.

Lemma plain_line_not_directive (line base : string) (d : grotop_data) :
  is_preprocessor_directive line = false ->
  parse_define line d = None
  /\ parse_ifdef line = None
  /\ is_else_directive line = false
  /\ is_endif_directive line = false
  /\ parse_include line base = None.
Proof.
  unfold is_preprocessor_directive, parse_define, parse_ifdef, is_else_directive,
    is_endif_directive, parse_include, starts_with.
  destruct (skip_ws line) as [|c r]; [intros _; repeat split; reflexivity|].
  intros H.
  assert (Hc : Ascii.eqb c "#"%char = false).
  { destruct (Ascii.eqb_spec c "#"%char) as [->|]; [discriminate | reflexivity]. }
  assert (P : forall lit, String.prefix (String "#"%char lit) (String c r) = false).
  { intros lit. cbn [String.prefix].
    destruct (ascii_dec "#" c) as [<-|]; [discriminate | reflexivity]. }
  repeat split; now rewrite ?P.
Qed.

Lemma header_without_name (skipped tail : list string) (mt : moltype_t) :
  Forall (fun raw => strip_comments raw = EmptyString) skipped ->
  match tail with
  | [] => True
  | raw :: _ => is_section_header (strip_comments raw) <> None
  end ->
  fst (fst (parse_moleculetype_header (skipped ++ tail) mt)) = false.
Proof.
  intros Hs Ht. induction Hs as [|raw skipped Hraw _ IH].
  - destruct tail as [|raw rest]; [reflexivity|].
    cbn [app parse_moleculetype_header].
    destruct (strip_comments raw) as [|c r]; [now elim Ht|].
    now destruct (is_section_header (String c r)).
  - cbn [app parse_moleculetype_header]. rewrite Hraw. exact IH.
Qed.

(** X19.  A [moleculetype] header that no name line follows ends the
    parse: when only lines that are empty once their comment is
    stripped stand between the header and the next section header or
    the end of the file, the file loop fails wherever the header stands
    outside a false conditional block.  A file that starts with such a
    header is fatal at every depth and [open_grotop_read] returns the
    null handle. *)
Theorem moleculetype_without_name_is_fatal
        (scan_float : string -> option (float * string))
        (hdr : string) (skipped tail : list string) :
  is_section_header (strip_comments hdr) = Some "moleculetype" ->
  Forall (fun raw => strip_comments raw = EmptyString) skipped ->
  match tail with
  | [] => True
  | raw :: _ => is_section_header (strip_comments raw) <> None
  end ->
  (forall include filepath fuel st,
      should_process (ifdef_stack st) = true ->
      parse_loop scan_float include filepath (S fuel)
                 (hdr :: skipped ++ tail) st = Fatal)
  /\ (forall fs filepath content,
         fs filepath = Some content ->
         fgets_records content = (hdr :: skipped ++ tail)%list ->
         (forall levels data,
             parse_topology_file scan_float fs levels filepath data = Fatal)
         /\ open_grotop_read scan_float fs filepath = None).
Proof.
  intros Hh Hs Ht.
  assert (Step : forall include filepath fuel st,
             should_process (ifdef_stack st) = true ->
             parse_loop scan_float include filepath (S fuel)
                        (hdr :: skipped ++ tail) st = Fatal).
  { intros include filepath fuel st Hp. cbn [parse_loop].
    destruct (plain_line_not_directive hdr filepath (fr_data st)
                (header_line_not_directive hdr _ Hh)) as (-> & -> & -> & -> & ->).
    rewrite Hp. cbn [negb]. rewrite Hh.
    destruct (strempty (strip_comments hdr)) eqn:E.
    { destruct (strip_comments hdr); [discriminate Hh | discriminate E]. }
    unfold process_section.
    change (String.eqb "moleculetype" "atomtypes") with false.
    change (String.eqb "moleculetype" "moleculetype") with true.
    cbv iota.
    pose proof (header_without_name skipped tail create_moltype Hs Ht) as F.
    destruct (parse_moleculetype_header (skipped ++ tail) create_moltype)
      as [[ok fp'] mt]. cbn [fst] in F. subst ok. reflexivity. }
  split; [exact Step|].
  intros fs filepath content Hfs Hrec.
  assert (G : forall levels data,
             parse_topology_file scan_float fs levels filepath data = Fatal).
  { intros [|levels] data; [reflexivity|].
    cbn [parse_topology_file]. rewrite Hfs, Hrec. now apply Step. }
  split; [exact G|]. unfold open_grotop_read. now rewrite G.
Qed.

Lemma moleculetype_without_name_is_fatal_witness :
  open_example nameless_moltype = None.
Proof.
  refine (proj2 (proj2 (moleculetype_without_name_is_fatal
                          scan_float_dec ("[ moleculetype ]" ++ nl)
                          ["; name to come" ++ nl] ["[ atoms ]" ++ nl] _ _ _)
                       (single_file nameless_moltype) "topol.top"
                       nameless_moltype _ _)).
  - reflexivity.
  - repeat constructor.
  - vm_compute. discriminate.
  - reflexivity.
  - reflexivity.
Defined.

Lemma isspace_not_digit (c : ascii) : isspace c = true -> isdigit c = false.
Proof.
  unfold isspace, isdigit. cbv zeta.
  destruct (Nat.eqb_spec (nat_of_ascii c) 32), (Nat.leb_spec 9 (nat_of_ascii c)),
    (Nat.leb_spec (nat_of_ascii c) 13), (Nat.leb_spec 48 (nat_of_ascii c)),
    (Nat.leb_spec (nat_of_ascii c) 57); cbn; intros; try reflexivity;
    try discriminate; lia.
Qed.

Lemma span_nonspace_app (s t r : string) :
  span_nonspace s = (t, r) ->
  s = t ++ r /\ starts_with_digit r = false /\ blank_free t.
Proof.
  revert t r. induction s as [|c s IH]; intros t r; cbn [span_nonspace].
  - intros H. injection H as <- <-. now repeat split.
  - destruct (isspace c) eqn:Hc.
    + intros H. injection H as <- <-. repeat split.
      cbn. now apply isspace_not_digit.
    + destruct (span_nonspace s) as [t' r'] eqn:E. intros H. injection H as <- <-.
      destruct (IH t' r' eq_refl) as (-> & Hd & Hb). repeat split; [exact Hd|].
      unfold blank_free in *. cbn [span_nonspace]. now rewrite Hc, Hb.
Qed.

Lemma scan_digits_app (x r : string) :
  starts_with_digit r = false ->
  forall acc, fst (scan_digits acc (x ++ r)) = fst (scan_digits acc x).
Proof.
  intros Hr. induction x as [|c x IH]; intros acc.
  - cbn [String.append scan_digits]. destruct r as [|c r]; [reflexivity|].
    cbn in Hr. cbn [scan_digits]. now rewrite Hr.
  - cbn [String.append scan_digits]. destruct (isdigit c); [apply IH | reflexivity].
Qed.

Lemma starts_with_digit_app (x r : string) :
  starts_with_digit r = false ->
  starts_with_digit (x ++ r) = starts_with_digit x.
Proof. destruct x; [exact (fun H => H) | reflexivity]. Qed.

Lemma scan_sign_value (neg : bool) (q r : string) :
  starts_with_digit r = false ->
  option_map fst
    (if starts_with_digit (q ++ r)
     then let '(v, rest) := scan_digits 0 (q ++ r) in
          Some (if neg then - v else v, rest)
     else None)
  = option_map fst
      (if starts_with_digit q
       then let '(v, rest) := scan_digits 0 q in
            Some (if neg then - v else v, rest)
       else None).
Proof.
  intros Hr. rewrite (starts_with_digit_app q r Hr).
  destruct (starts_with_digit q); [|reflexivity].
  pose proof (scan_digits_app q r Hr 0) as E.
  destruct (scan_digits 0 (q ++ r)) as [v1 r1], (scan_digits 0 q) as [v2 r2].
  cbn in *. now subst.
Qed.

Lemma sign_cases (c : ascii) :
  c = "-"%char \/ c = "+"%char
  \/ forall (X : Type) (a b d : X),
      match c with
      | "-"%char => a
      | "+"%char => b
      | _ => d
      end = d.
Proof.
  destruct c as [[] [] [] [] [] [] [] []];
    try (now left); try (now right; left); right; right; reflexivity.
Qed.

Lemma scan_d_token (t r : string) :
  strempty t = false -> blank_free t -> starts_with_digit r = false ->
  option_map fst (scan_d (t ++ r)) = option_map fst (scan_d t).
Proof.
  intros Hne Hb Hr. destruct t as [|c t]; [discriminate|].
  apply blank_free_cons in Hb. destruct Hb as [Hc _].
  unfold scan_d. cbn [String.append skip_ws]. rewrite Hc. cbv zeta.
  destruct (sign_cases c) as [->|[->|D]].
  - exact (scan_sign_value true t r Hr).
  - exact (scan_sign_value false t r Hr).
  - rewrite !D. exact (scan_sign_value false (String c t) r Hr).
Qed.

Lemma scan_d_tokens (s : string) :
  option_map fst (scan_d s)
  = match tokens s with
    | t :: _ => option_map fst (scan_d t)
    | [] => None
    end.
Proof.
  assert (W : forall x, scan_d (skip_ws x) = scan_d x).
  { intros x. unfold scan_d. now rewrite skip_ws_idem. }
  destruct (tokens s) as [|t ts] eqn:H.
  - apply tokens_nil in H. rewrite <- W.
    destruct (skip_ws s) as [|c r] eqn:E; [reflexivity|].
    assert (Hc : isspace c = false).
    { apply (skip_ws_fixed_head c r). rewrite <- E. apply skip_ws_idem. }
    cbn [span_nonspace] in H. rewrite Hc in H.
    destruct (span_nonspace r); discriminate.
  - destruct (tokens_cons s t ts H) as [rest [Hs [Hne _]]].
    destruct (span_nonspace_app _ _ _ Hs) as (E & Hd & Hb).
    rewrite <- W, E. now apply scan_d_token.
Qed.

Lemma header_with_name (skipped rest : list string) (raw t : string)
      (ts : list string) (mt : moltype_t) :
  Forall (fun r => strip_comments r = EmptyString) skipped ->
  tokens (strip_comments raw) = t :: ts ->
  is_section_header (strip_comments raw) = None ->
  (String.length t <= 31)%nat ->
  parse_moleculetype_header (skipped ++ raw :: rest) mt
  = (true, rest,
     mk_moltype t (header_nrexcl ts) (atoms mt) (bonds mt) (angles mt)
                (dihedrals mt)).
Proof.
  intros Hs Ht Hh Hl. induction Hs as [|r0 skipped Hr0 _ IH].
  - cbn [app parse_moleculetype_header]. rewrite Hh.
    destruct (strempty (strip_comments raw)) eqn:E.
    { destruct (strip_comments raw); [discriminate Ht | discriminate E]. }
    destruct (scan_s_tokens 31 _ t ts Ht Hl) as [r [-> Hr]].
    destruct (take_all 31 t Hl) as [-> _].
    pose proof (scan_d_tokens r) as D. rewrite Hr in D.
    unfold header_nrexcl.
    destruct ts as [|t2 ts'].
    + destruct (scan_d r) as [[v u]|]; [discriminate D | reflexivity].
    + destruct (scan_d r) as [[v u]|], (scan_d t2) as [[v2 u2]|];
        try discriminate D; [|reflexivity].
      cbn in D. now injection D as ->.
  - cbn [app parse_moleculetype_header]. rewrite Hr0. exact IH.
Qed.

(** X20.  A [moleculetype] section adds one molecule type: the lines
    that are empty once their comment is stripped are passed over, and
    the first other line gives the name, its first token (of at most 31
    characters), and [nrexcl], the integer at the front of its second
    token (a value that fits an [int]), or 3 when there is no second
    token or it starts with no integer.  The new type is appended
    empty, becomes the current molecule type, and the file is left just
    after the name line. *)
Theorem moleculetype_section_adds
        (scan_float : string -> option (float * string))
        (skipped rest : list string) (raw t : string) (ts : list string)
        (data : grotop_data) (cur : option nat) :
  Forall (fun r => strip_comments r = EmptyString) skipped ->
  tokens (strip_comments raw) = t :: ts ->
  is_section_header (strip_comments raw) = None ->
  (String.length t <= 31)%nat ->
  in_int (header_nrexcl ts) = true ->
  (List.length (moltypes data) < MAX_MOLTYPES)%nat ->
  process_section scan_float (skipped ++ raw :: rest) "moleculetype" data cur
  = (true, rest,
     set_moltypes data
                  (moltypes data ++ [mk_moltype t (header_nrexcl ts) [] [] [] []]),
     Some (List.length (moltypes data))).
Proof.
  intros Hs Ht Hh Hl _ Hroom. unfold process_section.
  change (String.eqb "moleculetype" "atomtypes") with false.
  change (String.eqb "moleculetype" "moleculetype") with true.
  cbv iota.
  rewrite (header_with_name skipped rest raw t ts create_moltype Hs Ht Hh Hl).
  cbn [negb atoms bonds angles dihedrals create_moltype].
  destruct (Nat.ltb_spec (List.length (moltypes data)) MAX_MOLTYPES) as [_|H];
    [reflexivity | lia].
Qed.

Lemma moleculetype_section_adds_witness :
  process_section scan_float_dec
                  (["; the solute" ++ nl] ++ ("Protein_A" ++ nl) :: ["[ atoms ]" ++ nl])
                  "moleculetype" empty_data None
  = (true, ["[ atoms ]" ++ nl],
     set_moltypes empty_data [mk_moltype "Protein_A" 3 [] [] [] []], Some 0%nat).
Proof.
  apply (moleculetype_section_adds
           scan_float_dec ["; the solute" ++ nl] ["[ atoms ]" ++ nl]
           ("Protein_A" ++ nl) "Protein_A" [] empty_data None).
  - repeat constructor.
  - reflexivity.
  - reflexivity.
  - simpl; lia.
  - reflexivity.
  - unfold MAX_MOLTYPES; simpl; lia.
Defined.

(** ** Conditional blocks read by the file loop *)

Lemma starts_with_hash2 (lit p : string) (a b : ascii) :
  starts_with (String "#"%char (String a (String b lit))) p = true ->
  exists q, p = String "#"%char (String a (String b q)).
Proof.
  unfold starts_with.
  destruct p as [|c1 [|c2 [|c3 q]]]; try discriminate;
    cbn [String.prefix];
    destruct (ascii_dec "#" c1) as [<-|]; try discriminate;
    destruct (ascii_dec a c2) as [<-|]; try discriminate.
  destruct (ascii_dec b c3) as [<-|]; try discriminate.
  intros _. now exists q.
Qed.

Lemma ifdef_line_not_define (line : string) (d : grotop_data) :
  parse_ifdef line <> None -> parse_define line d = None.
Proof.
  unfold parse_ifdef, parse_define.
  destruct (starts_with "#ifdef" (skip_ws line)) eqn:E1.
  - destruct (starts_with_hash2 _ _ _ _ E1) as [q ->]. reflexivity.
  - destruct (starts_with "#ifndef" (skip_ws line)) eqn:E2; [|congruence].
    destruct (starts_with_hash2 _ _ _ _ E2) as [q ->]. reflexivity.
Qed.

Lemma endif_line_only (line : string) (d : grotop_data) :
  is_endif_directive line = true ->
  parse_define line d = None /\ parse_ifdef line = None
  /\ is_else_directive line = false.
Proof.
  unfold is_endif_directive, parse_define, parse_ifdef, is_else_directive.
  intros E. destruct (starts_with_hash2 _ _ _ _ E) as [q ->].
  repeat split; reflexivity.
Qed.

Lemma block_line_only (line : string) (d : grotop_data) :
  block_line line ->
  parse_define line d = None /\ parse_ifdef line = None
  /\ is_else_directive line = false /\ is_endif_directive line = false.
Proof.
  unfold block_line, parse_define, parse_ifdef, is_else_directive,
    is_endif_directive. cbv zeta.
  intros (-> & -> & -> & -> & ->). repeat split; reflexivity.
Qed.

Lemma skipped_lines
      (scan_float : string -> option (float * string))
      (include : string -> grotop_data -> result grotop_data) (filepath : string)
      (body rest : list string) (st : frame) (fuel : nat) :
  should_process (ifdef_stack st) = false ->
  Forall block_line body ->
  parse_loop scan_float include filepath (List.length body + fuel)
             (body ++ rest) st
  = parse_loop scan_float include filepath fuel rest st.
Proof.
  intros Hp Hb. induction Hb as [|l body Hl _ IH]; [reflexivity|].
  cbn [List.length Nat.add app parse_loop].
  destruct (block_line_only l (fr_data st) Hl) as (-> & -> & -> & ->).
  rewrite Hp. cbn [negb]. exact IH.
Qed.

(** X21.  A conditional block whose test fails, met by the file loop
    while no section is current, is passed over as a whole: from the
    [#ifdef] or [#ifndef] line to the [#endif] line nothing is stored,
    no section is entered and no [#include] in it is opened, whatever
    the lines between them are, as long as none of them starts with
    [#define], [#ifdef], [#ifndef], [#else] or [#endif].  The loop goes
    on after the [#endif] in the state it had before the block. *)
Theorem false_block_is_skipped
        (scan_float : string -> option (float * string))
        (include : string -> grotop_data -> result grotop_data)
        (filepath opening closing sym : string) (is_ifndef : bool)
        (body rest : list string) (st : frame) (fuel : nat) :
  current_section st = EmptyString ->
  (List.length (ifdef_stack st) < MAX_IFDEF_DEPTH)%nat ->
  parse_ifdef opening = Some (sym, is_ifndef) ->
  is_defined (fr_data st) sym = is_ifndef ->
  Forall block_line body ->
  is_endif_directive closing = true ->
  parse_loop scan_float include filepath (S (S (List.length body)) + fuel)
             (opening :: body ++ closing :: rest) st
  = parse_loop scan_float include filepath fuel rest st.
Proof.
  destruct st as [data mt sec stack]. cbn [current_section ifdef_stack fr_data].
  intros -> Hdepth Hopen Hdef Hbody Hclose.
  replace (S (S (List.length body)) + fuel)%nat
    with (S (List.length body + S fuel))%nat by lia.
  cbn [parse_loop fr_data ifdef_stack current_section current_mt].
  rewrite (ifdef_line_not_define opening data) by congruence.
  rewrite Hopen, Hdef.
  destruct (Nat.leb_spec MAX_IFDEF_DEPTH (List.length stack)) as [H|_]; [lia|].
  assert (Hc : (if is_ifndef then negb is_ifndef else is_ifndef) = false)
    by now destruct is_ifndef.
  rewrite Hc. cbn [strempty negb].
  rewrite skipped_lines; [|reflexivity | exact Hbody].
  cbn [parse_loop fr_data ifdef_stack current_section current_mt].
  destruct (endif_line_only closing data Hclose) as (-> & -> & ->).
  rewrite Hclose. reflexivity.
Qed.

Lemma false_block_is_skipped_witness :
  parse_loop scan_float_dec (fun _ _ => Fatal) "topol.top" 5
             (("#ifdef FLEXIBLE" ++ nl)
                :: [("#include " ++ String "034"%char ("gone.itp" ++ String "034"%char nl));
                    "[ moleculetype ]" ++ nl]
                ++ ("#endif" ++ nl) :: [])
             (mk_frame empty_data None "" [])
  = Done empty_data.
Proof.
  apply (false_block_is_skipped
           scan_float_dec (fun _ _ => Fatal) "topol.top"
           ("#ifdef FLEXIBLE" ++ nl) ("#endif" ++ nl) "FLEXIBLE" false
           [("#include " ++ String "034"%char ("gone.itp" ++ String "034"%char nl));
            "[ moleculetype ]" ++ nl]
           [] (mk_frame empty_data None "" []) 1).
  - reflexivity.
  - unfold MAX_IFDEF_DEPTH; simpl; lia.
  - reflexivity.
  - reflexivity.
  - repeat constructor.
  - reflexivity.
Defined.

(** ** Files without table sections *)

Lemma section_loop_Forall {S : Type} (P : string -> Prop)
      (record : string -> S -> S) (fp : list string) :
  Forall P fp -> forall st, Forall P (fst (section_loop record fp st)).
Proof.
  intros H. induction H as [|raw rest Hraw Hrest IH]; intros st;
    cbn [section_loop]; [constructor|].
  destruct (is_preprocessor_directive raw); [now constructor|].
  destruct (strempty (strip_comments raw)); [apply IH|].
  destruct (is_section_header (strip_comments raw)); [now constructor | apply IH].
Qed.

Lemma process_section_inert
      (scan_float : string -> option (float * string))
      (fp : list string) (section : string) (data : grotop_data) :
  table_section section = false ->
  exists fp',
    process_section scan_float fp section data None = (true, fp', data, None)
    /\ (List.length fp' <= List.length fp)%nat
    /\ (Forall inert_line fp -> Forall inert_line fp').
Proof.
  unfold table_section. cbn [existsb]. intros H.
  apply orb_false_elim in H. destruct H as [H1 H].
  apply orb_false_elim in H. destruct H as [H2 H].
  apply orb_false_elim in H. destruct H as [H3 _].
  unfold process_section. rewrite H1, H2, H3.
  assert (O : exists fp',
             (if is_skipped_section section
              then (true, skip_section fp, data, @None nat)
              else (true, fp, data, None)) = (true, fp', data, None)
             /\ (List.length fp' <= List.length fp)%nat
             /\ (Forall inert_line fp -> Forall inert_line fp')).
  { destruct (is_skipped_section section).
    - exists (skip_section fp). split; [reflexivity|]. split.
      + apply section_loop_length.
      + intros F. now apply section_loop_Forall.
    - exists fp. now repeat split. }
  now destruct (String.eqb section "atoms"), (String.eqb section "bonds"),
    (String.eqb section "constraints"), (String.eqb section "angles"),
    (String.eqb section "dihedrals").
Qed.

Lemma inert_loop
      (scan_float : string -> option (float * string))
      (include : string -> grotop_data -> result grotop_data) (filepath : string) :
  forall n fp,
    (List.length fp <= n)%nat -> Forall inert_line fp ->
    forall fuel section data,
      (List.length fp < fuel)%nat ->
      parse_loop scan_float include filepath fuel fp
                 (mk_frame data None section []) = Done data.
Proof.
  induction n as [|n IH]; intros fp Hn Hfp fuel section data Hfuel.
  - destruct fp; [|simpl in Hn; lia]. destruct fuel; [lia | reflexivity].
  - destruct fuel as [|fuel]; [lia|]. destruct fp as [|line rest]; [reflexivity|].
    inversion Hfp as [|? ? [Hd Hh] Hrest]; subst. simpl in Hn, Hfuel.
    cbn [parse_loop fr_data ifdef_stack current_section current_mt].
    destruct (plain_line_not_directive line filepath data Hd)
      as (-> & -> & -> & -> & ->).
    cbn [should_process forallb negb].
    destruct (strempty (strip_comments line)); [apply IH; auto; lia|].
    destruct (is_section_header (strip_comments line)) as [sec|] eqn:E;
      [|apply IH; auto; lia].
    destruct (process_section_inert scan_float rest sec data (Hh sec eq_refl))
      as (fp' & -> & Hlen & HF).
    apply IH; auto; lia.
Qed.

(** X22.  Only three sections can store anything while no molecule
    type is current.  A file without a line that starts with [#] and
    without an [atomtypes], [moleculetype] or [molecules] header parses
    successfully and leaves the data as it was: records of [atoms],
    [bonds], [angles] or [dihedrals] sections that no molecule type
    precedes are dropped without an error, as are the lines of every
    section the reader does not know. *)
Theorem inert_file_stores_nothing
        (scan_float : string -> option (float * string)) (fs : filesystem)
        (filepath content : string) (levels : nat) (data : grotop_data) :
  fs filepath = Some content ->
  Forall inert_line (fgets_records content) ->
  parse_topology_file scan_float fs (S levels) filepath data = Done data.
Proof.
  intros Hfs Hin. cbn [parse_topology_file]. rewrite Hfs.
  apply (inert_loop scan_float _ filepath (List.length (fgets_records content)));
    auto.
Qed.

Lemma inert_file_stores_nothing_witness :
  parse_example stray_records = Done empty_data.
Proof.
  apply (inert_file_stores_nothing
           scan_float_dec (single_file stray_records) "topol.top" stray_records
           MAX_INCLUDES empty_data).
  - reflexivity.
  - repeat (apply Forall_cons || apply Forall_nil);
      (split;
       [reflexivity
       | intros s H; vm_compute in H;
         first [discriminate H | injection H as <-; reflexivity]]).
Defined.

(** ** Nesting of conditionals *)

Lemma open_conditionals_loop
      (scan_float : string -> option (float * string))
      (include : string -> grotop_data -> result grotop_data) (filepath : string)
      (data : grotop_data) (mt : option nat) (lines : list string) :
  Forall (fun l => parse_ifdef l <> None) lines ->
  forall stack fuel,
    (List.length stack <= MAX_IFDEF_DEPTH)%nat ->
    (List.length lines < fuel)%nat ->
    parse_loop scan_float include filepath fuel lines (mk_frame data mt "" stack)
    = if Nat.leb (List.length lines + List.length stack) MAX_IFDEF_DEPTH
      then Done data else Fatal.
Proof.
  intros H. induction H as [|line rest Hl _ IH]; intros stack fuel Hs Hf;
    (destruct fuel as [|fuel]; [simpl in Hf; lia|]).
  - cbn [parse_loop List.length Nat.add fr_data].
    now destruct (Nat.leb_spec (List.length stack) MAX_IFDEF_DEPTH); [|lia].
  - cbn [parse_loop fr_data ifdef_stack current_section current_mt].
    rewrite (ifdef_line_not_define line data Hl).
    destruct (parse_ifdef line) as [[sym neg]|]; [|congruence].
    simpl in Hf. cbn [List.length].
    destruct (Nat.leb_spec MAX_IFDEF_DEPTH (List.length stack)) as [Hfull|Hroom].
    + destruct (Nat.leb_spec (S (List.length rest) + List.length stack)
                             MAX_IFDEF_DEPTH); [lia | reflexivity].
    + cbn [strempty negb]. rewrite IH by (simpl; lia). cbn [List.length].
      replace (List.length rest + S (List.length stack))%nat
        with (S (List.length rest) + List.length stack)%nat by lia.
      reflexivity.
Qed.

(** X23.  Conditionals that are still open at the end of a file are no
    error, and at most 20 can be open at once: a file made of [#ifdef]
    and [#ifndef] lines only parses successfully, leaving the data as it
    was, when it has at most [MAX_IFDEF_DEPTH] lines, and is fatal when
    it has more, whether the symbols are defined or not. *)
Theorem open_conditionals_limit
        (scan_float : string -> option (float * string)) (fs : filesystem)
        (filepath content : string) (levels : nat) (data : grotop_data) :
  fs filepath = Some content ->
  Forall (fun l => parse_ifdef l <> None) (fgets_records content) ->
  parse_topology_file scan_float fs (S levels) filepath data
  = if Nat.leb (List.length (fgets_records content)) MAX_IFDEF_DEPTH
    then Done data else Fatal.
Proof.
  intros Hfs H. cbn [parse_topology_file]. rewrite Hfs.
  rewrite (open_conditionals_loop scan_float _ filepath data None _ H);
    [|simpl; unfold MAX_IFDEF_DEPTH; lia | lia].
  cbn [List.length]. now rewrite Nat.add_0_r.
Qed.

Lemma open_conditionals_limit_witness :
  parse_example open_conditionals = Done empty_data.
Proof.
  apply (open_conditionals_limit
           scan_float_dec (single_file open_conditionals) "topol.top"
           open_conditionals MAX_INCLUDES empty_data).
  - reflexivity.
  - repeat (apply Forall_cons || apply Forall_nil); vm_compute; discriminate.
Defined.
